(** * ColorDescriptors: a shallow embedding of [ColorDescriptors.py]

    The Python module stores LED colours in two synchronised forms
    (RGB[W] and HSI), converts between them, encodes them as short hex
    descriptor strings and builds gradients by linear interpolation.

    Modelling choices.
    - Python numbers ([int] and [float]) are real numbers of [R]: the
      arithmetic is the exact one, [math.sqrt], [math.acos], [math.cos]
      and [math.atan] are the functions of the Standard Library, and the
      exceptions they raise outside their domain are kept.  Integers that
      only index or format (string positions, rounded channels) are [Z].
    - [None] is the [None] of an [option].
    - A Python call is a computation of the monad [M]: it appends the lines
      it prints to a log and either returns a value or raises an exception.
    - A [str] is a [string] of ASCII characters. *)

From Stdlib Require Import Reals Lra Lia ZArith List Bool String Ascii.
From Stdlib Require HexString DecimalString DecimalPos.
Import ListNotations.

Open Scope R_scope.

(** ** Exceptions, printing and the monad of Python calls *)

Inductive exn : Type :=
| Exception (msg : string)
| TypeError
| ValueError
| ZeroDivisionError
| IndexError
| AttributeError.

Inductive result (A : Type) : Type :=
| Ok (a : A)
| Raise (e : exn).
Arguments Ok {A} a.
Arguments Raise {A} e.

(** The lines printed so far, and the outcome. *)
Definition M (A : Type) : Type := (list string * result A)%type.

Definition ret {A} (a : A) : M A := ([], Ok a).
Definition raise {A} (e : exn) : M A := ([], Raise e).
Definition print (s : string) : M unit := ([s], Ok tt).

Definition bind {A B} (m : M A) (f : A -> M B) : M B :=
  match m with
  | (out, Ok a) => let (out', r) := f a in (out ++ out', r)
  | (out, Raise e) => (out, Raise e)
  end.

Declare Scope py_scope.
Delimit Scope py_scope with py.
Notation "x <- m ;; k" := (bind m (fun x => k))
  (at level 61, m at next level, right associativity) : py_scope.
Notation "' pat <- m ;; k" := (bind m (fun x => match x with pat => k end))
  (at level 61, pat pattern, m at next level, right associativity) : py_scope.
Notation "m ;;; k" := (bind m (fun _ => k))
  (at level 61, right associativity) : py_scope.
Open Scope py_scope.

(** ** Python arithmetic on reals *)

(** [x / y], raising [ZeroDivisionError] on a zero divisor. *)
Definition py_div (x y : R) : M R :=
  if Req_dec_T y 0 then raise ZeroDivisionError else ret (x / y).

(** [math.sqrt], raising [ValueError] on a negative argument. *)
Definition py_sqrt (x : R) : M R :=
  if Rle_dec 0 x then ret (sqrt x) else raise ValueError.

(** [math.acos], raising [ValueError] outside [-1, 1]. *)
Definition py_acos (x : R) : M R :=
  if Rle_dec (-1) x then
    if Rle_dec x 1 then ret (acos x) else raise ValueError
  else raise ValueError.

(** [x % m] for a positive modulus: the result has the sign of [m]. *)
Definition py_mod (x m : R) : R := x - m * IZR (Zfloor (x / m)).

(** [round(x)]: to the nearest integer, ties to the even one. *)
Definition py_round (x : R) : Z :=
  let f := Zfloor x in
  let d := x - IZR f in
  if Rlt_dec d (1 / 2) then f
  else if Rlt_dec (1 / 2) d then (f + 1)%Z
  else if Z.even f then f else (f + 1)%Z.

(** An operand that must be a number: arithmetic on [None] is a
    [TypeError]. *)
Definition need {A} (x : option A) : M A :=
  match x with
  | Some v => ret v
  | None => raise TypeError
  end.

(** ** Linear interpolation *)

Definition lerp (x x0 x1 y0 y1 : R) : M R :=
  let x := if Rgt_dec x x1 then x1 else x in
  let x := if Rlt_dec x x0 then x0 else x in
  q <- py_div (x - x0) (x1 - x0) ;;
  ret (y0 + (y1 - y0) * q).

(** ** Colour-space conversions *)

(** [(x if x < hi else hi) if x > 0 else 0]. *)
Definition clamp (x hi : R) : R :=
  if Rgt_dec x 0 then (if Rlt_dec x hi then x else hi) else 0.

Definition rgb2hsi (red green blue : R) : M (R * R * R) :=
  let r := red / 255 in
  let g := green / 255 in
  let b := blue / 255 in
  let minimum := Rmin r (Rmin g b) in
  let maximum := Rmax r (Rmax g b) in
  let intensity := (r + g + b) / 3 in
  saturation <-
    (if Req_dec_T intensity 0 then ret 0
     else q <- py_div minimum intensity ;; ret (1 - q)) ;;
  rt <- py_sqrt ((r - g) * (r - g) + (r - b) * (g - b)) ;;
  hue <- py_acos ((r - g + r - b) / 2 * rt) ;;
  let hue := if Rgt_dec b g then 2 * PI - hue else hue in
  let hue := if Req_dec_T minimum maximum then 0 else hue in
  let hue := hue * 180 / PI in
  let intensity := r + g + b in
  ret (hue, saturation, intensity).

Definition hsi2rgb (hue saturation intensity : R) : M (R * R * R) :=
  let hue := py_mod hue 360 in
  let hue := PI * hue / 180 in
  let saturation := clamp saturation 1 in
  let intensity := clamp intensity 3 in
  '(r, g, b) <-
    (if Rlt_dec hue (2 / 3 * PI) then
       c <- py_div (saturation * cos hue) (cos (PI / 3 - hue)) ;;
       c' <- py_div (cos hue) (cos (PI / 3 - hue)) ;;
       ret (saturation * intensity / 3 * (1 + c) * 255,
            saturation * intensity / 3 * (1 + saturation * (1 - c')) * 255,
            intensity / 3 * (1 - saturation) * 255)
     else if Rlt_dec hue (4 / 3 * PI) then
       let hue := hue - 2 / 3 * PI in
       c <- py_div (saturation * cos hue) (cos (PI / 3 - hue)) ;;
       c' <- py_div (cos hue) (cos (PI / 3 - hue)) ;;
       ret (intensity / 3 * (1 - saturation) * 255,
            saturation * intensity / 3 * (1 + c) * 255,
            saturation * intensity / 3 * (1 + saturation * (1 - c')) * 255)
     else
       let hue := hue - 4 / 3 * PI in
       c' <- py_div (cos hue) (cos (PI / 3 - hue)) ;;
       c <- py_div (saturation * cos hue) (cos (PI / 3 - hue)) ;;
       ret (saturation * intensity / 3 * (1 + saturation * (1 - c')) * 255,
            intensity / 3 * (1 - saturation) * 255,
            saturation * intensity / 3 * (1 + c) * 255)) ;;
  ret (clamp r 255, clamp g 255, clamp b 255).

Definition is0 (x : R) : bool := if Req_dec_T x 0 then true else false.

Definition or0 (x : option R) : R :=
  match x with
  | Some v => v
  | None => 0
  end.

Definition rgbw2hsi (red green blue white : option R) : M (R * R * R) :=
  let red := or0 red in
  let green := or0 green in
  let blue := or0 blue in
  let white := or0 white in
  if is0 white then rgb2hsi red green blue
  else
    saturation <- py_div (red + green + blue) (red + green + blue + white) ;;
    let intensity := (red + green + blue + white) / 255 in
    if is0 red && is0 green && is0 blue then ret (0, saturation, intensity)
    else if is0 red && is0 green then ret (240, saturation, intensity)
    else if is0 green && is0 blue then ret (0, saturation, intensity)
    else if is0 blue && is0 red then ret (120, saturation, intensity)
    else if is0 red then
      rt <- py_sqrt (blue ^ 2 - blue * green + green ^ 2) ;;
      q <- py_div (2 * rt - 2 * green + blue) (sqrt 3 * blue) ;;
      let hue := 2 * atan q in
      let hue := hue + 2 / 3 * PI in
      let hue := hue * 180 / PI in
      ret (hue, saturation, intensity)
    else if is0 green then
      rt <- py_sqrt (blue ^ 2 - blue * red + red ^ 2) ;;
      q <- py_div (2 * rt - 2 * blue + red) (sqrt 3 * red) ;;
      let hue := 2 * atan q in
      let hue := hue + 4 / 3 * PI in
      let hue := hue * 180 / PI in
      ret (hue, saturation, intensity)
    else if is0 blue then
      rt <- py_sqrt (green ^ 2 - green * red + red ^ 2) ;;
      q <- py_div (2 * rt - 2 * red + green) (sqrt 3 * green) ;;
      let hue := 2 * atan q in
      let hue := hue * 180 / PI in
      ret (hue, saturation, intensity)
    else
      let r := red / 255 in
      let g := green / 255 in
      let b := blue / 255 in
      rt <- py_sqrt ((r - g) * (r - g) + (r - b) * (g - b)) ;;
      hue <- py_acos ((r - g + r - b) / 2 * rt) ;;
      let hue := if Rgt_dec blue green then 2 * PI - hue else hue in
      let hue := hue * 180 / PI in
      let intensity := (red + green + blue) / (255 * 3) in
      q <- py_div (Rmin r (Rmin g b)) intensity ;;
      let saturation := 1 - q in
      let saturation := saturation * (255 - white) / 255 in
      let intensity := (red + green + blue + white) / 255 in
      ret (hue, saturation, intensity).

Definition hsi2rgbw (hue saturation intensity : R) : M (R * R * R * R) :=
  let hue := py_mod hue 360 in
  let hue := PI * hue / 180 in
  let saturation := clamp saturation 1 in
  let intensity := clamp intensity 4 in
  '(r, g, b) <-
    (if Rlt_dec hue (2 / 3 * PI) then
       c <- py_div (cos hue) (cos (PI / 3 - hue)) ;;
       ret (saturation * intensity / 3 * (1 + c) * 255,
            saturation * intensity / 3 * (1 + (1 - c)) * 255,
            0)
     else if Rlt_dec hue (4 / 3 * PI) then
       let hue := hue - 2 / 3 * PI in
       c <- py_div (cos hue) (cos (PI / 3 - hue)) ;;
       ret (0,
            saturation * intensity / 3 * (1 + c) * 255,
            saturation * intensity / 3 * (1 + (1 - c)) * 255)
     else
       let hue := hue - 4 / 3 * PI in
       c <- py_div (cos hue) (cos (PI / 3 - hue)) ;;
       ret (saturation * intensity / 3 * (1 + (1 - c)) * 255,
            0,
            saturation * intensity / 3 * (1 + c) * 255)) ;;
  let w := (1 - saturation) * intensity * 255 in
  ret (clamp r 255, clamp g 255, clamp b 255, clamp w 255).

(** ** ColorSolid *)

Inductive inputType : Type := rgb | rgbw | hsi.

Definition inputType_eqb (a b : inputType) : bool :=
  match a, b with
  | rgb, rgb | rgbw, rgbw | hsi, hsi => true
  | _, _ => false
  end.

Record ColorSolid : Type := mkColorSolid {
  _red : option R;
  _green : option R;
  _blue : option R;
  _white : option R;
  _hue : option R;
  _saturation : option R;
  _intensity : option R;
  _enableWhite : bool;
  _inputType : option inputType
}.

(** Defaults of the keyword arguments of [ColorSolid.__init__]. *)
Definition default_hue : option R := Some 0.
Definition default_saturation : option R := Some 1.
Definition default_intensity : option R := Some 1.
Definition default_enableWhite : bool := true.

Definition is_some {A} (x : option A) : bool :=
  match x with
  | Some _ => true
  | None => false
  end.

(** [ColorSolid.__init__], every argument explicit. *)
Definition ColorSolid_init
    (red green blue white hue saturation intensity : option R)
    (enableWhite : bool) : M ColorSolid :=
  match red, green, blue with
  | Some r, Some g, Some b =>
      if enableWhite then
        '(h, s, i) <- rgbw2hsi red green blue white ;;
        ret (mkColorSolid red green blue white (Some h) (Some s) (Some i)
               enableWhite (Some rgbw))
      else
        '(h, s, i) <- rgb2hsi r g b ;;
        ret (mkColorSolid red green blue None (Some h) (Some s) (Some i)
               enableWhite (Some rgb))
  | _, _, _ =>
      match hue, saturation, intensity with
      | Some h, Some s, Some i =>
          if negb enableWhite then
            '(r, g, b) <- hsi2rgb h s i ;;
            ret (mkColorSolid (Some r) (Some g) (Some b) None
                   hue saturation intensity enableWhite (Some hsi))
          else
            '(r, g, b, w) <- hsi2rgbw h s i ;;
            ret (mkColorSolid (Some r) (Some g) (Some b) (Some w)
                   hue saturation intensity enableWhite (Some hsi))
      | _, _, _ =>
          print "Must input either rgb[w] or hsi; output object not configured correctly" ;;;
          ret (mkColorSolid None None None None None None None
                 enableWhite None)
      end
  end.

(** The properties. *)
Definition red (c : ColorSolid) : option R := _red c.
Definition green (c : ColorSolid) : option R := _green c.
Definition blue (c : ColorSolid) : option R := _blue c.
Definition white (c : ColorSolid) : option R :=
  if _enableWhite c then _white c else None.
Definition hue (c : ColorSolid) : option R := _hue c.
Definition saturation (c : ColorSolid) : option R := _saturation c.
Definition intensity (c : ColorSolid) : option R := _intensity c.
Definition enableWhite (c : ColorSolid) : bool := _enableWhite c.

(** ** Formatting and reading hexadecimal fields *)

Open Scope string_scope.

Definition hex_digits (n : Z) : string :=
  match n with
  | Z0 => "0"
  | Zpos p => HexString.Raw.of_pos p ""
  | Zneg p => HexString.Raw.of_pos p ""
  end.

Fixpoint zeros (k : nat) : string :=
  match k with
  | O => ""
  | S k' => String "0" (zeros k')
  end.

(** ["{:0<width>x}".format(n)]: lower-case digits, zeros between the sign
    and the digits up to [width] characters. *)
Definition format_hex (width : nat) (n : Z) : string :=
  let d := hex_digits n in
  if (n <? 0)%Z
  then String "-" (zeros (width - 1 - String.length d) ++ d)
  else zeros (width - String.length d) ++ d.

(** The characters [int] skips around a number in an ASCII string. *)
Definition is_space (c : ascii) : bool :=
  let n := nat_of_ascii c in
  ((9 <=? n) && (n <=? 13) || (n =? 32))%nat.

Fixpoint lstrip (l : list ascii) : list ascii :=
  match l with
  | c :: l' => if is_space c then lstrip l' else l
  | [] => []
  end.

Definition strip (l : list ascii) : list ascii :=
  rev (lstrip (rev (lstrip l))).

(** Digits in base 16, single underscores allowed between two digits. *)
Fixpoint hex_body (acc : Z) (prev_underscore : bool) (l : list ascii)
  : option Z :=
  match l with
  | [] => if prev_underscore then None else Some acc
  | c :: l' =>
      if Ascii.eqb c "_" then
        if prev_underscore then None else hex_body acc true l'
      else
        match HexString.ascii_to_digit c with
        | Some d => hex_body (16 * acc + Z.of_N d) false l'
        | None => None
        end
  end.

Definition hex_number (l : list ascii) : option Z :=
  let l :=
    match l with
    | "0"%char :: x :: l' =>
        if Ascii.eqb x "x" || Ascii.eqb x "X" then
          match l' with
          | "_"%char :: l'' => l''
          | _ => l'
          end
        else l
    | _ => l
    end in
  match l with
  | [] => None
  | c :: _ => if Ascii.eqb c "_" then None else hex_body 0 false l
  end.

(** [int(s, 16)] on an ASCII string: surrounding white space, an optional
    sign, an optional [0x] prefix, then the digits.  [None] stands for the
    [ValueError] of an invalid literal. *)
Definition int16 (s : string) : option Z :=
  match strip (list_ascii_of_string s) with
  | "+"%char :: l => hex_number l
  | "-"%char :: l => option_map Z.opp (hex_number l)
  | l => hex_number l
  end.

Definition py_int16 (s : string) : M Z :=
  match int16 s with
  | Some n => ret n
  | None => raise ValueError
  end.

(** ** Strings *)

Definition lower_ascii (c : ascii) : ascii :=
  let n := nat_of_ascii c in
  if ((65 <=? n) && (n <=? 90))%nat then ascii_of_nat (n + 32) else c.

(** [s.lower().startswith(c)] for a lower-case letter [c]. *)
Definition lower_startswith (s : string) (c : ascii) : bool :=
  match s with
  | String a _ => Ascii.eqb (lower_ascii a) c
  | EmptyString => false
  end.

Fixpoint last_char (s : string) : option ascii :=
  match s with
  | EmptyString => None
  | String a EmptyString => Some a
  | String _ s' => last_char s'
  end.

(** [s.lower().endswith(c)] for a lower-case letter [c]. *)
Definition lower_endswith (s : string) (c : ascii) : bool :=
  match last_char s with
  | Some a => Ascii.eqb (lower_ascii a) c
  | None => false
  end.

(** [range(start, stop, step)] for a positive [step]. *)
Definition range3 (start stop step : nat) : list nat :=
  map (fun k => (start + k * step)%nat)
      (seq 0 ((stop - start + step - 1) / step)).

(** [[int(s[i:i+k], 16) for i in range(1, len(s), k)]]. *)
Fixpoint mapM {A B} (f : A -> M B) (l : list A) : M (list B) :=
  match l with
  | [] => ret []
  | a :: l' => b <- f a ;; bs <- mapM f l' ;; ret (b :: bs)
  end.

Definition fields (k : nat) (s : string) : list string :=
  map (fun i => substring i k s) (range3 1 (String.length s) k).

Definition splitStr (k : nat) (s : string) : M (list Z) :=
  mapM py_int16 (fields k s).

(** [l[k]], raising [IndexError] past the end. *)
Definition index {A} (l : list A) (k : nat) : M A :=
  match nth_error l k with
  | Some v => ret v
  | None => raise IndexError
  end.

(** ** ColorSolid: methods *)

Open Scope R_scope.

(** [(forceMode is not None and forceMode == m) or self._inputType == m].
    A [forceMode] that names no representation behaves like [None]. *)
Definition selects (forceMode : option inputType) (c : ColorSolid)
    (m : inputType) : bool :=
  match forceMode with
  | Some f => inputType_eqb f m
  | None => false
  end
  || match _inputType c with
     | Some t => inputType_eqb t m
     | None => false
     end.

(** [round(x)] of a field that may be [None]. *)
Definition round_field (x : option R) : M Z :=
  v <- need x ;; ret (py_round v).

Definition toString (forceMode : option inputType) (c : ColorSolid)
  : M (option string) :=
  if selects forceMode c rgb then
    r <- round_field (red c) ;;
    g <- round_field (green c) ;;
    b <- round_field (blue c) ;;
    ret (Some (String "c" (format_hex 2 r ++ format_hex 2 g
                             ++ format_hex 2 b)%string))
  else if selects forceMode c rgbw then
    let white := match white c with Some w => w | None => 0 end in
    r <- round_field (red c) ;;
    g <- round_field (green c) ;;
    b <- round_field (blue c) ;;
    ret (Some (String "c" (format_hex 2 r ++ format_hex 2 g
                             ++ format_hex 2 b
                             ++ format_hex 2 (py_round white))%string))
  else if selects forceMode c hsi then
    h <- need (hue c) ;;
    let hue := if Req_dec_T h 360 then 360 else py_mod h 360 in
    s <- need (saturation c) ;;
    i <- need (intensity c) ;;
    let body := (format_hex 3 (py_round hue)
                 ++ format_hex 3 (py_round (s * 255))
                 ++ format_hex 3 (py_round (i * 255)))%string in
    if _enableWhite c
    then ret (Some (String "h" (body ++ "w")%string))
    else ret (Some (String "h" body))
  else ret None.

Definition option_string_eqb (a b : option string) : bool :=
  match a, b with
  | Some x, Some y => String.eqb x y
  | None, None => true
  | _, _ => false
  end.

(** [ColorSolid.__eq__] between two colours. *)
Definition ColorSolid_eq (a b : ColorSolid) : M bool :=
  x <- toString None a ;;
  y <- toString None b ;;
  ret (option_string_eqb x y).

Definition copy (forceMode : option inputType) (c : ColorSolid)
  : M (option ColorSolid) :=
  if selects forceMode c rgb then
    c' <- ColorSolid_init (red c) (green c) (blue c) None
            default_hue default_saturation default_intensity
            default_enableWhite ;;
    ret (Some c')
  else if selects forceMode c rgbw then
    c' <- ColorSolid_init (red c) (green c) (blue c) (white c)
            default_hue default_saturation default_intensity
            default_enableWhite ;;
    ret (Some c')
  else if selects forceMode c hsi then
    c' <- ColorSolid_init None None None None
            (hue c) (saturation c) (intensity c)
            default_enableWhite ;;
    ret (Some c')
  else ret None.

(** *** Property setters

    A setter mutates the object; when the conversion raises, the fields
    assigned before the call keep their new values.  A setter therefore
    yields the object it leaves behind together with the outcome. *)

Definition with_inputType (t : inputType) (c : ColorSolid) : ColorSolid :=
  mkColorSolid (_red c) (_green c) (_blue c) (_white c)
    (_hue c) (_saturation c) (_intensity c) (_enableWhite c) (Some t).

(** [self._hue, self._saturation, self._intensity = m]. *)
Definition assign_hsi (c : ColorSolid) (m : M (R * R * R))
  : ColorSolid * M unit :=
  match m with
  | (out, Ok (h, s, i)) =>
      (mkColorSolid (_red c) (_green c) (_blue c) (_white c)
         (Some h) (Some s) (Some i) (_enableWhite c) (_inputType c),
       (out, Ok tt))
  | (out, Raise e) => (c, (out, Raise e))
  end.

(** [self._red, self._green, self._blue, self._white = m]. *)
Definition assign_rgbw (c : ColorSolid) (m : M (R * R * R * R))
  : ColorSolid * M unit :=
  match m with
  | (out, Ok (r, g, b, w)) =>
      (mkColorSolid (Some r) (Some g) (Some b) (Some w)
         (_hue c) (_saturation c) (_intensity c)
         (_enableWhite c) (_inputType c),
       (out, Ok tt))
  | (out, Raise e) => (c, (out, Raise e))
  end.

(** [self._red, self._green, self._blue = m]. *)
Definition assign_rgb (c : ColorSolid) (m : M (R * R * R))
  : ColorSolid * M unit :=
  match m with
  | (out, Ok (r, g, b)) =>
      (mkColorSolid (Some r) (Some g) (Some b) (_white c)
         (_hue c) (_saturation c) (_intensity c)
         (_enableWhite c) (_inputType c),
       (out, Ok tt))
  | (out, Raise e) => (c, (out, Raise e))
  end.

(** [ColorSolid.rgb2hsi] on fields that may be [None]. *)
Definition rgb2hsi_fields (red green blue : option R) : M (R * R * R) :=
  r <- need red ;; g <- need green ;; b <- need blue ;; rgb2hsi r g b.

Definition hsi2rgb_fields (hue saturation intensity : option R)
  : M (R * R * R) :=
  h <- need hue ;; s <- need saturation ;; i <- need intensity ;;
  hsi2rgb h s i.

Definition hsi2rgbw_fields (hue saturation intensity : option R)
  : M (R * R * R * R) :=
  h <- need hue ;; s <- need saturation ;; i <- need intensity ;;
  hsi2rgbw h s i.

(** The tail shared by the [red], [green] and [blue] setters. *)
Definition resync_from_rgb (c : ColorSolid) : ColorSolid * M unit :=
  if _enableWhite c then
    let c := with_inputType rgbw c in
    assign_hsi c (rgbw2hsi (red c) (green c) (blue c) (white c))
  else
    let c := with_inputType rgb c in
    assign_hsi c (rgb2hsi_fields (red c) (green c) (blue c)).

(** The tail shared by the [hue], [saturation] and [intensity] setters. *)
Definition resync_from_hsi (c : ColorSolid) : ColorSolid * M unit :=
  let c := with_inputType hsi c in
  if _enableWhite c then
    assign_rgbw c (hsi2rgbw_fields (hue c) (saturation c) (intensity c))
  else
    assign_rgb c (hsi2rgb_fields (hue c) (saturation c) (intensity c)).

Definition set_red (valIn : option R) (c : ColorSolid) :=
  resync_from_rgb
    (mkColorSolid valIn (_green c) (_blue c) (_white c)
       (_hue c) (_saturation c) (_intensity c)
       (_enableWhite c) (_inputType c)).

Definition set_green (valIn : option R) (c : ColorSolid) :=
  resync_from_rgb
    (mkColorSolid (_red c) valIn (_blue c) (_white c)
       (_hue c) (_saturation c) (_intensity c)
       (_enableWhite c) (_inputType c)).

Definition set_blue (valIn : option R) (c : ColorSolid) :=
  resync_from_rgb
    (mkColorSolid (_red c) (_green c) valIn (_white c)
       (_hue c) (_saturation c) (_intensity c)
       (_enableWhite c) (_inputType c)).

Definition set_white (valIn : option R) (c : ColorSolid)
  : ColorSolid * M unit :=
  if negb (_enableWhite c) && is_some valIn then
    (c, print "Unable to configure white color; enable the white LED first (via obj.enableWhite)")
  else
    let c := mkColorSolid (_red c) (_green c) (_blue c) valIn
               (_hue c) (_saturation c) (_intensity c)
               (_enableWhite c) (_inputType c) in
    let c := with_inputType rgbw c in
    assign_hsi c (rgbw2hsi (red c) (green c) (blue c) (white c)).

Definition set_hue (valIn : option R) (c : ColorSolid) :=
  resync_from_hsi
    (mkColorSolid (_red c) (_green c) (_blue c) (_white c)
       valIn (_saturation c) (_intensity c)
       (_enableWhite c) (_inputType c)).

Definition set_saturation (valIn : option R) (c : ColorSolid) :=
  resync_from_hsi
    (mkColorSolid (_red c) (_green c) (_blue c) (_white c)
       (_hue c) valIn (_intensity c)
       (_enableWhite c) (_inputType c)).

Definition set_intensity (valIn : option R) (c : ColorSolid) :=
  resync_from_hsi
    (mkColorSolid (_red c) (_green c) (_blue c) (_white c)
       (_hue c) (_saturation c) valIn
       (_enableWhite c) (_inputType c)).

Definition set_enableWhite (valIn : bool) (c : ColorSolid)
  : ColorSolid * M unit :=
  (mkColorSolid (_red c) (_green c) (_blue c) (_white c)
     (_hue c) (_saturation c) (_intensity c) valIn (_inputType c),
   ret tt).

(** *** Decoding a descriptor string

    The argument is a [str]: the test [type(strIn) != str] is false. *)
Definition parse (strIn : string) : M (option ColorSolid) :=
  if (String.length strIn <=? 1)%nat then
    raise (Exception "Invalid input, needs to be an input string")
  else if lower_startswith strIn "c" then
    if negb ((String.length strIn =? 6 + 1)%nat
             || (String.length strIn =? 8 + 1)%nat) then
      print "Invalid input length, rgb[w] must be 6 or 8 characters" ;;;
      ret None
    else
      l <- splitStr 2 strIn ;;
      match l with
      | [r; g; b] =>
          c <- ColorSolid_init (Some (IZR r)) (Some (IZR g)) (Some (IZR b))
                 None default_hue default_saturation default_intensity
                 false ;;
          ret (Some c)
      | [r; g; b; w] =>
          c <- ColorSolid_init (Some (IZR r)) (Some (IZR g)) (Some (IZR b))
                 (Some (IZR w)) default_hue default_saturation
                 default_intensity default_enableWhite ;;
          ret (Some c)
      | _ => ret None
      end
  else if lower_startswith strIn "h" && lower_endswith strIn "w" then
    if negb (String.length strIn =? 10 + 1)%nat then
      print "Invalid input length, hsi[w] must be 9 characters" ;;;
      ret None
    else
      let strIn := substring 0 (String.length strIn - 1) strIn in
      l <- splitStr 3 strIn ;;
      h <- index l 0 ;;
      s <- index l 1 ;;
      i <- index l 2 ;;
      c <- ColorSolid_init None None None None
             (Some (IZR h)) (Some (IZR s / 255)) (Some (IZR i / 255)) true ;;
      ret (Some c)
  else if lower_startswith strIn "h" && negb (lower_endswith strIn "w") then
    if negb (String.length strIn =? 9 + 1)%nat then
      print "Invalid input length, hsi must be 9 characters" ;;;
      ret None
    else
      l <- splitStr 3 strIn ;;
      h <- index l 0 ;;
      s <- index l 1 ;;
      i <- index l 2 ;;
      c <- ColorSolid_init None None None None
             (Some (IZR h)) (Some (IZR s / 255)) (Some (IZR i / 255)) false ;;
      ret (Some c)
  else
    print ("Unable to parse input string " ++ strIn) ;;;
    ret None.

(** ** Gradients *)

(** What a caller passes as [nodes]: [None], one colour, or a sequence. *)
Inductive nodes : Type :=
| NoNodes
| OneNode (c : ColorSolid)
| NodeList (l : list ColorSolid).

(** [zip(l, l[1:])]. *)
Fixpoint pairs {A} (l : list A) : list (A * A) :=
  match l with
  | a :: (b :: _) as l' => (a, b) :: pairs l'
  | _ => []
  end.

(** [range(1, n + 1)] and [range(n)] for an integer [n]. *)
Definition range_from_1 (n : Z) : list Z :=
  map Z.of_nat (seq 1 (Z.to_nat n)).
Definition range_from_0 (n : Z) : list Z :=
  map Z.of_nat (seq 0 (Z.to_nat n)).

(** The tail shared by both interpolations:
    [lastColor = nodes[-1].copy(); lastColor._inputType = t]. *)
Definition last_node (t : inputType) (l : list ColorSolid) : M ColorSolid :=
  match last (map Some l) None with
  | None => raise IndexError
  | Some c =>
      c' <- copy None c ;;
      match c' with
      | None => raise AttributeError
      | Some lastColor => ret (with_inputType t lastColor)
      end
  end.

Definition linearInterpHsi (nds : nodes) (steps : Z) : M nodes :=
  match nds with
  | NoNodes => ret NoNodes
  | OneNode _ => ret nds
  | NodeList l =>
      if (steps =? 0)%Z then ret nds
      else
        let whiteEnabled := existsb enableWhite l in
        let steps := (steps + 1)%Z in
        blocks <-
          mapM (fun '(curColor, nextColor) =>
            mapM (fun idx =>
              curPos <- py_div (IZR idx - 1) (IZR steps) ;;
              h0 <- need (hue curColor) ;;
              h1 <- need (hue nextColor) ;;
              newTheta <- lerp curPos 0 1 h0 h1 ;;
              s0 <- need (saturation curColor) ;;
              s1 <- need (saturation nextColor) ;;
              newSat <- lerp curPos 0 1 s0 s1 ;;
              i0 <- need (intensity curColor) ;;
              i1 <- need (intensity nextColor) ;;
              newRho <- lerp curPos 0 1 i0 i1 ;;
              ColorSolid_init None None None None
                (Some newTheta) (Some newSat) (Some newRho) whiteEnabled)
              (range_from_1 steps))
            (pairs l) ;;
        lastColor <- last_node hsi l ;;
        ret (NodeList (List.concat blocks ++ [lastColor])%list)
  end.

(** [round(lerp(curPos, 0.0, 1.0, y0, y1))] on fields that may be [None]. *)
Definition lerp_round (curPos : R) (y0 y1 : option R) : M R :=
  a <- need y0 ;; b <- need y1 ;;
  v <- lerp curPos 0 1 a b ;;
  ret (IZR (py_round v)).

Definition linearInterpRgbw (nds : nodes) (steps : Z) : M nodes :=
  match nds with
  | NoNodes => ret NoNodes
  | OneNode _ => ret nds
  | NodeList l =>
      if (steps =? 0)%Z then ret nds
      else
        let whiteEnabled := existsb enableWhite l in
        blocks <-
          mapM (fun '(curColor, nextColor) =>
            inner <-
              mapM (fun idx =>
                curPos <- py_div (IZR idx + 1) (IZR steps + 1) ;;
                intermediateColorR <-
                  lerp_round curPos (red curColor) (red nextColor) ;;
                intermediateColorG <-
                  lerp_round curPos (green curColor) (green nextColor) ;;
                intermediateColorB <-
                  lerp_round curPos (blue curColor) (blue nextColor) ;;
                intermediateColorW <-
                  match white curColor, white nextColor with
                  | None, Some w1 =>
                      v <- lerp_round curPos (Some 0) (Some w1) ;;
                      ret (Some v)
                  | Some w0, None =>
                      v <- lerp_round curPos (Some w0) (Some 0) ;;
                      ret (Some v)
                  | Some w0, Some w1 =>
                      v <- lerp_round curPos (Some w0) (Some w1) ;;
                      ret (Some v)
                  | None, None => ret None
                  end ;;
                ColorSolid_init (Some intermediateColorR)
                  (Some intermediateColorG) (Some intermediateColorB)
                  intermediateColorW
                  default_hue default_saturation default_intensity
                  whiteEnabled)
                (range_from_0 steps) ;;
            ret (curColor :: inner))
            (pairs l) ;;
        lastColor <- last_node rgbw l ;;
        ret (NodeList (List.concat blocks ++ [lastColor])%list)
  end.

(** ** ColorGradient *)

(** The interpolation methods [generate] knows; with any other value of
    [interpMode] it returns [None]. *)
Inductive interpMode : Type := interp_hsi | interp_rgbw | interp_other.

Record ColorGradient : Type := mkColorGradient {
  _nodes : nodes;
  _steps : Z;
  _interpMode : interpMode;
  gradient : nodes
}.

Definition generate (mode : interpMode) (nds : nodes) (steps : Z)
  : M nodes :=
  match mode with
  | interp_hsi => linearInterpHsi nds steps
  | interp_rgbw => linearInterpRgbw nds steps
  | interp_other => ret NoNodes
  end.

(** [ColorGradient.__init__]: the [nodes] setter accepts [None], a
    colour, or a sequence of colours, which is all [nodes] can hold, and
    generates the gradient at once. *)
Definition ColorGradient_init (nds : nodes) (steps : Z) (mode : interpMode)
  : M ColorGradient :=
  g <- generate mode nds steps ;;
  ret (mkColorGradient nds steps mode g).

(** ** Definitions used to state the properties *)

(** The radicand of the hue formula. *)
Definition radicand (r g b : R) : R :=
  (r - g) * (r - g) + (r - b) * (g - b).

(** A channel value. *)
Definition channel (x : R) : Prop := 0 <= x <= 255.

(** [None] is read as 0 by [rgbw2hsi], so it counts as a channel. *)
Definition opt_channel (x : option R) : Prop :=
  match x with
  | Some v => channel v
  | None => True
  end.

(** [hsi2rgb] applied to the three results of [rgb2hsi]. *)
Definition rgb_round_trip (red green blue : R) : M (R * R * R) :=
  '(h, s, i) <- rgb2hsi red green blue ;; hsi2rgb h s i.

(** The property of section 8, in the words of the specification: the
    round trip returns channels within 1 of the ones put in. *)
Definition round_trip_within_1 (red green blue : R) : Prop :=
  exists r g b,
    rgb_round_trip red green blue = ret (r, g, b)
    /\ Rabs (r - red) <= 1 /\ Rabs (g - green) <= 1
    /\ Rabs (b - blue) <= 1.

(** The hue as section 4.2 of the specification words it, on channels
    already divided by 255: the arccosine of a quotient. *)
Definition spec_hue (r g b : R) : R :=
  let hue :=
    acos (((r - g) + (r - b))
          / (2 * sqrt ((r - g) ^ 2 + (r - b) * (g - b)))) in
  let hue := hue * 180 / PI in
  let hue := if Rgt_dec b g then 360 - hue else hue in
  if Req_dec_T (Rmin r (Rmin g b)) (Rmax r (Rmax g b)) then 0 else hue.

(** The colour [ColorSolid()] of the default hue, saturation and
    intensity, white enabled. *)
Definition default_colour : ColorSolid :=
  mkColorSolid (Some 255) (Some 0) (Some 0) (Some 0)
    (Some 0) (Some 1) (Some 1) true (Some hsi).

(** The colour [ColorSolid(255, 0, 0, enableWhite=False)]. *)
Definition pure_red : ColorSolid :=
  mkColorSolid (Some 255) (Some 0) (Some 0) None
    (Some 0) (Some 1) (Some 1) false (Some rgb).

(** The states an object can be in: built by the constructor, left
    behind by a setter (also one that raised), or returned by [copy]. *)
Inductive reachable : ColorSolid -> Prop :=
| reach_init red green blue white hue saturation intensity ew out c :
    ColorSolid_init red green blue white hue saturation intensity ew
    = (out, Ok c) ->
    reachable c
| reach_red v c : reachable c -> reachable (fst (set_red v c))
| reach_green v c : reachable c -> reachable (fst (set_green v c))
| reach_blue v c : reachable c -> reachable (fst (set_blue v c))
| reach_white v c : reachable c -> reachable (fst (set_white v c))
| reach_hue v c : reachable c -> reachable (fst (set_hue v c))
| reach_saturation v c :
    reachable c -> reachable (fst (set_saturation v c))
| reach_intensity v c : reachable c -> reachable (fst (set_intensity v c))
| reach_enableWhite v c :
    reachable c -> reachable (fst (set_enableWhite v c))
| reach_copy forceMode c out c' :
    reachable c -> copy forceMode c = (out, Ok (Some c')) -> reachable c'.

(** [n] is written as two characters that [int] reads back as [n]. *)
Definition hex2_round_trips (n : Z) : bool :=
  match format_hex 2 n with
  | String a (String b EmptyString) =>
      match int16 (String a (String b EmptyString)) with
      | Some m => (m =? n)%Z
      | None => false
      end
  | _ => false
  end.

(** The values of a list when none is missing. *)
Fixpoint all_some {A} (l : list (option A)) : option (list A) :=
  match l with
  | [] => Some []
  | Some a :: l' => option_map (cons a) (all_some l')
  | None :: _ => None
  end.

(** The prefix and the length that let [parse] go on to the fields. *)
Definition well_framed (s : string) : bool :=
  let n := String.length s in
  if lower_startswith s "c" then ((n =? 7) || (n =? 9))%nat
  else if lower_startswith s "h" then
    if lower_endswith s "w" then (n =? 11)%nat else (n =? 10)%nat
  else false.

(** The substrings [parse] hands to [int]. *)
Definition descriptor_fields (s : string) : list string :=
  if lower_startswith s "c" then fields 2 s
  else if lower_endswith s "w"
       then fields 3 (substring 0 (String.length s - 1) s)
       else fields 3 s.

(** What [parse] builds from the values of the fields. *)
Definition build (s : string) (l : list Z) : M (option ColorSolid) :=
  if lower_startswith s "c" then
    match l with
    | [r; g; b] =>
        c <- ColorSolid_init (Some (IZR r)) (Some (IZR g)) (Some (IZR b))
               None default_hue default_saturation default_intensity
               false ;;
        ret (Some c)
    | [r; g; b; w] =>
        c <- ColorSolid_init (Some (IZR r)) (Some (IZR g)) (Some (IZR b))
               (Some (IZR w)) default_hue default_saturation
               default_intensity default_enableWhite ;;
        ret (Some c)
    | _ => ret None
    end
  else
    h <- index l 0 ;;
    s' <- index l 1 ;;
    i <- index l 2 ;;
    c <- ColorSolid_init None None None None
           (Some (IZR h)) (Some (IZR s' / 255)) (Some (IZR i / 255))
           (lower_endswith s "w") ;;
    ret (Some c).

(** A field that holds a number whose rounding fits two hex digits. *)
Definition is_byte (x : option R) : Prop :=
  exists v, x = Some v /\ (0 <= py_round v <= 255)%Z.

(** The encodings of what an interpolation returned. *)
Definition encodings (n : nodes) : M (list (option string)) :=
  match n with
  | NoNodes => ret []
  | OneNode c => x <- toString None c ;; ret [x]
  | NodeList l => mapM (toString None) l
  end.

(** The encodings of the gradient between two decoded descriptors:
    [[x.toString() for x in
      linearInterpRgbw([parse(s1), parse(s2)], steps)]]. *)
Definition rgbw_gradient_of (s1 s2 : string) (steps : Z)
  : M (list (option string)) :=
  a <- parse s1 ;;
  b <- parse s2 ;;
  match a, b with
  | Some a, Some b =>
      g <- linearInterpRgbw (NodeList [a; b]) steps ;; encodings g
  | _, _ => raise AttributeError
  end.

(** [n] is written as three characters, the last of them not a [w],
    that [int] reads back as [n]. *)
Definition hex3_round_trips (n : Z) : bool :=
  match format_hex 3 n with
  | String a (String b (String c EmptyString)) =>
      match int16 (String a (String b (String c EmptyString))) with
      | Some m => (m =? n)%Z && negb (Ascii.eqb (lower_ascii c) "w")
      | None => false
      end
  | _ => false
  end.

(** A saturation or an intensity whose 255-fold rounds into three hex
    digits. *)
Definition is_level (x : option R) : Prop :=
  exists v, x = Some v /\ (0 <= py_round (v * 255) <= 4095)%Z.

(** A field that holds a channel value. *)
Definition is_channel (x : option R) : Prop :=
  exists v, x = Some v /\ channel v.

(** A colour whose RGB[W] side holds channel values. *)
Definition channels_in_range (c : ColorSolid) : Prop :=
  is_channel (red c) /\ is_channel (green c) /\ is_channel (blue c)
  /\ opt_channel (white c).

(** A colour both of whose sides are filled in: channels in 0..255,
    hue, saturation and intensity numbers, a representation set. *)
Definition well_formed (c : ColorSolid) : Prop :=
  channels_in_range c
  /\ (exists h s i,
         hue c = Some h /\ saturation c = Some s /\ intensity c = Some i)
  /\ _inputType c <> None.

(** ** The text form of gradients *)

(** [s.replace(c, '')] for a one-character [c]: [c] is left out. *)
Fixpoint remove_char (c : ascii) (s : string) : string :=
  match s with
  | EmptyString => EmptyString
  | String a s' =>
      if Ascii.eqb a c then remove_char c s'
      else String a (remove_char c s')
  end.

(** [s.split(sep, 1)]: the text before the first [sep] and, when there
    is one, the text after it. *)
Fixpoint split_once (sep : ascii) (s : string) : string * option string :=
  match s with
  | EmptyString => (EmptyString, None)
  | String a s' =>
      if Ascii.eqb a sep then (EmptyString, Some s')
      else let (p, r) := split_once sep s' in (String a p, r)
  end.

(** [s.split(sep)]: the pieces between the occurrences of [sep]. *)
Fixpoint split_on (sep : ascii) (s : string) : list string :=
  match s with
  | EmptyString => [EmptyString]
  | String a s' =>
      if Ascii.eqb a sep then EmptyString :: split_on sep s'
      else
        match split_on sep s' with
        | p :: ps => String a p :: ps
        | [] => [String a EmptyString]
        end
  end.

(** [str(n)] for an integer. *)
Definition py_str (n : Z) : string :=
  match n with
  | Z0 => "0"
  | Zpos p => DecimalString.NilEmpty.string_of_uint (Pos.to_uint p)
  | Zneg p =>
      String "-" (DecimalString.NilEmpty.string_of_uint (Pos.to_uint p))
  end.

Definition dec_digit (c : ascii) : option Z :=
  let n := nat_of_ascii c in
  if ((48 <=? n) && (n <=? 57))%nat then Some (Z.of_nat (n - 48)) else None.

(** Digits in base 10, single underscores allowed between two digits. *)
Fixpoint dec_body (acc : Z) (prev_underscore : bool) (l : list ascii)
  : option Z :=
  match l with
  | [] => if prev_underscore then None else Some acc
  | c :: l' =>
      if Ascii.eqb c "_" then
        if prev_underscore then None else dec_body acc true l'
      else
        match dec_digit c with
        | Some d => dec_body (10 * acc + d) false l'
        | None => None
        end
  end.

Definition dec_number (l : list ascii) : option Z :=
  match l with
  | [] => None
  | c :: _ => if Ascii.eqb c "_" then None else dec_body 0 false l
  end.

(** [int(s)] on an ASCII string: surrounding white space, an optional
    sign, then the digits.  [None] stands for the [ValueError] of an
    invalid literal. *)
Definition int10 (s : string) : option Z :=
  match strip (list_ascii_of_string s) with
  | "+"%char :: l => dec_number l
  | "-"%char :: l => option_map Z.opp (dec_number l)
  | l => dec_number l
  end.

Definition py_int10 (s : string) : M Z :=
  match int10 s with
  | Some n => ret n
  | None => raise ValueError
  end.

(** A [ColorGradient] object: as [__init__] leaves it when the [nodes]
    setter accepted its argument, or with [_nodes] at [None] and no
    [gradient] attribute when the setter rejected it. *)
Inductive gradient_object : Type :=
| Configured (g : ColorGradient)
| Unconfigured (steps : Z) (mode : interpMode).

Definition nodes_of (o : gradient_object) : nodes :=
  match o with
  | Configured g => _nodes g
  | Unconfigured _ _ => NoNodes
  end.

Definition steps_of (o : gradient_object) : Z :=
  match o with
  | Configured g => _steps g
  | Unconfigured steps _ => steps
  end.

(** [ColorGradient(valIn, steps, mode)] for a list [valIn] whose items
    are colours or not: the [nodes] setter wants every item a colour. *)
Definition ColorGradient_of_list (valIn : list (option ColorSolid))
    (steps : Z) (mode : interpMode) : M gradient_object :=
  match all_some valIn with
  | Some l =>
      g <- generate mode (NodeList l) steps ;;
      ret (Configured (mkColorGradient (NodeList l) steps mode g))
  | None =>
      print "Invalid nodes input, needs to be of class ColorSolid" ;;;
      ret (Unconfigured steps mode)
  end.

(** [ColorGradient.toString]. *)
Definition ColorGradient_toString (o : gradient_object) : M string :=
  match nodes_of o with
  | NoNodes => ret EmptyString
  | OneNode _ => raise TypeError
  | NodeList l =>
      strs <- mapM (toString None) l ;;
      match all_some strs with
      | Some ss =>
          ret (String.concat "," ss ++ ";" ++ py_str (steps_of o))%string
      | None => raise TypeError
      end
  end.

(** [ColorGradient.__eq__] between two gradients. *)
Definition ColorGradient_eq (a b : gradient_object) : M bool :=
  x <- ColorGradient_toString a ;;
  y <- ColorGradient_toString b ;;
  ret (String.eqb x y).

(** [ColorGradient.parse]. *)
Definition ColorGradient_parse (strIn : string) : M gradient_object :=
  match split_once ";" (remove_char ")" (remove_char "(" strIn)) with
  | (strColors, Some strSteps) =>
      colors <- mapM parse (split_on "," strColors) ;;
      steps <- py_int10 strSteps ;;
      ColorGradient_of_list colors steps interp_hsi
  | (_, None) => raise ValueError
  end.

(** [c in s]. *)
Fixpoint has_char (c : ascii) (s : string) : bool :=
  match s with
  | EmptyString => false
  | String a s' => Ascii.eqb a c || has_char c s'
  end.

(** A token free of the characters the gradient grammar uses. *)
Definition plain (s : string) : bool :=
  negb (has_char "," s || has_char ";" s || has_char "(" s
        || has_char ")" s).

(** The characters of a printed number: digits. *)
Definition is_digit (c : ascii) : bool := is_some (dec_digit c).

(** A colour that [toString] can write and [parse] read back: channels
    that round into two hex digits in the RGB[W] forms, a hue and
    levels that round into three in the HSI form. *)
Definition encodable (c : ColorSolid) : Prop :=
  match _inputType c with
  | Some rgb => is_byte (red c) /\ is_byte (green c) /\ is_byte (blue c)
  | Some rgbw =>
      is_byte (red c) /\ is_byte (green c) /\ is_byte (blue c)
      /\ (forall w, white c = Some w -> (0 <= py_round w <= 255)%Z)
  | Some hsi =>
      (exists h, hue c = Some h)
      /\ is_level (saturation c) /\ is_level (intensity c)
  | None => False
  end.

(** * Properties *)

(** ** The monad and the arithmetic helpers *)

Lemma bind_ret {A B} (a : A) (f : A -> M B) : bind (ret a) f = f a.
Proof. unfold bind, ret. destruct (f a); reflexivity. Qed.

Lemma bind_raise {A B} (e : exn) (f : A -> M B) : bind (raise e) f = raise e.
Proof. reflexivity. Qed.

Lemma py_div_ok (x y : R) : y <> 0 -> py_div x y = ret (x / y).
Proof. intros H. unfold py_div. destruct (Req_dec_T y 0); [contradiction | reflexivity]. Qed.

Lemma py_div_zero (x : R) : py_div x 0 = raise ZeroDivisionError.
Proof. unfold py_div. destruct (Req_dec_T 0 0); [reflexivity | contradiction]. Qed.

Lemma py_sqrt_ok (x : R) : 0 <= x -> py_sqrt x = ret (sqrt x).
Proof. intros H. unfold py_sqrt. destruct (Rle_dec 0 x); [reflexivity | contradiction]. Qed.

Lemma py_acos_ok (x : R) : -1 <= x <= 1 -> py_acos x = ret (acos x).
Proof.
  intros [H1 H2]. unfold py_acos.
  destruct (Rle_dec (-1) x); [| contradiction].
  destruct (Rle_dec x 1); [reflexivity | contradiction].
Qed.

Lemma is0_true (x : R) : x = 0 -> is0 x = true.
Proof. intros H. unfold is0. destruct (Req_dec_T x 0); [reflexivity | contradiction]. Qed.

Lemma is0_false (x : R) : x <> 0 -> is0 x = false.
Proof. intros H. unfold is0. destruct (Req_dec_T x 0); [contradiction | reflexivity]. Qed.

Lemma clamp_inside (x hi : R) : 0 < x < hi -> clamp x hi = x.
Proof.
  intros [H1 H2]. unfold clamp.
  destruct (Rgt_dec x 0); [| lra]. destruct (Rlt_dec x hi); [reflexivity | lra].
Qed.

Lemma clamp_low (x hi : R) : x <= 0 -> clamp x hi = 0.
Proof. intros H. unfold clamp. destruct (Rgt_dec x 0); [lra | reflexivity]. Qed.

Lemma clamp_high (x hi : R) : 0 < hi <= x -> clamp x hi = hi.
Proof.
  intros [H1 H2]. unfold clamp.
  destruct (Rgt_dec x 0); [| lra]. destruct (Rlt_dec x hi); [lra | reflexivity].
Qed.

Lemma clamp_bounds (x hi : R) : 0 <= hi -> 0 <= clamp x hi <= hi.
Proof.
  intros H. unfold clamp.
  destruct (Rgt_dec x 0); [destruct (Rlt_dec x hi) |]; lra.
Qed.

Lemma py_mod_small (x m : R) : 0 <= x < m -> py_mod x m = x.
Proof.
  intros [H1 H2]. unfold py_mod.
  assert (Hm : 0 < m) by lra.
  rewrite (Zfloor_eq 0 (x / m)).
  - simpl. ring.
  - simpl. split.
    + apply Rmult_le_pos; [lra |]. left. apply Rinv_0_lt_compat. exact Hm.
    + apply Rmult_lt_reg_r with m; [exact Hm |]. field_simplify; lra.
Qed.

Lemma py_mod_bounds (x m : R) : 0 < m -> 0 <= py_mod x m < m.
Proof.
  intros Hm. unfold py_mod.
  destruct (Zfloor_bound (x / m)) as [H1 H2].
  assert (Hx : x = m * (x / m)) by (field; lra).
  set (k := IZR (Zfloor (x / m))) in *.
  split.
  - apply Rmult_le_compat_l with (r := m) in H1; lra.
  - apply Rmult_lt_compat_l with (r := m) in H2; lra.
Qed.

Lemma py_round_IZR (n : Z) : py_round (IZR n) = n.
Proof.
  unfold py_round. rewrite ZfloorZ.
  destruct (Rlt_dec (IZR n - IZR n) (1 / 2)); [reflexivity | lra].
Qed.

Lemma py_round_half_odd (n : Z) :
  Z.even n = false -> py_round (IZR n + 1 / 2) = (n + 1)%Z.
Proof.
  intros Hn. unfold py_round.
  rewrite (Zfloor_eq n) by lra.
  destruct (Rlt_dec (IZR n + 1 / 2 - IZR n) (1 / 2)); [lra |].
  destruct (Rlt_dec (1 / 2) (IZR n + 1 / 2 - IZR n)); [lra |].
  rewrite Hn. reflexivity.
Qed.

(** ** Linear interpolation *)

Lemma lerp_unit (x y0 y1 : R) :
  lerp x 0 1 y0 y1
  = ret (y0 + (y1 - y0) * ((Rmax 0 (Rmin x 1) - 0) / (1 - 0))).
Proof.
  unfold lerp. rewrite py_div_ok by lra. rewrite bind_ret.
  do 3 f_equal.
  destruct (Rgt_dec x 1) as [H | H].
  - destruct (Rlt_dec 1 0); [lra |].
    rewrite Rmin_right by lra. rewrite Rmax_right by lra. reflexivity.
  - rewrite Rmin_left by lra.
    destruct (Rlt_dec x 0).
    + rewrite Rmax_left by lra. reflexivity.
    + rewrite Rmax_right by lra. reflexivity.
Qed.

(** Inside [0, 1] the position is used as it is. *)
Lemma lerp_unit_inside (x y0 y1 : R) :
  0 <= x <= 1 -> lerp x 0 1 y0 y1 = ret (y0 + (y1 - y0) * x).
Proof.
  intros [H0 H1]. rewrite lerp_unit.
  rewrite Rmin_left by lra. rewrite Rmax_right by lra.
  do 2 f_equal. field.
Qed.

(** C10. [lerp] divides by [x1 - x0] unguarded: with [x0 = x1] it raises
    [ZeroDivisionError] whatever the other arguments are; with [x0 = 0.0]
    and [x1 = 1.0], the arguments of every call in the two gradient
    functions, it always returns, and the value is
    [y0 + (y1 - y0) * (x - x0) / (x1 - x0)] for [x] clamped into [0, 1]. *)
Theorem lerp_division :
  (forall x x0 y0 y1, lerp x x0 x0 y0 y1 = raise ZeroDivisionError)
  /\ (forall x y0 y1,
        lerp x 0 1 y0 y1
        = ret (y0 + (y1 - y0) * ((Rmax 0 (Rmin x 1) - 0) / (1 - 0)))).
Proof.
  split.
  - intros x x0 y0 y1. unfold lerp.
    replace (x0 - x0) with 0 by ring. rewrite py_div_zero. reflexivity.
  - exact lerp_unit.
Qed.

(** ** Conversions: when they return *)

Section Unit_cube.

Variables r g b : R.
Hypothesis Hr : 0 <= r <= 1.
Hypothesis Hg : 0 <= g <= 1.
Hypothesis Hb : 0 <= b <= 1.

Lemma radicand_nonneg : 0 <= radicand r g b.
Proof.
  unfold radicand.
  assert (H : (r - g) * (r - g) + (r - b) * (g - b)
              = ((r - g) ^ 2 + (g - b) ^ 2 + (r - b) ^ 2) / 2) by field.
  rewrite H.
  pose proof (pow2_ge_0 (r - g)). pose proof (pow2_ge_0 (g - b)).
  pose proof (pow2_ge_0 (r - b)). lra.
Qed.

Lemma radicand_le_1 : radicand r g b <= 1.
Proof.
  unfold radicand.
  assert (H1 : 0 <= (1 - r) * (1 - g) * (1 - b)).
  { apply Rmult_le_pos; [apply Rmult_le_pos |]; lra. }
  assert (H2 : 0 <= r * g * b).
  { apply Rmult_le_pos; [apply Rmult_le_pos |]; lra. }
  assert (H3 : r * r <= r) by nra.
  assert (H4 : g * g <= g) by nra.
  assert (H5 : b * b <= b) by nra.
  nra.
Qed.

Lemma acos_argument_bounds :
  -1 <= (r - g + r - b) / 2 * sqrt (radicand r g b) <= 1.
Proof.
  pose proof radicand_nonneg as H0. pose proof radicand_le_1 as H1.
  assert (Hs0 : 0 <= sqrt (radicand r g b)) by apply sqrt_pos.
  assert (Hs1 : sqrt (radicand r g b) <= 1).
  { rewrite <- sqrt_1. apply sqrt_le_1; lra. }
  assert (Hx : -1 <= (r - g + r - b) / 2 <= 1) by lra.
  nra.
Qed.

End Unit_cube.

Ltac mret := rewrite bind_ret; cbv beta iota.

Lemma rgb2hsi_returns (red green blue : R) :
  0 <= red <= 255 -> 0 <= green <= 255 -> 0 <= blue <= 255 ->
  exists h s, rgb2hsi red green blue = ret (h, s, (red + green + blue) / 255).
Proof.
  intros Hr Hg Hb. unfold rgb2hsi. cbv zeta.
  assert (Hr' : 0 <= red / 255 <= 1) by lra.
  assert (Hg' : 0 <= green / 255 <= 1) by lra.
  assert (Hb' : 0 <= blue / 255 <= 1) by lra.
  rewrite py_sqrt_ok by (apply radicand_nonneg).
  replace (red / 255 + green / 255 + blue / 255)
    with ((red + green + blue) / 255) by field.
  destruct (Req_dec_T ((red + green + blue) / 255 / 3) 0) as [Hi | Hi].
  - mret. mret.
    rewrite py_acos_ok by (apply acos_argument_bounds; assumption).
    mret. eexists. eexists. reflexivity.
  - rewrite py_div_ok by exact Hi. mret. mret. mret.
    rewrite py_acos_ok by (apply acos_argument_bounds; assumption).
    mret. eexists. eexists. reflexivity.
Qed.

Lemma cos_sector (x : R) : 0 <= x < 2 / 3 * PI -> cos (PI / 3 - x) <> 0.
Proof.
  intros [H0 H1]. pose proof PI_RGT_0 as HPI.
  apply Rgt_not_eq. apply cos_gt_0; lra.
Qed.

Lemma radians_bounds (h : R) : 0 <= PI * py_mod h 360 / 180 < 2 * PI.
Proof.
  pose proof PI_RGT_0 as HPI.
  destruct (py_mod_bounds h 360) as [H0 H1]; [lra |].
  split.
  - apply Rmult_le_pos; [apply Rmult_le_pos |]; lra.
  - apply Rmult_lt_reg_r with (180 / PI).
    + apply Rdiv_lt_0_compat; lra.
    + field_simplify; lra.
Qed.

Lemma hsi2rgb_returns (h s i : R) :
  exists r g b, hsi2rgb h s i = ret (r, g, b).
Proof.
  unfold hsi2rgb. cbv zeta.
  destruct (radians_bounds h) as [H0 H1].
  set (a := PI * py_mod h 360 / 180) in *.
  destruct (Rlt_dec a (2 / 3 * PI)) as [H2 | H2].
  - rewrite !py_div_ok by (apply cos_sector; lra).
    mret. mret. mret. do 3 eexists. reflexivity.
  - destruct (Rlt_dec a (4 / 3 * PI)) as [H3 | H3].
    + rewrite !py_div_ok by (apply cos_sector; lra).
      mret. mret. mret. do 3 eexists. reflexivity.
    + rewrite !py_div_ok by (apply cos_sector; lra).
      mret. mret. mret. do 3 eexists. reflexivity.
Qed.

Lemma hsi2rgbw_returns (h s i : R) :
  exists r g b w, hsi2rgbw h s i = ret (r, g, b, w).
Proof.
  unfold hsi2rgbw. cbv zeta.
  destruct (radians_bounds h) as [H0 H1].
  set (a := PI * py_mod h 360 / 180) in *.
  destruct (Rlt_dec a (2 / 3 * PI)) as [H2 | H2].
  - rewrite !py_div_ok by (apply cos_sector; lra).
    mret. mret. do 4 eexists. reflexivity.
  - destruct (Rlt_dec a (4 / 3 * PI)) as [H3 | H3].
    + rewrite !py_div_ok by (apply cos_sector; lra).
      mret. mret. do 4 eexists. reflexivity.
    + rewrite !py_div_ok by (apply cos_sector; lra).
      mret. mret. do 4 eexists. reflexivity.
Qed.

Lemma or0_channel (x : option R) : opt_channel x -> channel (or0 x).
Proof. destruct x; simpl; unfold channel; intros; lra. Qed.

Lemma quadratic_form_nonneg (x y : R) : 0 <= x ^ 2 - x * y + y ^ 2.
Proof.
  assert (H : x ^ 2 - x * y + y ^ 2 = (x - y / 2) ^ 2 + 3 / 4 * y ^ 2) by field.
  rewrite H. pose proof (pow2_ge_0 (x - y / 2)). pose proof (pow2_ge_0 y). lra.
Qed.

Lemma sqrt3_times_nonzero (x : R) : x <> 0 -> sqrt 3 * x <> 0.
Proof.
  intros H. apply Rmult_integral_contrapositive_currified; [| exact H].
  apply Rgt_not_eq. apply sqrt_lt_R0. lra.
Qed.

Lemma rgbw2hsi_returns (red green blue white : option R) :
  opt_channel red -> opt_channel green -> opt_channel blue ->
  opt_channel white ->
  exists h s i, rgbw2hsi red green blue white = ret (h, s, i).
Proof.
  intros Hr Hg Hb Hw.
  apply or0_channel in Hr, Hg, Hb, Hw. unfold channel in *.
  unfold rgbw2hsi. cbv zeta.
  set (r := or0 red) in *. set (g := or0 green) in *.
  set (b := or0 blue) in *. set (w := or0 white) in *.
  unfold is0 at 1. destruct (Req_dec_T w 0) as [Hw0 | Hw0].
  { destruct (rgb2hsi_returns r g b) as (h & s & H); try assumption.
    eauto. }
  rewrite py_div_ok by lra. mret.
  unfold is0.
  destruct (Req_dec_T r 0) as [Hr0 | Hr0];
    destruct (Req_dec_T g 0) as [Hg0 | Hg0];
    destruct (Req_dec_T b 0) as [Hb0 | Hb0]; cbn [andb];
    try (do 3 eexists; reflexivity).
  - rewrite py_sqrt_ok by apply quadratic_form_nonneg. mret.
    rewrite py_div_ok by (apply sqrt3_times_nonzero; assumption). mret.
    do 3 eexists; reflexivity.
  - rewrite py_sqrt_ok by apply quadratic_form_nonneg. mret.
    rewrite py_div_ok by (apply sqrt3_times_nonzero; assumption). mret.
    do 3 eexists; reflexivity.
  - rewrite py_sqrt_ok by apply quadratic_form_nonneg. mret.
    rewrite py_div_ok by (apply sqrt3_times_nonzero; assumption). mret.
    do 3 eexists; reflexivity.
  - assert (Hr' : 0 <= r / 255 <= 1) by lra.
    assert (Hg' : 0 <= g / 255 <= 1) by lra.
    assert (Hb' : 0 <= b / 255 <= 1) by lra.
    rewrite py_sqrt_ok by (apply radicand_nonneg). mret.
    rewrite py_acos_ok by (apply acos_argument_bounds; assumption). mret.
    rewrite py_div_ok by lra. mret.
    do 3 eexists; reflexivity.
Qed.

(** ** RGB to HSI and back *)

Lemma ret_triple {A B C} (a a' : A) (b b' : B) (c c' : C) :
  a = a' -> b = b' -> c = c' -> ret (a, b, c) = ret (a', b', c').
Proof. intros -> -> ->. reflexivity. Qed.

(** On a grey input the hue is reset to 0, the saturation is 0 and the
    returned intensity is the unnormalised sum. *)
Lemma rgb2hsi_grey (n : R) :
  0 < n -> rgb2hsi n n n = ret (0, 0, 3 * n / 255).
Proof.
  intros Hn. unfold rgb2hsi. cbv zeta.
  rewrite !(Rmin_left (n / 255) (n / 255)) by lra.
  rewrite !(Rmax_left (n / 255) (n / 255)) by lra.
  destruct (Req_dec_T ((n / 255 + n / 255 + n / 255) / 3) 0) as [H | H];
    [lra |].
  rewrite py_div_ok by exact H. mret. mret.
  replace ((n / 255 - n / 255) * (n / 255 - n / 255)
           + (n / 255 - n / 255) * (n / 255 - n / 255)) with 0 by ring.
  rewrite py_sqrt_ok by lra. mret. rewrite sqrt_0.
  rewrite py_acos_ok by lra. mret.
  destruct (Rgt_dec (n / 255) (n / 255)); [lra |].
  destruct (Req_dec_T (n / 255) (n / 255)); [| contradiction].
  pose proof PI_RGT_0 as HPI.
  apply ret_triple; field; lra.
Qed.

(** With saturation 0 the first sector puts all the intensity on blue:
    red and green carry the factor [saturation]. *)
Lemma hsi2rgb_unsaturated (i : R) :
  0 < i < 3 -> hsi2rgb 0 0 i = ret (0, 0, i / 3 * 255).
Proof.
  intros Hi. unfold hsi2rgb. cbv zeta.
  pose proof PI_RGT_0 as HPI.
  rewrite py_mod_small by lra.
  replace (PI * 0 / 180) with 0 by (field; lra).
  rewrite (clamp_low 0 1) by lra. rewrite (clamp_inside i 3) by lra.
  destruct (Rlt_dec 0 (2 / 3 * PI)); [| lra].
  rewrite !py_div_ok by (apply cos_sector; lra).
  mret. mret. mret.
  rewrite !clamp_low by lra.
  rewrite clamp_inside by lra.
  apply ret_triple; ring.
Qed.

Lemma grey_round_trip (n : R) :
  0 < n < 255 -> rgb_round_trip n n n = ret (0, 0, n).
Proof.
  intros Hn. unfold rgb_round_trip.
  rewrite rgb2hsi_grey by lra. mret.
  rewrite hsi2rgb_unsaturated by lra.
  apply ret_triple; try reflexivity. field.
Qed.

(** C1. The round trip RGB -> HSI -> RGB of the mid grey (128, 128, 128)
    returns (0, 0, 128): red and green are lost, so the ±1 bound of the
    specification does not hold on the code. *)
Theorem rgb_round_trip_grey_128 :
  rgb_round_trip 128 128 128 = ret (0, 0, 128)
  /\ ~ round_trip_within_1 128 128 128.
Proof.
  assert (H : rgb_round_trip 128 128 128 = ret (0, 0, 128))
    by (apply grey_round_trip; lra).
  split; [exact H |].
  intros (r & g & b & E & Hr & _).
  rewrite H in E. injection E as Er Eg Eb. subst r.
  unfold Rabs in Hr. destruct (Rcase_abs (0 - 128)); lra.
Qed.

(** ** The hue of [rgb2hsi] *)

Lemma rgb2hsi_8_3_0 :
  rgb2hsi 8 3 0 = ret (acos (91 / 130050) * 180 / PI, 1, 11 / 255).
Proof.
  unfold rgb2hsi. cbv zeta.
  rewrite (Rmin_right (3 / 255) (0 / 255)) by lra.
  rewrite (Rmin_right (8 / 255) (0 / 255)) by lra.
  rewrite (Rmax_left (3 / 255) (0 / 255)) by lra.
  rewrite (Rmax_left (8 / 255) (3 / 255)) by lra.
  destruct (Req_dec_T ((8 / 255 + 3 / 255 + 0 / 255) / 3) 0) as [H | H];
    [lra |].
  rewrite py_div_ok by exact H. mret. mret.
  rewrite py_sqrt_ok by lra. mret.
  rewrite (sqrt_lem_1 _ (7 / 255)) by lra.
  replace ((8 / 255 - 3 / 255 + 8 / 255 - 0 / 255) / 2 * (7 / 255))
    with (91 / 130050) by field.
  rewrite py_acos_ok by lra. mret.
  destruct (Rgt_dec (0 / 255) (3 / 255)); [lra |].
  destruct (Req_dec_T (0 / 255) (8 / 255)); [lra |].
  pose proof PI_RGT_0 as HPI.
  apply ret_triple; try reflexivity; field; lra.
Qed.

Lemma spec_hue_8_3_0 :
  spec_hue (8 / 255) (3 / 255) (0 / 255) = acos (13 / 14) * 180 / PI.
Proof.
  unfold spec_hue. cbv zeta.
  rewrite (Rmin_right (3 / 255) (0 / 255)) by lra.
  rewrite (Rmin_right (8 / 255) (0 / 255)) by lra.
  rewrite (Rmax_left (3 / 255) (0 / 255)) by lra.
  rewrite (Rmax_left (8 / 255) (3 / 255)) by lra.
  destruct (Rgt_dec (0 / 255) (3 / 255)); [lra |].
  destruct (Req_dec_T (0 / 255) (8 / 255)); [lra |].
  rewrite (sqrt_lem_1 _ (7 / 255)) by lra.
  do 3 f_equal. field.
Qed.

Lemma acos_degrees_inj (x y : R) :
  -1 <= x <= 1 -> -1 <= y <= 1 ->
  acos x * 180 / PI = acos y * 180 / PI -> x = y.
Proof.
  intros Hx Hy H. pose proof PI_RGT_0 as HPI.
  assert (E : acos x = acos y).
  { apply Rmult_eq_reg_r with (180 / PI).
    - unfold Rdiv in *. rewrite <- !Rmult_assoc. exact H.
    - apply Rgt_not_eq. apply Rdiv_lt_0_compat; lra. }
  rewrite <- (cos_acos x Hx), <- (cos_acos y Hy), E. reflexivity.
Qed.

(** C3. On (8, 3, 0) the code returns the hue [acos(91/130050)] in
    degrees, the arccosine of the PRODUCT of [((r-g)+(r-b))/2] and the
    square root, where the specification's quotient gives [acos(13/14)];
    the two hues differ. *)
Theorem rgb2hsi_hue_is_a_product :
  rgb2hsi 8 3 0 = ret (acos (91 / 130050) * 180 / PI, 1, 11 / 255)
  /\ spec_hue (8 / 255) (3 / 255) (0 / 255) = acos (13 / 14) * 180 / PI
  /\ acos (91 / 130050) * 180 / PI <> acos (13 / 14) * 180 / PI.
Proof.
  split; [exact rgb2hsi_8_3_0 |]. split; [exact spec_hue_8_3_0 |].
  intros H. apply acos_degrees_inj in H; lra.
Qed.

(** *** The branch of [rgbw2hsi] for a zero blue channel

    With white present and blue 0, [rgbw2hsi] gets the hue from an
    arctangent; on (8, 3, 0) it is the hue of the specification's
    quotient, not the one [rgb2hsi] returns. *)

Lemma rgbw2hsi_8_3_0_1 :
  rgbw2hsi (Some 8) (Some 3) (Some 0) (Some 1)
  = ret (2 * atan (1 / (sqrt 3 * 3)) * 180 / PI, 11 / 12, 12 / 255).
Proof.
  unfold rgbw2hsi. cbn [or0].
  rewrite (is0_false 1) by lra.
  rewrite py_div_ok by lra. mret.
  rewrite (is0_false 8), (is0_false 3), (is0_true 0) by lra.
  cbn [andb].
  rewrite py_sqrt_ok by lra. mret.
  rewrite (sqrt_lem_1 _ 7) by lra.
  rewrite py_div_ok by (apply sqrt3_times_nonzero; lra). mret.
  replace (2 * 7 - 2 * 8 + 3) with 1 by ring.
  apply ret_triple; try reflexivity; field.
Qed.

Lemma two_atan_is_acos :
  2 * atan (1 / (sqrt 3 * 3)) = acos (13 / 14).
Proof.
  pose proof PI_RGT_0 as HPI.
  assert (H3 : 0 < sqrt 3) by (apply sqrt_lt_R0; lra).
  assert (H33 : sqrt 3 * sqrt 3 = 3) by (apply sqrt_sqrt; lra).
  set (q := 1 / (sqrt 3 * 3)).
  assert (Hq : 0 < q).
  { unfold q. apply Rdiv_lt_0_compat; nra. }
  assert (Hq2 : q * q = 1 / 27).
  { unfold q. field_simplify; [| lra]. 
    replace (sqrt 3 ^ 2) with 3 by (simpl; lra). lra. }
  assert (Ha : 0 < atan q < PI / 2).
  { split.
    - rewrite <- atan_0. apply atan_increasing. exact Hq.
    - apply atan_bound. }
  rewrite <- (acos_cos (2 * atan q)) by lra.
  f_equal.
  rewrite cos_2a_cos, cos_atan.
  unfold Rsqr. rewrite Hq2.
  assert (Hs : 0 < sqrt (1 + 1 / 27)) by (apply sqrt_lt_R0; lra).
  assert (Hss : sqrt (1 + 1 / 27) * sqrt (1 + 1 / 27) = 1 + 1 / 27)
    by (apply sqrt_sqrt; lra).
  set (t := sqrt (1 + 1 / 27)) in *.
  apply Rmult_eq_reg_r with (t * t); [| nra].
  field_simplify; [| lra]. 
  replace (t ^ 2) with (t * t) by ring. rewrite Hss. lra.
Qed.

Lemma rgbw2hsi_zero_blue_hue :
  rgbw2hsi (Some 8) (Some 3) (Some 0) (Some 1)
  = ret (spec_hue (8 / 255) (3 / 255) (0 / 255), 11 / 12, 12 / 255).
Proof.
  rewrite rgbw2hsi_8_3_0_1, spec_hue_8_3_0, two_atan_is_acos. reflexivity.
Qed.

(** ** Construction *)

Lemma ColorSolid_init_rgb (r g b : R) (white hue saturation intensity : option R) :
  channel r -> channel g -> channel b ->
  exists h s i,
    ColorSolid_init (Some r) (Some g) (Some b) white
      hue saturation intensity false
    = ret (mkColorSolid (Some r) (Some g) (Some b) None
             (Some h) (Some s) (Some i) false (Some rgb)).
Proof.
  intros Hr Hg Hb. unfold ColorSolid_init.
  destruct (rgb2hsi_returns r g b Hr Hg Hb) as (h & s & E).
  rewrite E. mret. eauto.
Qed.

Lemma ColorSolid_init_rgbw (r g b : R) (white hue saturation intensity : option R) :
  channel r -> channel g -> channel b -> opt_channel white ->
  exists h s i,
    ColorSolid_init (Some r) (Some g) (Some b) white
      hue saturation intensity true
    = ret (mkColorSolid (Some r) (Some g) (Some b) white
             (Some h) (Some s) (Some i) true (Some rgbw)).
Proof.
  intros Hr Hg Hb Hw. unfold ColorSolid_init.
  destruct (rgbw2hsi_returns (Some r) (Some g) (Some b) white)
    as (h & s & i & E); try assumption.
  rewrite E. mret. eauto.
Qed.

Lemma ColorSolid_init_hsi (red green blue white : option R) (h s i : R)
    (ew : bool) :
  is_some red && is_some green && is_some blue = false ->
  exists r g b w,
    ColorSolid_init red green blue white (Some h) (Some s) (Some i) ew
    = ret (mkColorSolid (Some r) (Some g) (Some b) w
             (Some h) (Some s) (Some i) ew (Some hsi)).
Proof.
  intros H.
  assert (E : ColorSolid_init red green blue white (Some h) (Some s) (Some i) ew
              = if negb ew then
                  '(r, g, b) <- hsi2rgb h s i ;;
                  ret (mkColorSolid (Some r) (Some g) (Some b) None
                         (Some h) (Some s) (Some i) ew (Some hsi))
                else
                  '(r, g, b, w) <- hsi2rgbw h s i ;;
                  ret (mkColorSolid (Some r) (Some g) (Some b) (Some w)
                         (Some h) (Some s) (Some i) ew (Some hsi))).
  { unfold ColorSolid_init.
    destruct red, green, blue; try discriminate H; reflexivity. }
  rewrite E. destruct ew; cbn [negb].
  - destruct (hsi2rgbw_returns h s i) as (r & g & b & w & E').
    rewrite E'. mret. eauto.
  - destruct (hsi2rgb_returns h s i) as (r & g & b & E').
    rewrite E'. mret. eauto.
Qed.

Lemma ColorSolid_init_unconfigured
    (red green blue white hue saturation intensity : option R) (ew : bool) :
  is_some red && is_some green && is_some blue = false ->
  is_some hue && is_some saturation && is_some intensity = false ->
  ColorSolid_init red green blue white hue saturation intensity ew
  = (["Must input either rgb[w] or hsi; output object not configured correctly"%string],
     Ok (mkColorSolid None None None None None None None ew None)).
Proof.
  intros H1 H2. unfold ColorSolid_init.
  destruct red, green, blue; try discriminate H1;
    destruct hue, saturation, intensity; try discriminate H2; reflexivity.
Qed.

Lemma hsi2rgbw_defaults : hsi2rgbw 0 1 1 = ret (255, 0, 0, 0).
Proof.
  unfold hsi2rgbw. cbv zeta. pose proof PI_RGT_0 as HPI.
  rewrite py_mod_small by lra.
  replace (PI * 0 / 180) with 0 by (field; lra).
  rewrite (clamp_high 1 1) by lra. rewrite (clamp_inside 1 4) by lra.
  destruct (Rlt_dec 0 (2 / 3 * PI)); [| lra].
  rewrite Rminus_0_r, cos_0, cos_PI3.
  rewrite py_div_ok by lra. mret. mret.
  rewrite (clamp_high _ 255) by lra.
  rewrite !clamp_low by lra. reflexivity.
Qed.

(** C6, as the code has it: [ColorSolid(red=1)], an incomplete RGB
    tuple, does not fail: hue, saturation and intensity take their
    defaults 0, 1.0 and 1.0 and the object is built from them.  And with
    both tuples incomplete the constructor still returns an object. *)
Lemma ColorSolid_red_only_is_built :
  (exists r g b w,
      ColorSolid_init (Some 1) None None None
        default_hue default_saturation default_intensity
        default_enableWhite
      = ret (mkColorSolid (Some r) (Some g) (Some b) (Some w)
               (Some 0) (Some 1) (Some 1) true (Some hsi)))
  /\ snd (ColorSolid_init (Some 1) None None None None None None
            default_enableWhite)
     = Ok (mkColorSolid None None None None None None None true None).
Proof.
  split; [| reflexivity].
  unfold ColorSolid_init, default_hue, default_saturation,
    default_intensity, default_enableWhite. cbn [negb].
  rewrite hsi2rgbw_defaults. mret. do 4 eexists. reflexivity.
Qed.

(** C6, amended.  Construction never raises for want of arguments.
    With red, green and blue all given (channels in 0..255) the object is
    built from RGB[W], whatever hue, saturation and intensity are; failing
    that, with hue, saturation and intensity all given (their defaults
    count) it is built from HSI; failing both, a warning is printed and an
    object with every colour field [None] is returned. *)
Theorem ColorSolid_init_cases
    (red green blue white hue saturation intensity : option R) (ew : bool) :
  (forall r g b,
      red = Some r -> green = Some g -> blue = Some b ->
      channel r -> channel g -> channel b -> opt_channel white ->
      exists h s i,
        ColorSolid_init red green blue white hue saturation intensity ew
        = ret (mkColorSolid red green blue (if ew then white else None)
                 (Some h) (Some s) (Some i) ew
                 (Some (if ew then rgbw else rgb))))
  /\ (is_some red && is_some green && is_some blue = false ->
      forall h s i,
        hue = Some h -> saturation = Some s -> intensity = Some i ->
        exists r g b w,
          ColorSolid_init red green blue white hue saturation intensity ew
          = ret (mkColorSolid (Some r) (Some g) (Some b) w
                   hue saturation intensity ew (Some hsi)))
  /\ (is_some red && is_some green && is_some blue = false ->
      is_some hue && is_some saturation && is_some intensity = false ->
      ColorSolid_init red green blue white hue saturation intensity ew
      = (["Must input either rgb[w] or hsi; output object not configured correctly"%string],
         Ok (mkColorSolid None None None None None None None ew None))).
Proof.
  repeat split.
  - intros r g b -> -> -> Hr Hg Hb Hw. destruct ew.
    + apply ColorSolid_init_rgbw; assumption.
    + apply ColorSolid_init_rgb; assumption.
  - intros H h s i -> -> ->. apply ColorSolid_init_hsi. exact H.
  - apply ColorSolid_init_unconfigured.
Qed.

Lemma ColorSolid_init_cases_witness :
  (exists h s i,
      ColorSolid_init (Some 1) (Some 2) (Some 3) None
        (Some 0) (Some 1) (Some 1) false
      = ret (mkColorSolid (Some 1) (Some 2) (Some 3) None
               (Some h) (Some s) (Some i) false (Some rgb)))
  /\ (exists r g b w,
         ColorSolid_init (Some 1) None None None
           (Some 0) (Some 1) (Some 1) true
         = ret (mkColorSolid (Some r) (Some g) (Some b) w
                  (Some 0) (Some 1) (Some 1) true (Some hsi)))
  /\ ColorSolid_init None None None None None None None true
     = (["Must input either rgb[w] or hsi; output object not configured correctly"%string],
        Ok (mkColorSolid None None None None None None None true None)).
Proof.
  split; [| split].
  - apply (proj1 (ColorSolid_init_cases (Some 1) (Some 2) (Some 3) None
                    (Some 0) (Some 1) (Some 1) false) 1 2 3);
      try reflexivity; unfold channel; simpl; try lra; exact I.
  - apply (proj1 (proj2 (ColorSolid_init_cases (Some 1) None None None
                           (Some 0) (Some 1) (Some 1) true))
             eq_refl 0 1 1);
      reflexivity.
  - apply (proj2 (proj2 (ColorSolid_init_cases None None None None
                           None None None true)));
      reflexivity.
Defined.

(** ** The white channel *)

Lemma rgb2hsi_red : rgb2hsi 255 0 0 = ret (0, 1, 1).
Proof.
  unfold rgb2hsi. cbv zeta. pose proof PI_RGT_0 as HPI.
  rewrite (Rmin_left (0 / 255) (0 / 255)) by lra.
  rewrite (Rmin_right (255 / 255) (0 / 255)) by lra.
  rewrite (Rmax_left (0 / 255) (0 / 255)) by lra.
  rewrite (Rmax_left (255 / 255) (0 / 255)) by lra.
  destruct (Req_dec_T ((255 / 255 + 0 / 255 + 0 / 255) / 3) 0) as [H | H];
    [lra |].
  rewrite py_div_ok by exact H. mret. mret.
  rewrite py_sqrt_ok by lra. mret.
  rewrite (sqrt_lem_1 _ 1) by lra.
  replace ((255 / 255 - 0 / 255 + 255 / 255 - 0 / 255) / 2 * 1)
    with 1 by field.
  rewrite py_acos_ok by lra. mret. rewrite acos_1.
  destruct (Rgt_dec (0 / 255) (0 / 255)); [lra |].
  destruct (Req_dec_T (0 / 255) (255 / 255)); [lra |].
  apply ret_triple; field; lra.
Qed.

Lemma default_colour_is_built :
  ColorSolid_init None None None None
    default_hue default_saturation default_intensity default_enableWhite
  = ret default_colour.
Proof.
  unfold ColorSolid_init, default_hue, default_saturation,
    default_intensity, default_enableWhite. cbn [negb].
  rewrite hsi2rgbw_defaults. mret. reflexivity.
Qed.

Lemma pure_red_is_built :
  ColorSolid_init (Some 255) (Some 0) (Some 0) None
    default_hue default_saturation default_intensity false
  = ret pure_red.
Proof.
  unfold ColorSolid_init. rewrite rgb2hsi_red. mret. reflexivity.
Qed.

(** C8, as the code has it: writing [None] to [white] on a colour built
    with [enableWhite=False] is not rejected: the call returns normally
    and the representation changes from RGB to RGBW. *)
Lemma set_white_None_is_accepted :
  ColorSolid_init (Some 255) (Some 0) (Some 0) None
    default_hue default_saturation default_intensity false
  = ret pure_red
  /\ set_white None pure_red
     = (mkColorSolid (Some 255) (Some 0) (Some 0) None
          (Some 0) (Some 1) (Some 1) false (Some rgbw),
        ret tt)
  /\ _inputType pure_red <> Some rgbw.
Proof.
  split; [| split].
  - unfold ColorSolid_init. rewrite rgb2hsi_red. mret. reflexivity.
  - unfold set_white, pure_red. cbn [_enableWhite negb is_some andb].
    unfold with_inputType, red, green, blue, white.
    cbn [_red _green _blue _white _hue _saturation _intensity
         _enableWhite _inputType].
    unfold rgbw2hsi. cbn [or0]. rewrite is0_true by reflexivity.
    rewrite rgb2hsi_red. reflexivity.
  - discriminate.
Qed.

(** C8, amended.  On a colour whose [enableWhite] is false, writing a
    value other than [None] to [white] prints a warning and returns
    without raising; no field of the object changes. *)
Theorem set_white_rejected (c : ColorSolid) (v : R) :
  _enableWhite c = false ->
  set_white (Some v) c
  = (c, (["Unable to configure white color; enable the white LED first (via obj.enableWhite)"%string],
         Ok tt)).
Proof.
  intros H. unfold set_white. rewrite H. reflexivity.
Qed.

Lemma set_white_rejected_witness :
  _enableWhite pure_red = false
  /\ set_white (Some 7) pure_red
     = (pure_red,
        (["Unable to configure white color; enable the white LED first (via obj.enableWhite)"%string],
         Ok tt)).
Proof.
  split; [reflexivity | apply (set_white_rejected pure_red 7); reflexivity].
Defined.

(** C9. Whatever the constructor, the setters, the [enableWhite] switch
    and [copy] did before, reading [white] gives [None] while
    [enableWhite] is false. *)
Theorem white_is_None_when_disabled (c : ColorSolid) :
  reachable c -> enableWhite c = false -> white c = None.
Proof.
  intros _ H. unfold white. unfold enableWhite in H. rewrite H. reflexivity.
Qed.

Lemma white_is_None_when_disabled_witness :
  let c := fst (set_enableWhite false default_colour) in
  _white c = Some 0 /\ enableWhite c = false /\ white c = None.
Proof.
  split; [reflexivity |]. split; [reflexivity |].
  apply white_is_None_when_disabled; [| reflexivity].
  apply reach_enableWhite.
  apply (reach_init None None None None
           default_hue default_saturation default_intensity
           default_enableWhite []).
  exact default_colour_is_built.
Defined.

(** ** Hexadecimal fields *)

Lemma hex2_round_trips_all :
  forallb hex2_round_trips (map Z.of_nat (seq 0 256)) = true.
Proof. vm_compute. reflexivity. Qed.

(** A value of 0..255 is written as two characters that [int] reads
    back. *)
Lemma format_hex_2 (n : Z) :
  (0 <= n <= 255)%Z ->
  exists a b,
    format_hex 2 n = String a (String b EmptyString)
    /\ int16 (String a (String b EmptyString)) = Some n.
Proof.
  intros Hn.
  assert (H : hex2_round_trips n = true).
  { pose proof hex2_round_trips_all as Hall.
    rewrite forallb_forall in Hall. apply Hall.
    apply in_map_iff. exists (Z.to_nat n). split; [lia |].
    apply in_seq. lia. }
  unfold hex2_round_trips in H.
  destruct (format_hex 2 n) as [| a [| b [| ? ?]]]; try discriminate H.
  exists a, b. split; [reflexivity |].
  destruct (int16 (String a (String b EmptyString))) as [m |];
    [| discriminate H].
  apply Z.eqb_eq in H. congruence.
Qed.

(** The list comprehension over the fields: it returns the values when
    every field is a number, and raises [ValueError] otherwise. *)
Lemma mapM_py_int16 (l : list string) :
  mapM py_int16 l
  = match all_some (map int16 l) with
    | Some vs => ret vs
    | None => raise ValueError
    end.
Proof.
  induction l as [| f l IH]; [reflexivity |].
  cbn [mapM map all_some]. unfold py_int16 at 1.
  destruct (int16 f) as [n |]; [| reflexivity].
  mret. rewrite IH.
  destruct (all_some (map int16 l)); [mret |]; reflexivity.
Qed.

Lemma all_some_length {A} (l : list (option A)) (vs : list A) :
  all_some l = Some vs -> List.length vs = List.length l.
Proof.
  revert vs. induction l as [| [a |] l IH]; intros vs H; cbn in H.
  - injection H as <-. reflexivity.
  - destruct (all_some l) as [vs' |]; [| discriminate H].
    injection H as <-. cbn. f_equal. apply IH. reflexivity.
  - discriminate H.
Qed.

(** ** Decoding *)

Lemma parse_short (s : string) :
  (String.length s <= 1)%nat ->
  parse s = raise (Exception "Invalid input, needs to be an input string").
Proof.
  intros H. unfold parse.
  apply Nat.leb_le in H. rewrite H. reflexivity.
Qed.

Lemma parse_unframed (s : string) :
  (1 < String.length s)%nat -> well_framed s = false ->
  exists msg, parse s = ([msg], Ok None).
Proof.
  intros Hlen H. unfold parse.
  apply Nat.leb_gt in Hlen. rewrite Hlen.
  unfold well_framed in H.
  destruct (lower_startswith s "c").
  - change (6 + 1)%nat with 7%nat. change (8 + 1)%nat with 9%nat.
    rewrite H. cbn [negb]. eexists. reflexivity.
  - destruct (lower_startswith s "h"); cbn [andb].
    + destruct (lower_endswith s "w"); cbn [negb].
      * change (10 + 1)%nat with 11%nat. rewrite H. cbn [negb].
        eexists. reflexivity.
      * change (9 + 1)%nat with 10%nat. rewrite H. cbn [negb].
        eexists. reflexivity.
    + eexists. reflexivity.
Qed.

Lemma parse_framed (s : string) :
  (1 < String.length s)%nat -> well_framed s = true ->
  parse s
  = match all_some (map int16 (descriptor_fields s)) with
    | Some l => build s l
    | None => raise ValueError
    end.
Proof.
  intros Hlen H. unfold parse, build, descriptor_fields.
  apply Nat.leb_gt in Hlen. rewrite Hlen.
  unfold well_framed in H.
  destruct (lower_startswith s "c").
  - change (6 + 1)%nat with 7%nat. change (8 + 1)%nat with 9%nat.
    rewrite H. cbn [negb].
    unfold splitStr. rewrite mapM_py_int16.
    destruct (all_some (map int16 (fields 2 s))); [mret |]; reflexivity.
  - destruct (lower_startswith s "h"); [| discriminate H]. cbn [andb].
    destruct (lower_endswith s "w"); cbn [negb].
    + change (10 + 1)%nat with 11%nat. rewrite H. cbn [negb].
      unfold splitStr. rewrite mapM_py_int16.
      destruct (all_some (map int16 _)); [mret |]; reflexivity.
    + change (9 + 1)%nat with 10%nat. rewrite H. cbn [negb].
      unfold splitStr. rewrite mapM_py_int16.
      destruct (all_some (map int16 _)); [mret |]; reflexivity.
Qed.

(** ** Encoding, then decoding *)

Lemma channel_IZR (n : Z) : (0 <= n <= 255)%Z -> channel (IZR n).
Proof. intros [H0 H1]. split; [apply (IZR_le 0) | apply (IZR_le n 255)]; assumption. Qed.

Lemma round_field_byte (x : option R) :
  is_byte x ->
  exists n, round_field x = ret n /\ (0 <= n <= 255)%Z.
Proof.
  intros (v & -> & H). exists (py_round v). split; [| exact H].
  unfold round_field, need. mret. reflexivity.
Qed.

Lemma round_field_IZR (n : Z) : round_field (Some (IZR n)) = ret n.
Proof. unfold round_field, need. mret. rewrite py_round_IZR. reflexivity. Qed.

Lemma ColorSolid_eq_same (a b : ColorSolid) (s : option string) :
  toString None a = ret s -> toString None b = ret s ->
  ColorSolid_eq a b = ret true.
Proof.
  intros Ha Hb. unfold ColorSolid_eq. rewrite Ha. mret. rewrite Hb. mret.
  destruct s as [s |]; cbn [option_string_eqb]; [| reflexivity].
  rewrite String.eqb_refl. reflexivity.
Qed.

Lemma round_trip_rgb (v : ColorSolid) :
  _inputType v = Some rgb ->
  is_byte (red v) -> is_byte (green v) -> is_byte (blue v) ->
  exists s v',
    toString None v = ret (Some s)
    /\ parse s = ret (Some v')
    /\ toString None v' = ret (Some s).
Proof.
  intros Ht Hr Hg Hb.
  destruct (round_field_byte _ Hr) as (r & Er & Br).
  destruct (round_field_byte _ Hg) as (g & Eg & Bg).
  destruct (round_field_byte _ Hb) as (b & Eb & Bb).
  destruct (format_hex_2 r Br) as (r1 & r2 & Fr & Ir).
  destruct (format_hex_2 g Bg) as (g1 & g2 & Fg & Ig).
  destruct (format_hex_2 b Bb) as (b1 & b2 & Fb & Ib).
  set (s := String "c" (String r1 (String r2 (String g1 (String g2
              (String b1 (String b2 EmptyString))))))).
  destruct (ColorSolid_init_rgb (IZR r) (IZR g) (IZR b) None
              default_hue default_saturation default_intensity)
    as (h & st & i & Ei); try (apply channel_IZR; assumption).
  exists s. eexists. split; [| split].
  - unfold toString, selects. rewrite Ht. cbn [inputType_eqb orb].
    rewrite Er. mret. rewrite Eg. mret. rewrite Eb. mret.
    rewrite Fr, Fg, Fb. reflexivity.
  - rewrite parse_framed; [| cbn; lia | reflexivity].
    change (all_some (map int16 (descriptor_fields s)))
      with (all_some [int16 (String r1 (String r2 EmptyString));
                      int16 (String g1 (String g2 EmptyString));
                      int16 (String b1 (String b2 EmptyString))]).
    rewrite Ir, Ig, Ib. cbn [all_some option_map].
    unfold build. change (lower_startswith s "c") with true. cbv iota.
    rewrite Ei. mret. reflexivity.
  - unfold toString, selects. cbn [_inputType inputType_eqb orb].
    unfold red, green, blue. cbn [_red _green _blue].
    rewrite !round_field_IZR. mret. mret. mret.
    rewrite Fr, Fg, Fb. reflexivity.
Qed.

Lemma round_trip_rgbw (v : ColorSolid) :
  _inputType v = Some rgbw ->
  is_byte (red v) -> is_byte (green v) -> is_byte (blue v) ->
  (forall w, white v = Some w -> (0 <= py_round w <= 255)%Z) ->
  exists s v',
    toString None v = ret (Some s)
    /\ parse s = ret (Some v')
    /\ toString None v' = ret (Some s).
Proof.
  intros Ht Hr Hg Hb Hw.
  destruct (round_field_byte _ Hr) as (r & Er & Br).
  destruct (round_field_byte _ Hg) as (g & Eg & Bg).
  destruct (round_field_byte _ Hb) as (b & Eb & Bb).
  set (wv := match white v with Some w => w | None => 0 end).
  assert (Bw : (0 <= py_round wv <= 255)%Z).
  { unfold wv. destruct (white v) as [w |].
    - apply Hw. reflexivity.
    - rewrite (py_round_IZR 0). lia. }
  destruct (format_hex_2 r Br) as (r1 & r2 & Fr & Ir).
  destruct (format_hex_2 g Bg) as (g1 & g2 & Fg & Ig).
  destruct (format_hex_2 b Bb) as (b1 & b2 & Fb & Ib).
  destruct (format_hex_2 _ Bw) as (w1 & w2 & Fw & Iw).
  set (s := String "c" (String r1 (String r2 (String g1 (String g2
              (String b1 (String b2 (String w1 (String w2
                 EmptyString))))))))).
  destruct (ColorSolid_init_rgbw (IZR r) (IZR g) (IZR b)
              (Some (IZR (py_round wv)))
              default_hue default_saturation default_intensity)
    as (h & st & i & Ei); try (apply channel_IZR; assumption).
  exists s. eexists. split; [| split].
  - unfold toString, selects. rewrite Ht. cbn [inputType_eqb orb].
    rewrite Er. mret. rewrite Eg. mret. rewrite Eb. mret.
    fold wv. rewrite Fr, Fg, Fb, Fw. reflexivity.
  - rewrite parse_framed; [| cbn; lia | reflexivity].
    change (all_some (map int16 (descriptor_fields s)))
      with (all_some [int16 (String r1 (String r2 EmptyString));
                      int16 (String g1 (String g2 EmptyString));
                      int16 (String b1 (String b2 EmptyString));
                      int16 (String w1 (String w2 EmptyString))]).
    rewrite Ir, Ig, Ib, Iw. cbn [all_some option_map].
    unfold build. change (lower_startswith s "c") with true. cbv iota.
    unfold default_enableWhite. rewrite Ei. mret. reflexivity.
  - unfold toString, selects. cbn [_inputType inputType_eqb orb].
    unfold red, green, blue, white.
    cbn [_red _green _blue _white _enableWhite].
    rewrite !round_field_IZR. mret. mret. mret.
    rewrite py_round_IZR. rewrite Fr, Fg, Fb, Fw. reflexivity.
Qed.

(** C2. A colour in RGB or RGBW form whose channels round into 0..255
    is encoded to a string that [parse] decodes, and the decoded colour
    has the same encoding: it is equal to the original under [__eq__]. *)
Theorem toString_parse_round_trip (v : ColorSolid) :
  _inputType v = Some rgb \/ _inputType v = Some rgbw ->
  is_byte (red v) -> is_byte (green v) -> is_byte (blue v) ->
  (forall w, white v = Some w -> (0 <= py_round w <= 255)%Z) ->
  exists s v',
    toString None v = ret (Some s)
    /\ parse s = ret (Some v')
    /\ toString None v' = ret (Some s)
    /\ ColorSolid_eq v' v = ret true.
Proof.
  intros Ht Hr Hg Hb Hw.
  assert (H : exists s v',
             toString None v = ret (Some s)
             /\ parse s = ret (Some v')
             /\ toString None v' = ret (Some s)).
  { destruct Ht as [Ht | Ht].
    - apply round_trip_rgb; assumption.
    - apply round_trip_rgbw; assumption. }
  destruct H as (s & v' & H1 & H2 & H3).
  exists s, v'. repeat split; try assumption.
  apply (ColorSolid_eq_same v' v (Some s)); assumption.
Qed.

(** ** Decoding: every outcome *)

Lemma substring_0_length (n : nat) (s : string) :
  (n <= String.length s)%nat -> String.length (substring 0 n s) = n.
Proof.
  revert s. induction n as [| n IH]; intros s H.
  - destruct s; reflexivity.
  - destruct s as [| a s]; cbn in H; [lia |].
    cbn. f_equal. apply IH. lia.
Qed.

Lemma fields_length (k : nat) (s : string) :
  List.length (fields k s) = ((String.length s - 1 + k - 1) / k)%nat.
Proof. unfold fields, range3. rewrite length_map, length_map, length_seq. reflexivity. Qed.

(** A well-framed descriptor has three fields, or four for RGBW. *)
Lemma descriptor_fields_length (s : string) :
  well_framed s = true ->
  List.length (descriptor_fields s)
  = if lower_startswith s "c" && (String.length s =? 9)%nat
    then 4%nat else 3%nat.
Proof.
  unfold well_framed, descriptor_fields. intros H.
  destruct (lower_startswith s "c"); cbn [andb]; cbv iota.
  - rewrite fields_length.
    destruct (String.length s =? 9)%nat eqn:E9.
    + apply Nat.eqb_eq in E9. rewrite E9. reflexivity.
    + rewrite orb_false_r in H. apply Nat.eqb_eq in H. rewrite H.
      reflexivity.
  - destruct (lower_startswith s "h"); [| discriminate H].
    destruct (lower_endswith s "w"); apply Nat.eqb_eq in H;
      rewrite fields_length.
    + rewrite substring_0_length by lia. rewrite H. reflexivity.
    + rewrite H. reflexivity.
Qed.

Lemma bind_Some_not_None {A} (m : M A) (out : list string) :
  (c <- m ;; ret (Some c)) <> (out, Ok None).
Proof.
  destruct m as [o [a | e]]; cbn; intros H; discriminate H.
Qed.

Lemma build_not_None (s : string) (l : list Z) (out : list string) :
  List.length l
  = (if lower_startswith s "c" && (String.length s =? 9)%nat
     then 4%nat else 3%nat) ->
  build s l <> (out, Ok None).
Proof.
  unfold build. intros Hl.
  destruct (lower_startswith s "c"); cbn [andb] in Hl.
  - destruct (String.length s =? 9)%nat.
    + destruct l as [| r [| g [| b [| w [| ? ?]]]]]; try discriminate Hl.
      apply bind_Some_not_None.
    + destruct l as [| r [| g [| b [| ? ?]]]]; try discriminate Hl.
      apply bind_Some_not_None.
  - destruct l as [| h [| st [| i [| ? ?]]]]; try discriminate Hl.
    unfold index. cbn [nth_error]. mret. mret. mret.
    apply bind_Some_not_None.
Qed.

Lemma build_returns (s : string) (l : list Z) :
  List.length l
  = (if lower_startswith s "c" && (String.length s =? 9)%nat
     then 4%nat else 3%nat) ->
  (lower_startswith s "c" = true -> Forall (fun n => (0 <= n <= 255)%Z) l) ->
  exists c, build s l = ret (Some c).
Proof.
  unfold build. intros Hl Hb.
  destruct (lower_startswith s "c"); cbn [andb] in Hl.
  - specialize (Hb eq_refl).
    destruct (String.length s =? 9)%nat.
    + destruct l as [| r [| g [| b [| w [| ? ?]]]]]; try discriminate Hl.
      inversion Hb as [| ? ? Hr Hb1]; subst.
      inversion Hb1 as [| ? ? Hg Hb2]; subst.
      inversion Hb2 as [| ? ? Hbl Hb3]; subst.
      inversion Hb3 as [| ? ? Hw _]; subst.
      destruct (ColorSolid_init_rgbw (IZR r) (IZR g) (IZR b)
                  (Some (IZR w))
                  default_hue default_saturation default_intensity)
        as (h & st & i & E); try (apply channel_IZR; assumption).
      unfold default_enableWhite. rewrite E. mret. eauto.
    + destruct l as [| r [| g [| b [| ? ?]]]]; try discriminate Hl.
      inversion Hb as [| ? ? Hr Hb1]; subst.
      inversion Hb1 as [| ? ? Hg Hb2]; subst.
      inversion Hb2 as [| ? ? Hbl _]; subst.
      destruct (ColorSolid_init_rgb (IZR r) (IZR g) (IZR b) None
                  default_hue default_saturation default_intensity)
        as (h & st & i & E); try (apply channel_IZR; assumption).
      rewrite E. mret. eauto.
  - destruct l as [| h [| st [| i [| ? ?]]]]; try discriminate Hl.
    unfold index. cbn [nth_error]. mret. mret. mret.
    destruct (ColorSolid_init_hsi None None None None
                (IZR h) (IZR st / 255) (IZR i / 255)
                (lower_endswith s "w") eq_refl)
      as (r & g & b & w & E).
    rewrite E. mret. eauto.
Qed.

(** C7, as the code has it: a descriptor whose prefix is neither [c] nor
    [h] does not raise: a message is printed and [None] is returned.  And
    the capital [C], which is neither, is accepted as a prefix. *)
Lemma parse_bad_prefix_returns_None :
  parse "zff0000"
  = (["Unable to parse input string zff0000"%string], Ok None)
  /\ (forall out e, parse "zff0000" <> (out, Raise e))
  /\ exists c, parse "Cff0000" = ret (Some c).
Proof.
  assert (H : parse "zff0000"
              = (["Unable to parse input string zff0000"%string], Ok None))
    by reflexivity.
  split; [exact H |]. split.
  - intros out e E. rewrite H in E. discriminate E.
  - rewrite parse_framed; [| cbn; lia | reflexivity].
    change (all_some (map int16 (descriptor_fields "Cff0000")))
      with (Some [255; 0; 0]%Z).
    apply build_returns; [reflexivity |].
    intros _. repeat constructor; lia.
Qed.

(** C7, amended.  [parse] raises [Exception] on an input of at most one
    character, and [ValueError] on a well-framed input one of whose
    fields [int] rejects.  An input that is not well framed (longer than
    one character, its first letter other than c, C, h or H, or its
    length other than 7 or 9 after c, 11 after h with a final w or W, 10
    after h without) raises nothing: a message is printed and [None] is
    returned, and [None] is returned in no other case.  A well-framed
    input whose fields are all numbers (within 0..255 after c) yields a
    colour. *)
Theorem parse_outcomes (s : string) :
  ((String.length s <= 1)%nat ->
   parse s = raise (Exception "Invalid input, needs to be an input string"))
  /\ ((1 < String.length s)%nat -> well_framed s = false ->
      exists msg, parse s = ([msg], Ok None))
  /\ ((1 < String.length s)%nat -> well_framed s = true ->
      all_some (map int16 (descriptor_fields s)) = None ->
      parse s = raise ValueError)
  /\ ((1 < String.length s)%nat -> well_framed s = true ->
      forall l, all_some (map int16 (descriptor_fields s)) = Some l ->
      (lower_startswith s "c" = true ->
       Forall (fun n => (0 <= n <= 255)%Z) l) ->
      exists c, parse s = ret (Some c))
  /\ (forall out, parse s = (out, Ok None) ->
      (1 < String.length s)%nat /\ well_framed s = false).
Proof.
  split; [apply parse_short |].
  split; [apply parse_unframed |].
  split; [| split].
  - intros Hlen Hf Hn. rewrite parse_framed by assumption.
    rewrite Hn. reflexivity.
  - intros Hlen Hf l Hl Hb. rewrite parse_framed by assumption.
    rewrite Hl. apply build_returns; [| exact Hb].
    rewrite (all_some_length _ _ Hl), length_map.
    apply descriptor_fields_length. exact Hf.
  - intros out H.
    destruct (le_lt_dec (String.length s) 1) as [Hlen | Hlen].
    { rewrite parse_short in H by exact Hlen. discriminate H. }
    split; [exact Hlen |].
    destruct (well_framed s) eqn:Hf; [| reflexivity].
    exfalso. rewrite parse_framed in H by assumption.
    destruct (all_some (map int16 (descriptor_fields s))) as [l |] eqn:Hl;
      [| discriminate H].
    revert H. apply build_not_None.
    rewrite (all_some_length _ _ Hl), length_map.
    apply descriptor_fields_length. exact Hf.
Qed.

Lemma parse_outcomes_witness :
  parse "c" = raise (Exception "Invalid input, needs to be an input string")
  /\ (exists msg, parse "cff00" = ([msg], Ok None))
  /\ parse "cgg0000" = raise ValueError
  /\ (exists c, parse "cff0000" = ret (Some c))
  /\ (exists c, parse "h0000ff0ffw" = ret (Some c)).
Proof.
  split; [| split; [| split; [| split]]].
  - apply (proj1 (parse_outcomes "c")). simpl. lia.
  - apply (proj1 (proj2 (parse_outcomes "cff00"))).
    + simpl. lia.
    + reflexivity.
  - apply (proj1 (proj2 (proj2 (parse_outcomes "cgg0000")))).
    + simpl. lia.
    + reflexivity.
    + reflexivity.
  - apply (proj1 (proj2 (proj2 (proj2 (parse_outcomes "cff0000"))))
             ltac:(simpl; lia) eq_refl [255; 0; 0]%Z eq_refl).
    intros _. repeat constructor; lia.
  - apply (proj1 (proj2 (proj2 (proj2 (parse_outcomes "h0000ff0ffw"))))
             ltac:(simpl; lia) eq_refl [0; 255; 255]%Z eq_refl).
    intros H. discriminate H.
Defined.

Lemma toString_parse_round_trip_witness :
  exists s v',
    toString None pure_red = ret (Some s)
    /\ parse s = ret (Some v')
    /\ toString None v' = ret (Some s)
    /\ ColorSolid_eq v' pure_red = ret true.
Proof.
  apply (toString_parse_round_trip pure_red).
  - left. reflexivity.
  - exists 255. split; [reflexivity |]. rewrite (py_round_IZR 255). lia.
  - exists 0. split; [reflexivity |]. rewrite (py_round_IZR 0). lia.
  - exists 0. split; [reflexivity |]. rewrite (py_round_IZR 0). lia.
  - intros w H. discriminate H.
Defined.

(** ** Gradients: the short cuts *)

(** No nodes, one colour, or no step: the argument comes back as it is. *)
Lemma interpolation_short_cuts (steps : Z) (c : ColorSolid)
    (l : list ColorSolid) :
  linearInterpHsi NoNodes steps = ret NoNodes
  /\ linearInterpRgbw NoNodes steps = ret NoNodes
  /\ linearInterpHsi (OneNode c) steps = ret (OneNode c)
  /\ linearInterpRgbw (OneNode c) steps = ret (OneNode c)
  /\ linearInterpHsi (NodeList l) 0 = ret (NodeList l)
  /\ linearInterpRgbw (NodeList l) 0 = ret (NodeList l).
Proof. repeat split. Qed.

Lemma interpolation_empty_list (steps : Z) :
  steps <> 0%Z ->
  linearInterpHsi (NodeList []) steps = raise IndexError
  /\ linearInterpRgbw (NodeList []) steps = raise IndexError.
Proof.
  intros H. apply Z.eqb_neq in H.
  unfold linearInterpHsi, linearInterpRgbw. rewrite H.
  split; reflexivity.
Qed.

(** The empty list is a sequence the [nodes] setter accepts. *)
Lemma ColorGradient_of_no_node (mode : interpMode) :
  mode <> interp_other ->
  ColorGradient_init (NodeList []) 1 mode = raise IndexError.
Proof. destruct mode; intros H; [reflexivity | reflexivity | contradiction]. Qed.

(** C5. On the empty list with one step, neither interpolation returns
    an empty result: both reach [nodes[-1]] and raise [IndexError].  (The
    other short cuts of the claim hold: [interpolation_short_cuts].) *)
Theorem interpolation_of_no_node_raises :
  linearInterpHsi (NodeList []) 1 = raise IndexError
  /\ linearInterpRgbw (NodeList []) 1 = raise IndexError.
Proof. split; reflexivity. Qed.

(** ** The RGBW gradient from red to green *)

Lemma lerp_round_inside (p a b : R) :
  0 <= p <= 1 ->
  lerp_round p (Some a) (Some b) = ret (IZR (py_round (a + (b - a) * p))).
Proof.
  intros Hp. unfold lerp_round, need. mret. mret.
  rewrite lerp_unit_inside by exact Hp. mret. reflexivity.
Qed.

Lemma py_round_127_5 : py_round (255 / 2) = 128%Z.
Proof.
  replace (255 / 2) with (IZR 127 + 1 / 2) by lra.
  apply py_round_half_odd. reflexivity.
Qed.

Lemma rgbw_midpoint (ha sa ia hb sb ib : option R) :
  let a := mkColorSolid (Some 255) (Some 0) (Some 0) (Some 0)
             ha sa ia true (Some rgbw) in
  let b := mkColorSolid (Some 0) (Some 255) (Some 0) (Some 0)
             hb sb ib true (Some rgbw) in
  exists hm sm im hl sl il,
    linearInterpRgbw (NodeList [a; b]) 1
    = ret (NodeList
             [a;
              mkColorSolid (Some 128) (Some 128) (Some 0) (Some 0)
                (Some hm) (Some sm) (Some im) true (Some rgbw);
              mkColorSolid (Some 0) (Some 255) (Some 0) (Some 0)
                (Some hl) (Some sl) (Some il) true (Some rgbw)]).
Proof.
  intros a b. unfold linearInterpRgbw.
  change (1 =? 0)%Z with false. cbv iota.
  change (range_from_0 1) with [0%Z].
  cbn [pairs mapM existsb].
  rewrite py_div_ok by lra.  mret.
  unfold a, b, red, green, blue, white, enableWhite.
  cbn [_red _green _blue _white _enableWhite orb].
  rewrite !lerp_round_inside by lra. 
  replace (255 + (0 - 255) * ((0 + 1) / (1 + 1))) with (255 / 2) by field.
  replace (0 + (255 - 0) * ((0 + 1) / (1 + 1))) with (255 / 2) by field.
  replace (0 + (0 - 0) * ((0 + 1) / (1 + 1))) with 0 by field.
  rewrite py_round_127_5, (py_round_IZR 0).
  mret. mret. mret. mret. mret.
  destruct (ColorSolid_init_rgbw 128 128 0 (Some 0)
              default_hue default_saturation default_intensity)
    as (hm & sm & im & Em); try (unfold opt_channel, channel; lra).
  rewrite Em. mret. mret. mret. mret. mret.
  unfold last_node. cbn [map last].
  unfold copy, selects. cbn [_inputType inputType_eqb orb].
  unfold red, green, blue, white.
  cbn [_red _green _blue _white _enableWhite].
  destruct (ColorSolid_init_rgbw 0 255 0 (Some 0)
              default_hue default_saturation default_intensity)
    as (hl & sl & il & El); try (unfold opt_channel, channel; lra).
  unfold default_enableWhite. rewrite El. mret. mret. mret.
  exists hm, sm, im, hl, sl, il. reflexivity.
Qed.

Lemma parse_rgbw_bytes (s : string) (r g b w : Z) :
  String.length s = 9%nat -> lower_startswith s "c" = true ->
  map int16 (fields 2 s) = [Some r; Some g; Some b; Some w] ->
  (0 <= r <= 255)%Z -> (0 <= g <= 255)%Z -> (0 <= b <= 255)%Z ->
  (0 <= w <= 255)%Z ->
  exists h st i,
    parse s
    = ret (Some (mkColorSolid (Some (IZR r)) (Some (IZR g)) (Some (IZR b))
                   (Some (IZR w)) (Some h) (Some st) (Some i)
                   true (Some rgbw))).
Proof.
  intros Hlen Hc Hf Hr Hg Hb Hw.
  rewrite parse_framed.
  - unfold descriptor_fields, build. rewrite Hc, Hf.
    cbn [all_some option_map].
    destruct (ColorSolid_init_rgbw (IZR r) (IZR g) (IZR b) (Some (IZR w))
                default_hue default_saturation default_intensity)
      as (h & st & i & E); try (apply channel_IZR; assumption).
    unfold default_enableWhite. rewrite E. mret. eauto.
  - rewrite Hlen. lia.
  - unfold well_framed. rewrite Hc, Hlen. reflexivity.
Qed.

Lemma toString_rgbw_bytes (r g b w : Z) (h st i : option R) :
  toString None
    (mkColorSolid (Some (IZR r)) (Some (IZR g)) (Some (IZR b))
       (Some (IZR w)) h st i true (Some rgbw))
  = ret (Some (String "c" (format_hex 2 r ++ format_hex 2 g
                             ++ format_hex 2 b ++ format_hex 2 w)%string)).
Proof.
  unfold toString, selects. cbn [_inputType inputType_eqb orb].
  unfold red, green, blue, white.
  cbn [_red _green _blue _white _enableWhite].
  rewrite !round_field_IZR. mret. mret. mret.
  rewrite py_round_IZR. reflexivity.
Qed.

Lemma red_green_gradient_encodings :
  rgbw_gradient_of "cff000000" "c00ff0000" 1
  = ret [Some "cff000000"; Some "c80800000"; Some "c00ff0000"]%string.
Proof.
  unfold rgbw_gradient_of.
  destruct (parse_rgbw_bytes "cff000000" 255 0 0 0)
    as (ha & sa & ia & Ea); try reflexivity; try lia.
  destruct (parse_rgbw_bytes "c00ff0000" 0 255 0 0)
    as (hb & sb & ib & Eb); try reflexivity; try lia.
  rewrite Ea. mret. rewrite Eb. mret.
  destruct (rgbw_midpoint (Some ha) (Some sa) (Some ia)
              (Some hb) (Some sb) (Some ib))
    as (hm & sm & im & hl & sl & il & Eg).
  cbv zeta in Eg. rewrite Eg. mret.
  unfold encodings. cbn [mapM].
  rewrite (toString_rgbw_bytes 255 0 0 0).
  rewrite (toString_rgbw_bytes 128 128 0 0).
  rewrite (toString_rgbw_bytes 0 255 0 0).
  mret. mret. mret. mret. mret. mret. reflexivity.
Qed.

(** C4, as the code has it: the gradient is not the sequence of the
    specification; the middle colour is not [c7f7f0000]. *)
Lemma red_green_midpoint_is_not_7f :
  rgbw_gradient_of "cff000000" "c00ff0000" 1
  <> ret [Some "cff000000"; Some "c7f7f0000"; Some "c00ff0000"]%string.
Proof.
  rewrite red_green_gradient_encodings. intros H. discriminate H.
Qed.

(** C4, amended.  The RGBW gradient between [cff000000] and [c00ff0000]
    with one step is [cff000000, c80800000, c00ff0000]: red and green of
    the middle colour are 127.5 rounded to 128 (0x80), blue and white
    are 0. *)
Theorem red_green_midpoint_is_80 :
  rgbw_gradient_of "cff000000" "c00ff0000" 1
  = ret [Some "cff000000"; Some "c80800000"; Some "c00ff0000"]%string.
Proof. exact red_green_gradient_encodings. Qed.

(** * Further properties *)

(** ** Interpolation stays between its end values *)

Lemma lerp_value (x x0 x1 y0 y1 : R) :
  x0 < x1 ->
  exists t, 0 <= t <= 1
    /\ (x <= x0 -> t = 0) /\ (x1 <= x -> t = 1)
    /\ lerp x x0 x1 y0 y1 = ret (y0 + (y1 - y0) * t).
Proof.
  intros H. unfold lerp. rewrite py_div_ok by lra. mret.
  assert (Hd : 0 < x1 - x0) by lra.
  destruct (Rgt_dec x x1) as [H1 | H1].
  - destruct (Rlt_dec x1 x0); [lra |].
    exists ((x1 - x0) / (x1 - x0)).
    replace ((x1 - x0) / (x1 - x0)) with 1 by (field; lra).
    repeat split; try lra. 
  - destruct (Rlt_dec x x0) as [H0 | H0].
    + exists ((x0 - x0) / (x1 - x0)).
      replace ((x0 - x0) / (x1 - x0)) with 0 by (field; lra).
      repeat split; try lra. 
    + exists ((x - x0) / (x1 - x0)).
      assert (E1 : x1 <= x -> (x - x0) / (x1 - x0) = 1).
      { intros Hx. assert (x = x1) by lra. subst x. field. lra. }
      assert (E0 : x <= x0 -> (x - x0) / (x1 - x0) = 0).
      { intros Hx. assert (x = x0) by lra. subst x. field. lra. }
      repeat split; try assumption.
      * apply Rmult_le_pos; [lra |]. left. apply Rinv_0_lt_compat. lra.
      * apply Rmult_le_reg_r with (x1 - x0); [lra |].
        unfold Rdiv. rewrite Rmult_assoc, Rinv_l by lra. lra.
Qed.

(** Between two distinct abscissas in increasing order, [lerp] always
    returns; the value lies between [y0] and [y1], it is [y0] at and
    before [x0] and [y1] at and after [x1]. *)
Theorem lerp_between (x x0 x1 y0 y1 : R) :
  x0 < x1 ->
  exists v,
    lerp x x0 x1 y0 y1 = ret v
    /\ Rmin y0 y1 <= v <= Rmax y0 y1
    /\ (x <= x0 -> v = y0) /\ (x1 <= x -> v = y1).
Proof.
  intros H. destruct (lerp_value x x0 x1 y0 y1 H) as (t & Ht & T0 & T1 & E).
  exists (y0 + (y1 - y0) * t). split; [exact E |]. split; [| split].
  - unfold Rmin, Rmax. destruct (Rle_dec y0 y1); nra.
  - intros Hx. rewrite (T0 Hx). ring.
  - intros Hx. rewrite (T1 Hx). ring.
Qed.

Lemma lerp_between_witness :
  exists v,
    lerp (1 / 4) 0 2 10 20 = ret v
    /\ Rmin 10 20 <= v <= Rmax 10 20
    /\ (1 / 4 <= 0 -> v = 10) /\ (2 <= 1 / 4 -> v = 20).
Proof. apply (lerp_between (1 / 4) 0 2 10 20). lra. Defined.

(** ** HSI to RGB[W]: every input is converted *)

Lemma py_mod_shift (x m : R) (k : Z) :
  m <> 0 -> py_mod (x + m * IZR k) m = py_mod x m.
Proof.
  intros Hm. unfold py_mod.
  replace ((x + m * IZR k) / m) with (x / m + IZR k) by (field; exact Hm).
  rewrite Zfloor_addz, plus_IZR. ring.
Qed.

Lemma hsi2rgb_in_range (h s i : R) :
  exists r g b,
    hsi2rgb h s i = ret (r, g, b)
    /\ channel r /\ channel g /\ channel b.
Proof.
  unfold hsi2rgb, channel. cbv zeta.
  destruct (radians_bounds h) as [H0 H1].
  set (a := PI * py_mod h 360 / 180) in *.
  destruct (Rlt_dec a (2 / 3 * PI)) as [H2 | H2];
    [| destruct (Rlt_dec a (4 / 3 * PI)) as [H3 | H3]];
    rewrite !py_div_ok by (apply cos_sector; lra);
    mret; mret; mret;
    do 3 eexists; (split; [reflexivity |]);
    repeat split; apply clamp_bounds; lra.
Qed.

Lemma hsi2rgbw_in_range (h s i : R) :
  exists r g b w,
    hsi2rgbw h s i = ret (r, g, b, w)
    /\ channel r /\ channel g /\ channel b /\ channel w.
Proof.
  unfold hsi2rgbw, channel. cbv zeta.
  destruct (radians_bounds h) as [H0 H1].
  set (a := PI * py_mod h 360 / 180) in *.
  destruct (Rlt_dec a (2 / 3 * PI)) as [H2 | H2];
    [| destruct (Rlt_dec a (4 / 3 * PI)) as [H3 | H3]];
    rewrite !py_div_ok by (apply cos_sector; lra);
    mret; mret;
    do 4 eexists; (split; [reflexivity |]);
    repeat split; apply clamp_bounds; lra.
Qed.

(** [hsi2rgb] returns for every hue, saturation and intensity, and
    each channel it returns lies in 0..255. *)
Theorem hsi2rgb_channels (h s i : R) :
  exists r g b,
    hsi2rgb h s i = ret (r, g, b)
    /\ channel r /\ channel g /\ channel b.
Proof. exact (hsi2rgb_in_range h s i). Qed.

(** [hsi2rgbw] returns for every hue, saturation and intensity, and
    each of the four channels it returns lies in 0..255. *)
Theorem hsi2rgbw_channels (h s i : R) :
  exists r g b w,
    hsi2rgbw h s i = ret (r, g, b, w)
    /\ channel r /\ channel g /\ channel b /\ channel w.
Proof. exact (hsi2rgbw_in_range h s i). Qed.

(** The hue is an angle: adding whole turns of 360 degrees changes
    the result of neither conversion. *)
Theorem hue_is_periodic (h s i : R) (k : Z) :
  hsi2rgb (h + 360 * IZR k) s i = hsi2rgb h s i
  /\ hsi2rgbw (h + 360 * IZR k) s i = hsi2rgbw h s i.
Proof.
  unfold hsi2rgb, hsi2rgbw.
  rewrite py_mod_shift by lra. split; reflexivity.
Qed.

(** Without intensity there is no light: an intensity of 0 or less
    gives black, whatever the hue and the saturation. *)
Theorem no_intensity_is_black (h s i : R) :
  i <= 0 ->
  hsi2rgb h s i = ret (0, 0, 0) /\ hsi2rgbw h s i = ret (0, 0, 0, 0).
Proof.
  intros Hi. unfold hsi2rgb, hsi2rgbw. cbv zeta.
  rewrite (clamp_low i 3), (clamp_low i 4) by exact Hi.
  destruct (radians_bounds h) as [H0 H1].
  set (a := PI * py_mod h 360 / 180) in *.
  destruct (Rlt_dec a (2 / 3 * PI)) as [H2 | H2];
    [| destruct (Rlt_dec a (4 / 3 * PI)) as [H3 | H3]];
    rewrite !py_div_ok by (apply cos_sector; lra);
    (split; [mret; mret; mret | mret; mret]);
    rewrite !(clamp_low _ 255) by (apply Req_le; unfold Rdiv; ring); reflexivity.
Qed.

Lemma no_intensity_is_black_witness :
  hsi2rgb 200 (1 / 2) 0 = ret (0, 0, 0)
  /\ hsi2rgbw 200 (1 / 2) 0 = ret (0, 0, 0, 0).
Proof. apply (no_intensity_is_black 200 (1 / 2) 0). lra. Defined.

(** Without saturation [hsi2rgbw] lights the white channel only:
    red, green and blue are 0 and white is the intensity, clamped to
    [0, 4], times 255, clamped to 255. *)
Theorem no_saturation_is_white (h s i : R) :
  s <= 0 ->
  hsi2rgbw h s i = ret (0, 0, 0, clamp (clamp i 4 * 255) 255).
Proof.
  intros Hs. unfold hsi2rgbw. cbv zeta.
  rewrite (clamp_low s 1) by exact Hs.
  destruct (radians_bounds h) as [H0 H1].
  set (a := PI * py_mod h 360 / 180) in *.
  destruct (Rlt_dec a (2 / 3 * PI)) as [H2 | H2];
    [| destruct (Rlt_dec a (4 / 3 * PI)) as [H3 | H3]];
    rewrite !py_div_ok by (apply cos_sector; lra);
    mret; mret;
    rewrite !(clamp_low _ 255) by (apply Req_le; unfold Rdiv; ring);
    replace ((1 - 0) * clamp i 4 * 255) with (clamp i 4 * 255) by ring;
    reflexivity.
Qed.

Lemma no_saturation_is_white_witness :
  hsi2rgbw 75 0 (1 / 2) = ret (0, 0, 0, clamp (clamp (1 / 2) 4 * 255) 255).
Proof. apply (no_saturation_is_white 75 0 (1 / 2)). lra. Defined.

(** ** RGB[W] to HSI: the ranges of the results *)

Lemma Rmin3_le_mean (r g b : R) : Rmin r (Rmin g b) <= (r + g + b) / 3.
Proof.
  pose proof (Rmin_l r (Rmin g b)). pose proof (Rmin_r r (Rmin g b)).
  pose proof (Rmin_l g b). pose proof (Rmin_r g b). lra.
Qed.

Lemma Rmin3_nonneg (r g b : R) :
  0 <= r -> 0 <= g -> 0 <= b -> 0 <= Rmin r (Rmin g b).
Proof. intros. repeat apply Rmin_glb; assumption. Qed.

(** One minus the ratio of the least channel to the mean. *)
Lemma rgb_saturation_range (m mean : R) :
  0 <= m <= mean -> 0 < mean -> 0 <= 1 - m / mean <= 1.
Proof.
  intros [H0 H1] Hm.
  assert (Hq0 : 0 <= m / mean).
  { apply Rmult_le_pos; [lra |]. left. apply Rinv_0_lt_compat. exact Hm. }
  assert (Hq1 : m / mean <= 1).
  { apply Rmult_le_reg_r with mean; [exact Hm |].
    unfold Rdiv. rewrite Rmult_assoc, Rinv_l by lra. lra. }
  lra.
Qed.

Lemma degrees_range (x : R) : 0 <= x <= 2 * PI -> 0 <= x * 180 / PI <= 360.
Proof.
  intros [H0 H1]. pose proof PI_RGT_0 as HPI.
  assert (Hi : 0 < / PI) by (apply Rinv_0_lt_compat; lra).
  split.
  - apply Rmult_le_pos; [| lra]. lra.
  - apply Rmult_le_reg_r with PI; [lra |].
    unfold Rdiv. rewrite Rmult_assoc, Rinv_l by lra. lra.
Qed.

Lemma rgb2hsi_ranges (red green blue : R) :
  channel red -> channel green -> channel blue ->
  exists h s,
    rgb2hsi red green blue = ret (h, s, (red + green + blue) / 255)
    /\ 0 <= h <= 360 /\ 0 <= s <= 1
    /\ (red = green -> green = blue -> h = 0 /\ s = 0).
Proof.
  unfold channel. intros Hr Hg Hb. unfold rgb2hsi. cbv zeta.
  pose proof PI_RGT_0 as HPI.
  assert (Hr' : 0 <= red / 255 <= 1) by lra.
  assert (Hg' : 0 <= green / 255 <= 1) by lra.
  assert (Hb' : 0 <= blue / 255 <= 1) by lra.
  set (r := red / 255) in *. set (g := green / 255) in *.
  set (b := blue / 255) in *.
  rewrite py_sqrt_ok by (apply radicand_nonneg).
  pose proof (Rmin3_le_mean r g b) as Hmin.
  pose proof (Rmin3_nonneg r g b) as Hmin0.
  set (m := Rmin r (Rmin g b)) in *.
  assert (Hsat : exists s,
             (if Req_dec_T ((r + g + b) / 3) 0 then ret 0
              else q <- py_div m ((r + g + b) / 3) ;; ret (1 - q))
             = ret s /\ 0 <= s <= 1 /\ (r = g -> g = b -> s = 0)).
  { destruct (Req_dec_T ((r + g + b) / 3) 0) as [Hi | Hi].
    - exists 0. repeat split; lra.
    - rewrite py_div_ok by exact Hi. mret.
      exists (1 - m / ((r + g + b) / 3)). split; [reflexivity |]. split.
      + apply rgb_saturation_range; lra.
      + intros E1 E2.
        assert (Hr0 : r <> 0) by (intros Z; apply Hi; lra).
        unfold m. rewrite <- E2, <- E1.
        rewrite !(Rmin_left r r) by lra.
        replace ((r + r + r) / 3) with r by field.
        unfold Rdiv. rewrite Rinv_r by exact Hr0. ring. }
  destruct Hsat as (s & Es & Hs & Hs0). rewrite Es. mret. mret.
  pose proof (acos_argument_bounds r g b Hr' Hg' Hb') as Harg.
  unfold radicand in Harg. unfold radicand.
  rewrite py_acos_ok by exact Harg. mret.
  pose proof (acos_bound ((r - g + r - b) / 2
                          * sqrt ((r - g) * (r - g) + (r - b) * (g - b))))
    as Hac.
  set (ac := acos _) in *.
  eexists. exists s. split; [| split; [| split]].
  - apply ret_triple; try reflexivity. unfold r, g, b. field.
  - destruct (Req_dec_T m (Rmax r (Rmax g b))).
    + apply degrees_range. lra.
    + destruct (Rgt_dec b g); apply degrees_range; lra.
  - exact Hs.
  - intros E1 E2. split.
    + assert (Er : r = g) by (unfold r, g; lra).
      assert (Eg : g = b) by (unfold g, b; lra).
      destruct (Req_dec_T m (Rmax r (Rmax g b))) as [_ | Hne].
      * unfold Rdiv. ring.
      * exfalso. apply Hne. unfold m. rewrite <- Eg, <- Er.
        rewrite !(Rmin_left r r), !(Rmax_left r r) by lra. reflexivity.
    + apply Hs0; [unfold r, g | unfold g, b]; lra.
Qed.

Lemma white_share_range (c w : R) : 0 <= c -> 0 < w -> 0 <= c / (c + w) <= 1.
Proof.
  intros Hc Hw.
  assert (Hi : 0 < / (c + w)) by (apply Rinv_0_lt_compat; lra).
  split.
  - apply Rmult_le_pos; lra.
  - apply Rmult_le_reg_r with (c + w); [lra |].
    unfold Rdiv. rewrite Rmult_assoc, Rinv_l by lra. lra.
Qed.

Lemma rgbw2hsi_ranges (red green blue white : option R) :
  opt_channel red -> opt_channel green -> opt_channel blue ->
  opt_channel white ->
  exists h s,
    rgbw2hsi red green blue white
    = ret (h, s, (or0 red + or0 green + or0 blue + or0 white) / 255)
    /\ 0 <= s <= 1.
Proof.
  intros Hr Hg Hb Hw.
  apply or0_channel in Hr, Hg, Hb, Hw.
  unfold rgbw2hsi. cbv zeta.
  set (r := or0 red) in *. set (g := or0 green) in *.
  set (b := or0 blue) in *. set (w := or0 white) in *.
  unfold is0 at 1. destruct (Req_dec_T w 0) as [Hw0 | Hw0].
  { destruct (rgb2hsi_ranges r g b Hr Hg Hb) as (h & s & E & _ & Hs & _).
    exists h, s. split; [| exact Hs]. rewrite E.
    apply ret_triple; try reflexivity. rewrite Hw0. field. }
  unfold channel in *.
  rewrite py_div_ok by lra. mret.
  pose proof (white_share_range (r + g + b) w) as Hshare.
  assert (Hs : 0 <= (r + g + b) / (r + g + b + w) <= 1)
    by (apply Hshare; lra).
  unfold is0.
  destruct (Req_dec_T r 0) as [Hr0 | Hr0];
    destruct (Req_dec_T g 0) as [Hg0 | Hg0];
    destruct (Req_dec_T b 0) as [Hb0 | Hb0]; cbn [andb];
    try (do 2 eexists; split; [reflexivity | exact Hs]).
  - rewrite py_sqrt_ok by apply quadratic_form_nonneg. mret.
    rewrite py_div_ok by (apply sqrt3_times_nonzero; assumption). mret.
    do 2 eexists; split; [reflexivity | exact Hs].
  - rewrite py_sqrt_ok by apply quadratic_form_nonneg. mret.
    rewrite py_div_ok by (apply sqrt3_times_nonzero; assumption). mret.
    do 2 eexists; split; [reflexivity | exact Hs].
  - rewrite py_sqrt_ok by apply quadratic_form_nonneg. mret.
    rewrite py_div_ok by (apply sqrt3_times_nonzero; assumption). mret.
    do 2 eexists; split; [reflexivity | exact Hs].
  - assert (Hr' : 0 <= r / 255 <= 1) by lra.
    assert (Hg' : 0 <= g / 255 <= 1) by lra.
    assert (Hb' : 0 <= b / 255 <= 1) by lra.
    rewrite py_sqrt_ok by (apply radicand_nonneg). mret.
    rewrite py_acos_ok by (apply acos_argument_bounds; assumption). mret.
    rewrite py_div_ok by lra. mret.
    do 2 eexists; split; [reflexivity |].
    pose proof (Rmin3_le_mean (r / 255) (g / 255) (b / 255)) as Hmin.
    pose proof (Rmin3_nonneg (r / 255) (g / 255) (b / 255)) as Hmin0.
    assert (Hq : 0 <= 1 - Rmin (r / 255) (Rmin (g / 255) (b / 255))
                          / ((r + g + b) / (255 * 3)) <= 1).
    { apply rgb_saturation_range; [| lra].
      split; [apply Hmin0; lra |].
      replace ((r + g + b) / (255 * 3))
        with ((r / 255 + g / 255 + b / 255) / 3) by field.
      exact Hmin. }
    set (q := 1 - _ / _) in *.
    assert (Hk : 0 <= (255 - w) / 255 <= 1) by lra.
    replace (q * (255 - w) / 255) with (q * ((255 - w) / 255)) by field.
    nra.
Qed.

(** On channels in 0..255 [rgb2hsi] returns a hue in [0, 360], a
    saturation in [0, 1] and, as intensity, the sum of the channels over
    255 (three times their mean, up to 3); a grey has hue 0 and
    saturation 0. *)
Theorem rgb2hsi_result_ranges (red green blue : R) :
  channel red -> channel green -> channel blue ->
  exists h s,
    rgb2hsi red green blue = ret (h, s, (red + green + blue) / 255)
    /\ 0 <= h <= 360 /\ 0 <= s <= 1
    /\ (red = green -> green = blue -> h = 0 /\ s = 0).
Proof. exact (rgb2hsi_ranges red green blue). Qed.

Lemma rgb2hsi_result_ranges_witness :
  exists h s,
    rgb2hsi 10 200 30 = ret (h, s, (10 + 200 + 30) / 255)
    /\ 0 <= h <= 360 /\ 0 <= s <= 1
    /\ (10 = 200 -> 200 = 30 -> h = 0 /\ s = 0).
Proof.
  apply (rgb2hsi_result_ranges 10 200 30); unfold channel; lra.
Defined.

(** On channels in 0..255, a missing one counting as 0, [rgbw2hsi]
    returns; the saturation is in [0, 1] and the intensity is the sum of
    the four channels over 255. *)
Theorem rgbw2hsi_result_ranges (red green blue white : option R) :
  opt_channel red -> opt_channel green -> opt_channel blue ->
  opt_channel white ->
  exists h s,
    rgbw2hsi red green blue white
    = ret (h, s, (or0 red + or0 green + or0 blue + or0 white) / 255)
    /\ 0 <= s <= 1.
Proof. exact (rgbw2hsi_ranges red green blue white). Qed.

Lemma rgbw2hsi_result_ranges_witness :
  exists h s,
    rgbw2hsi (Some 10) (Some 200) None (Some 30)
    = ret (h, s, (or0 (Some 10) + or0 (Some 200) + or0 None
                  + or0 (Some 30)) / 255)
    /\ 0 <= s <= 1.
Proof.
  apply (rgbw2hsi_result_ranges (Some 10) (Some 200) None (Some 30));
    unfold opt_channel, channel; try lra; exact I.
Defined.

(** ** HSI to RGBW and back *)

Lemma clamp_id (x hi : R) : 0 <= x <= hi -> clamp x hi = x.
Proof.
  intros [H0 H1]. unfold clamp.
  destruct (Rgt_dec x 0); [| lra]. destruct (Rlt_dec x hi); lra.
Qed.

(** In a sector the denominator is [cos x / 2 + sqrt 3 / 2 * sin x]. *)
Lemma cos_sector_expand (x : R) :
  cos (PI / 3 - x) = cos x / 2 + sqrt 3 / 2 * sin x.
Proof. rewrite cos_minus, cos_PI3, sin_PI3. field. Qed.

Lemma cos_sector_pos (x : R) : 0 <= x < 2 / 3 * PI -> 0 < cos (PI / 3 - x).
Proof.
  intros [H0 H1]. pose proof PI_RGT_0 as HPI. apply cos_gt_0; lra.
Qed.

(** The ratio of the two cosines runs from 2 down to -1 over a sector. *)
Lemma sector_ratio_bounds (x : R) :
  0 <= x < 2 / 3 * PI -> -1 <= cos x / cos (PI / 3 - x) <= 2.
Proof.
  intros Hx. pose proof PI_RGT_0 as HPI.
  pose proof (cos_sector_pos x Hx) as Hd.
  pose proof (cos_sector_expand x) as Ed.
  assert (H3 : 0 < sqrt 3) by (apply sqrt_lt_R0; lra).
  assert (H33 : sqrt 3 * sqrt 3 = 3) by (apply sqrt_sqrt; lra).
  assert (Hs : 0 <= sin x) by (apply sin_ge_0; lra).
  assert (Hs' : 0 <= sin (x + PI / 3)) by (apply sin_ge_0; lra).
  rewrite sin_plus, cos_PI3, sin_PI3 in Hs'.
  assert (Hs3 : 0 <= sqrt 3 * (sin x * (1 / 2) + cos x * (sqrt 3 / 2)))
    by (apply Rmult_le_pos; lra).
  set (d := cos (PI / 3 - x)) in *.
  assert (Hi : 0 < / d) by (apply Rinv_0_lt_compat; exact Hd).
  split.
  - apply Rmult_le_reg_r with d; [exact Hd |].
    unfold Rdiv. rewrite Rmult_assoc, Rinv_l by lra.
    rewrite Ed. nra.
  - apply Rmult_le_reg_r with d; [exact Hd |].
    unfold Rdiv. rewrite Rmult_assoc, Rinv_l by lra.
    rewrite Ed. nra.
Qed.

(** The two lit channels of a sector are non-negative and add up to
    [k * 3]. *)
Lemma sector_channels (k c : R) :
  0 <= k -> -1 <= c <= 2 ->
  0 <= k * (1 + c) <= k * 3 /\ 0 <= k * (1 + (1 - c)) <= k * 3.
Proof. intros Hk Hc. split; split; nra. Qed.

(** With white present and a channel at 0, [rgbw2hsi] returns the share
    of the colours as saturation and the sum over 255 as intensity. *)
Lemma rgbw2hsi_with_a_zero (r g b w : R) :
  0 <= r -> 0 <= g -> 0 <= b -> 0 < w ->
  r = 0 \/ g = 0 \/ b = 0 ->
  exists h,
    rgbw2hsi (Some r) (Some g) (Some b) (Some w)
    = ret (h, (r + g + b) / (r + g + b + w), (r + g + b + w) / 255).
Proof.
  intros Hr Hg Hb Hw Hz.
  unfold rgbw2hsi. cbn [or0].
  rewrite (is0_false w) by lra.
  rewrite py_div_ok by lra. mret.
  unfold is0.
  destruct (Req_dec_T r 0) as [Hr0 | Hr0];
    destruct (Req_dec_T g 0) as [Hg0 | Hg0];
    destruct (Req_dec_T b 0) as [Hb0 | Hb0]; cbn [andb];
    try (eexists; reflexivity).
  - rewrite py_sqrt_ok by apply quadratic_form_nonneg. mret.
    rewrite py_div_ok by (apply sqrt3_times_nonzero; assumption). mret.
    eexists; reflexivity.
  - rewrite py_sqrt_ok by apply quadratic_form_nonneg. mret.
    rewrite py_div_ok by (apply sqrt3_times_nonzero; assumption). mret.
    eexists; reflexivity.
  - rewrite py_sqrt_ok by apply quadratic_form_nonneg. mret.
    rewrite py_div_ok by (apply sqrt3_times_nonzero; assumption). mret.
    eexists; reflexivity.
  - exfalso. destruct Hz as [Hz | [Hz | Hz]]; contradiction.
Qed.

(** Without white, a channel at 0 and some light: saturation 1. *)
Lemma rgb2hsi_with_a_zero (r g b : R) :
  channel r -> channel g -> channel b ->
  r = 0 \/ g = 0 \/ b = 0 -> 0 < r + g + b ->
  exists h, rgb2hsi r g b = ret (h, 1, (r + g + b) / 255).
Proof.
  intros Hr Hg Hb Hz Hsum. unfold channel in *.
  unfold rgb2hsi. cbv zeta.
  assert (Hr' : 0 <= r / 255 <= 1) by lra.
  assert (Hg' : 0 <= g / 255 <= 1) by lra.
  assert (Hb' : 0 <= b / 255 <= 1) by lra.
  assert (Hmin : Rmin (r / 255) (Rmin (g / 255) (b / 255)) = 0).
  { apply Rle_antisym.
    - destruct Hz as [Hz | [Hz | Hz]]; subst.
      + replace (0 / 255) with 0 by field. apply Rmin_l.
      + replace (0 / 255) with 0 by field.
        eapply Rle_trans; [apply Rmin_r | apply Rmin_l].
      + replace (0 / 255) with 0 by field.
        eapply Rle_trans; [apply Rmin_r | apply Rmin_r].
    - apply Rmin3_nonneg; lra. }
  rewrite Hmin.
  destruct (Req_dec_T ((r / 255 + g / 255 + b / 255) / 3) 0) as [Hi | Hi];
    [lra |].
  rewrite py_div_ok by exact Hi. mret. mret.
  rewrite py_sqrt_ok by (apply radicand_nonneg). mret.
  pose proof (acos_argument_bounds _ _ _ Hr' Hg' Hb') as Harg.
  unfold radicand in Harg.
  rewrite py_acos_ok by exact Harg. mret.
  eexists. apply ret_triple; [reflexivity | |]; field. lra.
Qed.

Lemma rgbw2hsi_recovers (r g b w s i : R) :
  0 <= s <= 1 -> 0 < i <= 1 ->
  0 <= r -> 0 <= g -> 0 <= b ->
  r = 0 \/ g = 0 \/ b = 0 ->
  r + g + b = s * i * 255 -> w = (1 - s) * i * 255 ->
  exists h', rgbw2hsi (Some r) (Some g) (Some b) (Some w) = ret (h', s, i).
Proof.
  intros Hs Hi Hr Hg Hb Hz Hsum Hw.
  assert (Hsi : 0 <= s * i <= 1) by nra.
  destruct (Req_dec_T s 1) as [Hs1 | Hs1].
  - assert (Hw0 : w = 0) by (rewrite Hw, Hs1; ring).
    unfold rgbw2hsi. cbn [or0]. rewrite (is0_true w) by exact Hw0.
    destruct (rgb2hsi_with_a_zero r g b) as (h' & E);
      unfold channel; try lra; try assumption; try nra.
    exists h'. rewrite E. apply ret_triple; try reflexivity;
      [symmetry; exact Hs1 |]. rewrite Hsum, Hs1. field.
  - assert (Hw0 : 0 < w) by (rewrite Hw; nra).
    destruct (rgbw2hsi_with_a_zero r g b w) as (h' & E); try assumption.
    exists h'. rewrite E. apply ret_triple; try reflexivity.
    + rewrite Hsum, Hw. field. lra.
    + rewrite Hsum, Hw. field.
Qed.

(** A saturation in [0, 1] and an intensity in (0, 1] survive the
    conversion to RGBW and back, whatever the hue: [rgbw2hsi] applied to
    the four channels of [hsi2rgbw] returns the same saturation and the
    same intensity. *)
Theorem hsi2rgbw_rgbw2hsi (h s i : R) :
  0 <= s <= 1 -> 0 < i <= 1 ->
  exists r g b w h',
    hsi2rgbw h s i = ret (r, g, b, w)
    /\ rgbw2hsi (Some r) (Some g) (Some b) (Some w) = ret (h', s, i).
Proof.
  intros Hs Hi. unfold hsi2rgbw. cbv zeta.
  rewrite (clamp_id s 1) by lra. rewrite (clamp_id i 4) by lra.
  assert (Hk : 0 <= s * i * 85 <= 85) by nra.
  assert (Hw : 0 <= (1 - s) * i * 255 <= 255) by nra.
  rewrite (clamp_id ((1 - s) * i * 255) 255) by exact Hw.
  destruct (radians_bounds h) as [H0 H1].
  set (a := PI * py_mod h 360 / 180) in *.
  destruct (Rlt_dec a (2 / 3 * PI)) as [H2 | H2];
    [| destruct (Rlt_dec a (4 / 3 * PI)) as [H3 | H3]].
  - pose proof (sector_ratio_bounds a) as Hc.
    rewrite py_div_ok by (apply cos_sector; lra). mret. mret.
    set (c := cos a / cos (PI / 3 - a)) in *.
    destruct (sector_channels (s * i * 85) c) as [Hp Hq]; [lra | lra |].
    replace (s * i / 3 * (1 + c) * 255) with (s * i * 85 * (1 + c)) by field.
    replace (s * i / 3 * (1 + (1 - c)) * 255)
      with (s * i * 85 * (1 + (1 - c))) by field.
    rewrite !clamp_id by lra.
    destruct (rgbw2hsi_recovers (s * i * 85 * (1 + c))
                (s * i * 85 * (1 + (1 - c))) 0 ((1 - s) * i * 255) s i)
      as (h' & E); try lra; try (right; right; reflexivity).
    do 4 eexists. exists h'. split; [reflexivity | exact E].
  - pose proof (sector_ratio_bounds (a - 2 / 3 * PI)) as Hc.
    rewrite py_div_ok by (apply cos_sector; lra). mret. mret.
    set (c := cos (a - 2 / 3 * PI) / cos (PI / 3 - (a - 2 / 3 * PI))) in *.
    destruct (sector_channels (s * i * 85) c) as [Hp Hq]; [lra | lra |].
    replace (s * i / 3 * (1 + c) * 255) with (s * i * 85 * (1 + c)) by field.
    replace (s * i / 3 * (1 + (1 - c)) * 255)
      with (s * i * 85 * (1 + (1 - c))) by field.
    rewrite !clamp_id by lra.
    destruct (rgbw2hsi_recovers 0 (s * i * 85 * (1 + c))
                (s * i * 85 * (1 + (1 - c))) ((1 - s) * i * 255) s i)
      as (h' & E); try lra; try (left; reflexivity).
    do 4 eexists. exists h'. split; [reflexivity | exact E].
  - pose proof (sector_ratio_bounds (a - 4 / 3 * PI)) as Hc.
    rewrite py_div_ok by (apply cos_sector; lra). mret. mret.
    set (c := cos (a - 4 / 3 * PI) / cos (PI / 3 - (a - 4 / 3 * PI))) in *.
    destruct (sector_channels (s * i * 85) c) as [Hp Hq]; [lra | lra |].
    replace (s * i / 3 * (1 + c) * 255) with (s * i * 85 * (1 + c)) by field.
    replace (s * i / 3 * (1 + (1 - c)) * 255)
      with (s * i * 85 * (1 + (1 - c))) by field.
    rewrite !clamp_id by lra.
    destruct (rgbw2hsi_recovers (s * i * 85 * (1 + (1 - c))) 0
                (s * i * 85 * (1 + c)) ((1 - s) * i * 255) s i)
      as (h' & E); try lra; try (right; left; reflexivity).
    do 4 eexists. exists h'. split; [reflexivity | exact E].
Qed.

Lemma hsi2rgbw_rgbw2hsi_witness :
  exists r g b w h',
    hsi2rgbw 200 (1 / 2) (3 / 4) = ret (r, g, b, w)
    /\ rgbw2hsi (Some r) (Some g) (Some b) (Some w)
       = ret (h', 1 / 2, 3 / 4).
Proof. apply (hsi2rgbw_rgbw2hsi 200 (1 / 2) (3 / 4)); lra. Defined.

(** *** The hue comes back too, when white is lit *)




Section Back_from_a_sector.

Variables x s i : R.
Hypothesis Hx : 0 <= x < 2 / 3 * PI.
Hypothesis Hs : 0 < s < 1.
Hypothesis Hi : 0 < i.






End Back_from_a_sector.



(** ** Encoding, then decoding: the HSI form *)

Lemma hex3_round_trips_all :
  forallb hex3_round_trips (map Z.of_nat (seq 0 4096)) = true.
Proof. vm_compute. reflexivity. Qed.

Lemma format_hex_3 (n : Z) :
  (0 <= n <= 4095)%Z ->
  exists a b c,
    format_hex 3 n = String a (String b (String c EmptyString))
    /\ int16 (String a (String b (String c EmptyString))) = Some n
    /\ Ascii.eqb (lower_ascii c) "w" = false.
Proof.
  intros Hn.
  assert (H : hex3_round_trips n = true).
  { pose proof hex3_round_trips_all as Hall.
    rewrite forallb_forall in Hall. apply Hall.
    apply in_map_iff. exists (Z.to_nat n). split; [lia |].
    apply in_seq. lia. }
  unfold hex3_round_trips in H.
  destruct (format_hex 3 n) as [| a [| b [| c [| ? ?]]]]; try discriminate H.
  exists a, b, c. split; [reflexivity |].
  destruct (int16 (String a (String b (String c EmptyString)))) as [m |];
    [| discriminate H].
  apply andb_true_iff in H. destruct H as [H1 H2].
  apply Z.eqb_eq in H1. apply negb_true_iff in H2.
  split; [congruence | exact H2].
Qed.

(** Rounding keeps a number between the integers that bound it. *)
Lemma py_round_between (a b : Z) (x : R) :
  IZR a <= x <= IZR b -> (a <= py_round x <= b)%Z.
Proof.
  intros [Ha Hb]. unfold py_round.
  pose proof (Zfloor_lub a x Ha) as Hfa.
  destruct (Zfloor_bound x) as [Hf0 Hf1].
  assert (Hfb : (Zfloor x <= b)%Z).
  { apply le_IZR. lra. }
  assert (Hnext : IZR (Zfloor x) < x -> (Zfloor x + 1 <= b)%Z).
  { intros Hlt.
    destruct (Z.eq_dec (Zfloor x) b) as [E | E]; [rewrite E in Hlt; lra |].
    lia. }
  destruct (Rlt_dec (x - IZR (Zfloor x)) (1 / 2)); [lia |].
  destruct (Rlt_dec (1 / 2) (x - IZR (Zfloor x))).
  - split; [lia | apply Hnext; lra].
  - destruct (Z.even (Zfloor x)); [lia |].
    split; [lia | apply Hnext; lra].
Qed.

(** The hue that [toString] writes: 360 stays, the rest is reduced. *)
Lemma encoded_hue_range (h : R) :
  (0 <= py_round (if Req_dec_T h 360 then 360 else py_mod h 360) <= 360)%Z.
Proof.
  apply py_round_between.
  destruct (Req_dec_T h 360); [lra |].
  destruct (py_mod_bounds h 360); lra.
Qed.

(** Reading the written hue again gives the same field. *)
Lemma encoded_hue_stable (n : Z) :
  (0 <= n <= 360)%Z ->
  py_round (if Req_dec_T (IZR n) 360 then 360 else py_mod (IZR n) 360) = n.
Proof.
  intros Hn. destruct (Req_dec_T (IZR n) 360) as [E | E].
  - apply eq_IZR in E. rewrite (py_round_IZR 360). lia.
  - rewrite py_mod_small, py_round_IZR; [reflexivity |].
    assert (n <> 360%Z) by (intros ->; apply E; reflexivity).
    split; [apply (IZR_le 0); lia | apply (IZR_lt n 360); lia].
Qed.

Lemma round_trip_hsi (v : ColorSolid) (h : R) :
  _inputType v = Some hsi -> hue v = Some h ->
  is_level (saturation v) -> is_level (intensity v) ->
  exists s v',
    toString None v = ret (Some s)
    /\ parse s = ret (Some v')
    /\ toString None v' = ret (Some s)
    /\ enableWhite v' = enableWhite v.
Proof.
  intros Ht Hh (sv & Es & Bs) (iv & Ei & Bi).
  pose proof (encoded_hue_range h) as Bh.
  set (H := py_round (if Req_dec_T h 360 then 360 else py_mod h 360)) in *.
  destruct (format_hex_3 H) as (h1 & h2 & h3 & Fh & Ih & _); [lia |].
  destruct (format_hex_3 _ Bs) as (s1 & s2 & s3 & Fs & Is & _).
  destruct (format_hex_3 _ Bi) as (i1 & i2 & i3 & Fi & Ii & Wi).
  set (S := py_round (sv * 255)) in *. set (L := py_round (iv * 255)) in *.
  set (body := String h1 (String h2 (String h3 (String s1 (String s2
                 (String s3 (String i1 (String i2 (String i3
                    EmptyString))))))))).
  destruct (ColorSolid_init_hsi None None None None
              (IZR H) (IZR S / 255) (IZR L / 255) (_enableWhite v) eq_refl)
    as (r & g & b & w & Ec).
  assert (Etail : forall (ew : bool) (str : string),
             str = (if ew then String "h" (body ++ "w")%string
                    else String "h" body) ->
             toString None
               (mkColorSolid (Some r) (Some g) (Some b) w
                  (Some (IZR H)) (Some (IZR S / 255)) (Some (IZR L / 255))
                  ew (Some hsi))
             = ret (Some str)).
  { intros ew str ->.
    unfold toString, selects. cbn [_inputType inputType_eqb orb].
    unfold hue, saturation, intensity.
    cbn [_hue _saturation _intensity _enableWhite]. unfold need.
    mret. mret. mret.
    rewrite (encoded_hue_stable H) by lia.
    replace (IZR S / 255 * 255) with (IZR S) by field.
    replace (IZR L / 255 * 255) with (IZR L) by field.
    rewrite !py_round_IZR, Fh, Fs, Fi.
    destruct ew; reflexivity. }
  assert (Eenc : toString None v
                 = ret (Some (if _enableWhite v
                              then String "h" (body ++ "w")%string
                              else String "h" body))).
  { unfold toString, selects. rewrite Ht. cbn [inputType_eqb orb].
    rewrite Hh, Es, Ei. unfold need. mret. mret. mret.
    fold H S L. rewrite Fh, Fs, Fi.
    destruct (_enableWhite v); reflexivity. }
  unfold enableWhite.
  destruct (_enableWhite v) eqn:Ew.
  - exists (String "h" (body ++ "w")%string). eexists.
    split; [exact Eenc |]. split; [| split].
    + rewrite parse_framed; [| cbn; lia | reflexivity].
      change (all_some (map int16
                (descriptor_fields (String "h" (body ++ "w")%string))))
        with (all_some
                [int16 (String h1 (String h2 (String h3 EmptyString)));
                 int16 (String s1 (String s2 (String s3 EmptyString)));
                 int16 (String i1 (String i2 (String i3 EmptyString)))]).
      rewrite Ih, Is, Ii. cbn [all_some option_map].
      unfold build.
      change (lower_startswith (String "h" (body ++ "w")%string) "c")
        with false.
      change (lower_endswith (String "h" (body ++ "w")%string) "w")
        with true.
      cbv iota. unfold index. cbn [nth_error]. mret. mret. mret.
      rewrite Ec. mret. reflexivity.
    + apply Etail. reflexivity.
    + reflexivity.
  - exists (String "h" body). eexists.
    split; [exact Eenc |]. split; [| split].
    + rewrite parse_framed; [| cbn; lia | ].
      * assert (Elast : lower_endswith (String "h" body) "w" = false)
          by exact Wi.
        unfold descriptor_fields.
        change (lower_startswith (String "h" body) "c") with false.
        cbv iota. rewrite Elast.
        change (map int16 (fields 3 (String "h" body)))
          with [int16 (String h1 (String h2 (String h3 EmptyString)));
                int16 (String s1 (String s2 (String s3 EmptyString)));
                int16 (String i1 (String i2 (String i3 EmptyString)))].
        rewrite Ih, Is, Ii. cbn [all_some option_map].
        unfold build.
        change (lower_startswith (String "h" body) "c") with false.
        rewrite Elast.
        cbv iota. unfold index. cbn [nth_error]. mret. mret. mret.
        rewrite Ec. mret. reflexivity.
      * unfold well_framed.
        change (lower_startswith (String "h" body) "c") with false.
        change (lower_startswith (String "h" body) "h") with true.
        assert (Elast : lower_endswith (String "h" body) "w" = false)
          by exact Wi.
        cbv iota. rewrite Elast. reflexivity.
    + apply Etail. reflexivity.
    + reflexivity.
Qed.

(** A colour in HSI form whose saturation and intensity, times 255,
    round into three hex digits is encoded to a string that [parse]
    decodes; the decoded colour has the same encoding, so it is equal
    to the original under [__eq__], and the same [enableWhite]. *)
Theorem toString_parse_round_trip_hsi (v : ColorSolid) (h : R) :
  _inputType v = Some hsi -> hue v = Some h ->
  is_level (saturation v) -> is_level (intensity v) ->
  exists s v',
    toString None v = ret (Some s)
    /\ parse s = ret (Some v')
    /\ toString None v' = ret (Some s)
    /\ ColorSolid_eq v' v = ret true
    /\ enableWhite v' = enableWhite v.
Proof.
  intros Ht Hh Hs Hi.
  destruct (round_trip_hsi v h Ht Hh Hs Hi) as (s & v' & H1 & H2 & H3 & H4).
  exists s, v'. repeat split; try assumption.
  apply (ColorSolid_eq_same v' v (Some s)); assumption.
Qed.

Lemma toString_parse_round_trip_hsi_witness :
  exists s v',
    toString None default_colour = ret (Some s)
    /\ parse s = ret (Some v')
    /\ toString None v' = ret (Some s)
    /\ ColorSolid_eq v' default_colour = ret true
    /\ enableWhite v' = enableWhite default_colour.
Proof.
  apply (toString_parse_round_trip_hsi default_colour 0).
  - reflexivity.
  - reflexivity.
  - exists 1. split; [reflexivity |].
    replace (1 * 255) with (IZR 255) by ring. rewrite py_round_IZR. lia.
  - exists 1. split; [reflexivity |].
    replace (1 * 255) with (IZR 255) by ring. rewrite py_round_IZR. lia.
Defined.

(** ** Copies *)

Lemma is_channel_byte (x : option R) : is_channel x -> is_byte x.
Proof.
  intros (v & -> & Hv). exists v. split; [reflexivity |].
  apply py_round_between. exact Hv.
Qed.

Lemma toString_rgb_form (c : ColorSolid) (r g b : R) :
  _inputType c = Some rgb ->
  red c = Some r -> green c = Some g -> blue c = Some b ->
  toString None c
  = ret (Some (String "c" (format_hex 2 (py_round r)
                           ++ format_hex 2 (py_round g)
                           ++ format_hex 2 (py_round b))%string)).
Proof.
  intros Ht Er Eg Eb. unfold toString, selects.
  rewrite Ht. cbn [inputType_eqb orb].
  rewrite Er, Eg, Eb. unfold round_field, need.
  mret. mret. mret. mret. mret. mret. reflexivity.
Qed.

Lemma toString_rgbw_form (c : ColorSolid) (r g b : R) :
  _inputType c = Some rgbw ->
  red c = Some r -> green c = Some g -> blue c = Some b ->
  toString None c
  = ret (Some (String "c" (format_hex 2 (py_round r)
                           ++ format_hex 2 (py_round g)
                           ++ format_hex 2 (py_round b)
                           ++ format_hex 2
                                (py_round match white c with
                                          | Some w => w
                                          | None => 0
                                          end))%string)).
Proof.
  intros Ht Er Eg Eb. unfold toString, selects.
  rewrite Ht. cbn [inputType_eqb orb].
  rewrite Er, Eg, Eb. unfold round_field, need.
  mret. mret. mret. mret. mret. mret. reflexivity.
Qed.

(** The copy of a colour in RGB form: white is enabled, and absent. *)
Lemma copy_rgb_form (c : ColorSolid) (r g b : R) :
  _inputType c = Some rgb ->
  red c = Some r -> green c = Some g -> blue c = Some b ->
  channel r -> channel g -> channel b ->
  exists h s i,
    copy None c
    = ret (Some (mkColorSolid (Some r) (Some g) (Some b) None
                   (Some h) (Some s) (Some i) true (Some rgbw))).
Proof.
  intros Ht Er Eg Eb Hr Hg Hb. unfold copy, selects.
  rewrite Ht. cbn [inputType_eqb orb].
  rewrite Er, Eg, Eb. unfold default_enableWhite.
  destruct (ColorSolid_init_rgbw r g b None
              default_hue default_saturation default_intensity)
    as (h & s & i & E); try assumption; [exact I |].
  rewrite E. mret. eauto.
Qed.

(** The copy of a colour in RGBW form: white is enabled, and what the
    original let read. *)
Lemma copy_rgbw_form (c : ColorSolid) (r g b : R) :
  _inputType c = Some rgbw ->
  red c = Some r -> green c = Some g -> blue c = Some b ->
  channel r -> channel g -> channel b -> opt_channel (white c) ->
  exists h s i,
    copy None c
    = ret (Some (mkColorSolid (Some r) (Some g) (Some b) (white c)
                   (Some h) (Some s) (Some i) true (Some rgbw))).
Proof.
  intros Ht Er Eg Eb Hr Hg Hb Hw. unfold copy, selects.
  rewrite Ht. cbn [inputType_eqb orb].
  rewrite Er, Eg, Eb. unfold default_enableWhite.
  destruct (ColorSolid_init_rgbw r g b (white c)
              default_hue default_saturation default_intensity)
    as (h & s & i & E); try assumption.
  rewrite E. mret. eauto.
Qed.

(** [copy()] of a colour in RGB form, channels in 0..255, returns a
    colour with the same channels, in RGBW form with white enabled: its
    encoding has two more digits, so the copy is not equal to the
    original under [__eq__]. *)
Theorem copy_of_rgb_is_not_equal (c : ColorSolid) :
  _inputType c = Some rgb ->
  is_channel (red c) -> is_channel (green c) -> is_channel (blue c) ->
  exists c',
    copy None c = ret (Some c')
    /\ red c' = red c /\ green c' = green c /\ blue c' = blue c
    /\ _inputType c' = Some rgbw /\ enableWhite c' = true
    /\ ColorSolid_eq c' c = ret false.
Proof.
  intros Ht (r & Er & Hr) (g & Eg & Hg) (b & Eb & Hb).
  destruct (copy_rgb_form c r g b) as (h & s & i & E); try assumption.
  eexists. split; [exact E |].
  unfold red, green, blue, enableWhite in *.
  cbn [_red _green _blue _inputType _enableWhite].
  repeat split; try (symmetry; assumption).
  unfold ColorSolid_eq.
  rewrite (toString_rgbw_form _ r g b) by reflexivity. mret.
  rewrite (toString_rgb_form c r g b) by assumption. mret.
  unfold white. cbn [_enableWhite _white]. rewrite (py_round_IZR 0).
  destruct (format_hex_2 (py_round r)) as (r1 & r2 & Fr & _);
    [apply py_round_between; exact Hr |].
  destruct (format_hex_2 (py_round g)) as (g1 & g2 & Fg & _);
    [apply py_round_between; exact Hg |].
  destruct (format_hex_2 (py_round b)) as (b1 & b2 & Fb & _);
    [apply py_round_between; exact Hb |].
  rewrite Fr, Fg, Fb. cbn [append option_string_eqb].
  f_equal. f_equal. apply String.eqb_neq. intros H. discriminate H.
Qed.

Lemma copy_of_rgb_is_not_equal_witness :
  exists c',
    copy None pure_red = ret (Some c')
    /\ red c' = red pure_red /\ green c' = green pure_red
    /\ blue c' = blue pure_red
    /\ _inputType c' = Some rgbw /\ enableWhite c' = true
    /\ ColorSolid_eq c' pure_red = ret false.
Proof.
  apply (copy_of_rgb_is_not_equal pure_red).
  - reflexivity.
  - exists 255. split; [reflexivity | unfold channel; lra].
  - exists 0. split; [reflexivity | unfold channel; lra].
  - exists 0. split; [reflexivity | unfold channel; lra].
Defined.

(** [copy()] of a colour in RGBW form, channels in 0..255, returns a
    colour with the same channels and the white the original lets read;
    it is equal to the original under [__eq__]. *)
Theorem copy_of_rgbw_is_equal (c : ColorSolid) :
  _inputType c = Some rgbw ->
  is_channel (red c) -> is_channel (green c) -> is_channel (blue c) ->
  opt_channel (white c) ->
  exists c',
    copy None c = ret (Some c')
    /\ red c' = red c /\ green c' = green c /\ blue c' = blue c
    /\ white c' = white c
    /\ ColorSolid_eq c' c = ret true.
Proof.
  intros Ht (r & Er & Hr) (g & Eg & Hg) (b & Eb & Hb) Hw.
  destruct (copy_rgbw_form c r g b) as (h & s & i & E); try assumption.
  eexists. split; [exact E |].
  repeat split; try (symmetry; assumption).
  eapply ColorSolid_eq_same.
  - apply (toString_rgbw_form _ r g b); reflexivity.
  - rewrite (toString_rgbw_form c r g b) by assumption. reflexivity.
Qed.

Lemma copy_of_rgbw_is_equal_witness :
  let c := mkColorSolid (Some 255) (Some 0) (Some 0) (Some 9)
             (Some 0) (Some (255 / 264)) (Some (264 / 255)) true
             (Some rgbw) in
  exists c',
    copy None c = ret (Some c')
    /\ red c' = red c /\ green c' = green c /\ blue c' = blue c
    /\ white c' = white c
    /\ ColorSolid_eq c' c = ret true.
Proof.
  intros c. apply (copy_of_rgbw_is_equal c).
  - reflexivity.
  - exists 255. split; [reflexivity | unfold channel; lra].
  - exists 0. split; [reflexivity | unfold channel; lra].
  - exists 0. split; [reflexivity | unfold channel; lra].
  - unfold c, white, opt_channel, channel. simpl. lra.
Defined.

(** ** Setters *)

Lemma resync_from_hsi_returns (c : ColorSolid) (h s i : R) :
  _hue c = Some h -> _saturation c = Some s -> _intensity c = Some i ->
  exists c',
    resync_from_hsi c = (c', ret tt)
    /\ hue c' = Some h /\ saturation c' = Some s /\ intensity c' = Some i
    /\ _inputType c' = Some hsi /\ enableWhite c' = enableWhite c
    /\ channels_in_range c'.
Proof.
  intros Eh Es Ei. unfold resync_from_hsi, with_inputType.
  cbn [_enableWhite]. unfold hue, saturation, intensity, enableWhite.
  cbn [_hue _saturation _intensity]. rewrite Eh, Es, Ei.
  unfold hsi2rgbw_fields, hsi2rgb_fields, need.
  destruct (_enableWhite c) eqn:Ew.
  - mret. mret. mret.
    destruct (hsi2rgbw_in_range h s i)
      as (r & g & b & w & E & Hr & Hg & Hb & Hw).
    rewrite E. unfold assign_rgbw, ret.
    eexists. split; [reflexivity |].
    cbn [_hue _saturation _intensity _inputType _enableWhite].
    do 5 (split; [assumption || reflexivity |]).
    unfold channels_in_range, red, green, blue, white, is_channel.
    cbn [_red _green _blue _white _enableWhite].
    split; [eauto |]. split; [eauto |]. split; [eauto | exact Hw].
  - mret. mret. mret.
    destruct (hsi2rgb_in_range h s i) as (r & g & b & E & Hr & Hg & Hb).
    rewrite E. unfold assign_rgb, ret.
    eexists. split; [reflexivity |].
    cbn [_hue _saturation _intensity _inputType _enableWhite].
    do 5 (split; [assumption || reflexivity |]).
    unfold channels_in_range, red, green, blue, white, is_channel.
    cbn [_red _green _blue _white _enableWhite].
    split; [eauto |]. split; [eauto |]. split; [eauto | exact I].
Qed.

(** Assigning hue, saturation or intensity on a colour whose other two
    HSI fields are numbers never raises, whatever the number assigned:
    the colour is left in HSI form with the new value, [enableWhite]
    unchanged and every RGB[W] channel recomputed within 0..255. *)
Theorem hsi_setters_resync (c : ColorSolid) (v : R) :
  (forall s i, saturation c = Some s -> intensity c = Some i ->
     exists c',
       set_hue (Some v) c = (c', ret tt)
       /\ hue c' = Some v /\ saturation c' = Some s
       /\ intensity c' = Some i
       /\ _inputType c' = Some hsi /\ enableWhite c' = enableWhite c
       /\ channels_in_range c')
  /\ (forall h i, hue c = Some h -> intensity c = Some i ->
     exists c',
       set_saturation (Some v) c = (c', ret tt)
       /\ hue c' = Some h /\ saturation c' = Some v
       /\ intensity c' = Some i
       /\ _inputType c' = Some hsi /\ enableWhite c' = enableWhite c
       /\ channels_in_range c')
  /\ (forall h s, hue c = Some h -> saturation c = Some s ->
     exists c',
       set_intensity (Some v) c = (c', ret tt)
       /\ hue c' = Some h /\ saturation c' = Some s
       /\ intensity c' = Some v
       /\ _inputType c' = Some hsi /\ enableWhite c' = enableWhite c
       /\ channels_in_range c').
Proof.
  split; [| split].
  - intros s i Es Ei. unfold set_hue.
    match goal with
    | |- context [resync_from_hsi ?x] =>
        destruct (resync_from_hsi_returns x v s i) as (c' & H);
        [reflexivity | exact Es | exact Ei | exists c'; exact H]
    end.
  - intros h i Eh Ei. unfold set_saturation.
    match goal with
    | |- context [resync_from_hsi ?x] =>
        destruct (resync_from_hsi_returns x h v i) as (c' & H);
        [exact Eh | reflexivity | exact Ei | exists c'; exact H]
    end.
  - intros h s Eh Es. unfold set_intensity.
    match goal with
    | |- context [resync_from_hsi ?x] =>
        destruct (resync_from_hsi_returns x h s v) as (c' & H);
        [exact Eh | exact Es | reflexivity | exists c'; exact H]
    end.
Qed.

Lemma hsi_setters_resync_witness :
  (exists c',
      set_hue (Some 400) pure_red = (c', ret tt)
      /\ hue c' = Some 400 /\ saturation c' = Some 1
      /\ intensity c' = Some 1
      /\ _inputType c' = Some hsi /\ enableWhite c' = enableWhite pure_red
      /\ channels_in_range c')
  /\ (exists c',
      set_saturation (Some 2) pure_red = (c', ret tt)
      /\ hue c' = Some 0 /\ saturation c' = Some 2
      /\ intensity c' = Some 1
      /\ _inputType c' = Some hsi /\ enableWhite c' = enableWhite pure_red
      /\ channels_in_range c')
  /\ (exists c',
      set_intensity (Some (-1)) pure_red = (c', ret tt)
      /\ hue c' = Some 0 /\ saturation c' = Some 1
      /\ intensity c' = Some (-1)
      /\ _inputType c' = Some hsi /\ enableWhite c' = enableWhite pure_red
      /\ channels_in_range c').
Proof.
  split; [| split].
  - apply (proj1 (hsi_setters_resync pure_red 400) 1 1); reflexivity.
  - apply (proj1 (proj2 (hsi_setters_resync pure_red 2)) 0 1); reflexivity.
  - apply (proj2 (proj2 (hsi_setters_resync pure_red (-1))) 0 1);
      reflexivity.
Defined.

Lemma resync_from_rgb_returns (c : ColorSolid) :
  channels_in_range c ->
  exists c' h s i,
    resync_from_rgb c = (c', ret tt)
    /\ red c' = red c /\ green c' = green c /\ blue c' = blue c
    /\ white c' = white c /\ enableWhite c' = enableWhite c
    /\ _inputType c' = Some (if enableWhite c then rgbw else rgb)
    /\ hue c' = Some h /\ saturation c' = Some s /\ intensity c' = Some i
    /\ 0 <= s <= 1
    /\ i = (or0 (red c) + or0 (green c) + or0 (blue c) + or0 (white c))
           / 255.
Proof.
  intros ((r & Er & Hr) & (g & Eg & Hg) & (b & Eb & Hb) & Hw).
  unfold resync_from_rgb, enableWhite, with_inputType,
    red, green, blue, white, hue, saturation, intensity in *.
  cbn [_red _green _blue _white _enableWhite].
  destruct (_enableWhite c) eqn:Ew.
  - destruct (rgbw2hsi_ranges (_red c) (_green c) (_blue c) (_white c))
      as (h & s & E & Hs).
    + rewrite Er. exact Hr.
    + rewrite Eg. exact Hg.
    + rewrite Eb. exact Hb.
    + exact Hw.
    + rewrite E. unfold assign_hsi, ret.
      do 4 eexists. split; [reflexivity |].
      cbn [_red _green _blue _white _hue _saturation _intensity
           _enableWhite _inputType].
      repeat split; try reflexivity; apply Hs.
  - rewrite Er, Eg, Eb. unfold rgb2hsi_fields, need. mret. mret. mret.
    destruct (rgb2hsi_ranges r g b Hr Hg Hb) as (h & s & E & _ & Hs & _).
    rewrite E. unfold assign_hsi, ret.
    do 4 eexists. split; [reflexivity |].
    cbn [_red _green _blue _white _hue _saturation _intensity
         _enableWhite _inputType].
    repeat split; try reflexivity; try assumption; try apply Hs.
    cbn [or0]. field.
Qed.

(** Assigning a channel value to red, green or blue on a colour whose
    other channels are channel values never raises: the colour is left in
    RGB form, or RGBW form when white is enabled, and its HSI side is
    recomputed, with a saturation in [0, 1] and the sum of the channels
    over 255 as intensity. *)
Theorem rgb_setters_resync (c : ColorSolid) (v : R) :
  channel v -> opt_channel (white c) ->
  (is_channel (green c) -> is_channel (blue c) ->
   exists c' h s i,
     set_red (Some v) c = (c', ret tt)
     /\ red c' = Some v /\ green c' = green c /\ blue c' = blue c
     /\ _inputType c' = Some (if enableWhite c then rgbw else rgb)
     /\ hue c' = Some h /\ saturation c' = Some s /\ 0 <= s <= 1
     /\ intensity c' = Some i
     /\ i = (v + or0 (green c) + or0 (blue c) + or0 (white c)) / 255)
  /\ (is_channel (red c) -> is_channel (blue c) ->
   exists c' h s i,
     set_green (Some v) c = (c', ret tt)
     /\ red c' = red c /\ green c' = Some v /\ blue c' = blue c
     /\ _inputType c' = Some (if enableWhite c then rgbw else rgb)
     /\ hue c' = Some h /\ saturation c' = Some s /\ 0 <= s <= 1
     /\ intensity c' = Some i
     /\ i = (or0 (red c) + v + or0 (blue c) + or0 (white c)) / 255)
  /\ (is_channel (red c) -> is_channel (green c) ->
   exists c' h s i,
     set_blue (Some v) c = (c', ret tt)
     /\ red c' = red c /\ green c' = green c /\ blue c' = Some v
     /\ _inputType c' = Some (if enableWhite c then rgbw else rgb)
     /\ hue c' = Some h /\ saturation c' = Some s /\ 0 <= s <= 1
     /\ intensity c' = Some i
     /\ i = (or0 (red c) + or0 (green c) + v + or0 (white c)) / 255).
Proof.
  intros Hv Hw. split; [| split].
  - intros Hg Hb. unfold set_red.
    match goal with
    | |- context [resync_from_rgb ?x] =>
        destruct (resync_from_rgb_returns x)
          as (c' & h & s & i & E & H1 & H2 & H3 & _ & _ & H6 & H7 & H8
              & H9 & H10 & H11)
    end.
    { repeat split; try assumption. exists v. split; [reflexivity | exact Hv]. }
    exists c', h, s, i. repeat split; try assumption; apply H10.
  - intros Hr Hb. unfold set_green.
    match goal with
    | |- context [resync_from_rgb ?x] =>
        destruct (resync_from_rgb_returns x)
          as (c' & h & s & i & E & H1 & H2 & H3 & _ & _ & H6 & H7 & H8
              & H9 & H10 & H11)
    end.
    { repeat split; try assumption. exists v. split; [reflexivity | exact Hv]. }
    exists c', h, s, i. repeat split; try assumption; apply H10.
  - intros Hr Hg. unfold set_blue.
    match goal with
    | |- context [resync_from_rgb ?x] =>
        destruct (resync_from_rgb_returns x)
          as (c' & h & s & i & E & H1 & H2 & H3 & _ & _ & H6 & H7 & H8
              & H9 & H10 & H11)
    end.
    { repeat split; try assumption. exists v. split; [reflexivity | exact Hv]. }
    exists c', h, s, i. repeat split; try assumption; apply H10.
Qed.

Lemma rgb_setters_resync_witness :
  (exists c' h s i,
     set_red (Some 7) pure_red = (c', ret tt)
     /\ red c' = Some 7 /\ green c' = green pure_red
     /\ blue c' = blue pure_red
     /\ _inputType c' = Some (if enableWhite pure_red then rgbw else rgb)
     /\ hue c' = Some h /\ saturation c' = Some s /\ 0 <= s <= 1
     /\ intensity c' = Some i
     /\ i = (7 + or0 (green pure_red) + or0 (blue pure_red)
             + or0 (white pure_red)) / 255)
  /\ (exists c' h s i,
     set_green (Some 7) default_colour = (c', ret tt)
     /\ red c' = red default_colour /\ green c' = Some 7
     /\ blue c' = blue default_colour
     /\ _inputType c'
        = Some (if enableWhite default_colour then rgbw else rgb)
     /\ hue c' = Some h /\ saturation c' = Some s /\ 0 <= s <= 1
     /\ intensity c' = Some i
     /\ i = (or0 (red default_colour) + 7 + or0 (blue default_colour)
             + or0 (white default_colour)) / 255)
  /\ (exists c' h s i,
     set_blue (Some 7) pure_red = (c', ret tt)
     /\ red c' = red pure_red /\ green c' = green pure_red
     /\ blue c' = Some 7
     /\ _inputType c' = Some (if enableWhite pure_red then rgbw else rgb)
     /\ hue c' = Some h /\ saturation c' = Some s /\ 0 <= s <= 1
     /\ intensity c' = Some i
     /\ i = (or0 (red pure_red) + or0 (green pure_red) + 7
             + or0 (white pure_red)) / 255).
Proof.
  assert (H7 : channel 7) by (unfold channel; lra).
  assert (H0 : is_channel (Some 0))
    by (exists 0; split; [reflexivity | unfold channel; lra]).
  assert (H255 : is_channel (Some 255))
    by (exists 255; split; [reflexivity | unfold channel; lra]).
  split; [| split].
  - apply (proj1 (rgb_setters_resync pure_red 7 H7 I)); assumption.
  - apply (proj1 (proj2 (rgb_setters_resync default_colour 7 H7
                           ltac:(unfold default_colour, white, opt_channel,
                                   channel; simpl; lra))));
      assumption.
  - apply (proj2 (proj2 (rgb_setters_resync pure_red 7 H7 I)));
      assumption.
Defined.

(** On a colour with white disabled and green or blue missing,
    assigning red raises [TypeError] after the assignment: the colour
    keeps the new red and the representation RGB, while hue, saturation
    and intensity stay what they were. *)
Theorem set_red_raises_half_way (c : ColorSolid) (v : option R) :
  _enableWhite c = false ->
  _green c = None \/ _blue c = None ->
  set_red v c
  = (mkColorSolid v (_green c) (_blue c) (_white c)
       (_hue c) (_saturation c) (_intensity c) false (Some rgb),
     raise TypeError).
Proof.
  intros Ew Hz. unfold set_red, resync_from_rgb.
  cbn [_enableWhite]. rewrite Ew.
  unfold with_inputType, red, green, blue.
  cbn [_red _green _blue _white _hue _saturation _intensity
       _enableWhite _inputType].
  unfold rgb2hsi_fields, need.
  destruct v as [x |]; [| reflexivity]. mret.
  destruct (_green c) as [g |]; [| reflexivity].
  destruct Hz as [Hz | Hz]; [discriminate Hz |].
  mret. rewrite Hz. reflexivity.
Qed.

Lemma set_red_raises_half_way_witness :
  let c := mkColorSolid None None None None None None None false None in
  set_red (Some 5) c
  = (mkColorSolid (Some 5) None None None None None None false (Some rgb),
     raise TypeError).
Proof.
  intros c. apply (set_red_raises_half_way c (Some 5)).
  - reflexivity.
  - left. reflexivity.
Defined.

(** ** Gradients: how many colours, and which *)

Lemma mapM_returns {A B} (f : A -> M B) (P : B -> Prop) (l : list A) :
  (forall a, In a l -> exists b, f a = ret b /\ P b) ->
  exists bs,
    mapM f l = ret bs /\ List.length bs = List.length l /\ Forall P bs.
Proof.
  induction l as [| a l IH]; intros H.
  - exists []. repeat split. constructor.
  - destruct (H a (or_introl eq_refl)) as (b & Eb & Pb).
    destruct IH as (bs & Ebs & Hlen & HP).
    { intros a' Ha'. apply H. right. exact Ha'. }
    exists (b :: bs). cbn [mapM]. rewrite Eb. mret. rewrite Ebs. mret.
    repeat split; [cbn; lia | constructor; assumption].
Qed.

Lemma pairs_length {A} (l : list A) :
  List.length (pairs l) = (List.length l - 1)%nat.
Proof.
  induction l as [| a [| b l] IH]; try reflexivity.
  change (pairs (a :: b :: l)) with ((a, b) :: pairs (b :: l)).
  cbn [List.length] in *. rewrite IH. lia.
Qed.

Lemma pairs_In {A} (l : list A) (a b : A) :
  In (a, b) (pairs l) -> In a l /\ In b l.
Proof.
  induction l as [| x [| y l] IH]; [intros [] | intros [] |].
  change (pairs (x :: y :: l)) with ((x, y) :: pairs (y :: l)).
  intros [E | Hin].
  - injection E as -> ->. split; [left | right; left]; reflexivity.
  - destruct (IH Hin) as [Ha Hb]. split; right; assumption.
Qed.

Lemma concat_length_uniform {A} (k : nat) (ls : list (list A)) :
  Forall (fun x => List.length x = k) ls ->
  List.length (List.concat ls) = (List.length ls * k)%nat.
Proof.
  induction 1 as [| x ls Hx _ IH]; [reflexivity |].
  cbn [List.concat List.length]. rewrite length_app, IH, Hx. lia.
Qed.

Lemma Forall_concat {A} (P : A -> Prop) (ls : list (list A)) :
  Forall (Forall P) ls -> Forall P (List.concat ls).
Proof.
  induction 1 as [| x ls Hx _ IH]; [constructor |].
  cbn [List.concat]. apply Forall_app. split; assumption.
Qed.

Lemma last_Some_In {A} (l : list A) :
  l <> [] -> exists c, last (map Some l) None = Some c /\ In c l.
Proof.
  induction l as [| a [| b l] IH]; intros H; [contradiction | |].
  - exists a. split; [reflexivity | left; reflexivity].
  - destruct IH as (c & Ec & Hc); [discriminate |].
    exists c. split; [exact Ec | right; exact Hc].
Qed.

(** What the constructor returns is well formed. *)
Lemma ColorSolid_init_rgb_well_formed (r g b : R) (w : option R)
    (ew : bool) :
  channel r -> channel g -> channel b -> opt_channel w ->
  exists c,
    ColorSolid_init (Some r) (Some g) (Some b) w
      default_hue default_saturation default_intensity ew = ret c
    /\ well_formed c /\ enableWhite c = ew.
Proof.
  intros Hr Hg Hb Hw. destruct ew.
  - destruct (ColorSolid_init_rgbw r g b w
                default_hue default_saturation default_intensity)
      as (h & s & i & E); try assumption.
    eexists. split; [exact E |]. split; [| reflexivity].
    unfold well_formed, channels_in_range, is_channel, red, green, blue,
      white, hue, saturation, intensity.
    cbn [_red _green _blue _white _hue _saturation _intensity
         _enableWhite _inputType].
    repeat split; eauto; try discriminate. exists h, s, i. auto.
  - destruct (ColorSolid_init_rgb r g b w
                default_hue default_saturation default_intensity)
      as (h & s & i & E); try assumption.
    eexists. split; [exact E |]. split; [| reflexivity].
    unfold well_formed, channels_in_range, is_channel, red, green, blue,
      white, hue, saturation, intensity.
    cbn [_red _green _blue _white _hue _saturation _intensity
         _enableWhite _inputType].
    repeat split; eauto; try discriminate. exists h, s, i. auto.
Qed.

Lemma ColorSolid_init_hsi_well_formed (h s i : R) (ew : bool) :
  exists c,
    ColorSolid_init None None None None (Some h) (Some s) (Some i) ew
    = ret c
    /\ well_formed c /\ enableWhite c = ew /\ _inputType c = Some hsi
    /\ hue c = Some h /\ saturation c = Some s /\ intensity c = Some i.
Proof.
  unfold ColorSolid_init. destruct ew; cbn [negb].
  - destruct (hsi2rgbw_in_range h s i)
      as (r & g & b & w & E & Hr & Hg & Hb & Hw).
    rewrite E. mret. eexists. split; [reflexivity |].
    unfold well_formed, channels_in_range, is_channel, red, green, blue,
      white, hue, saturation, intensity, enableWhite.
    cbn [_red _green _blue _white _hue _saturation _intensity
         _enableWhite _inputType].
    repeat split; eauto; try discriminate; try apply Hw.
    exists h, s, i. auto.
  - destruct (hsi2rgb_in_range h s i) as (r & g & b & E & Hr & Hg & Hb).
    rewrite E. mret. eexists. split; [reflexivity |].
    unfold well_formed, channels_in_range, is_channel, red, green, blue,
      white, hue, saturation, intensity, enableWhite.
    cbn [_red _green _blue _white _hue _saturation _intensity
         _enableWhite _inputType].
    repeat split; eauto; try discriminate.
    exists h, s, i. auto.
Qed.

Lemma with_inputType_well_formed (t : inputType) (c : ColorSolid) :
  well_formed c -> well_formed (with_inputType t c).
Proof.
  intros (Hc & Hh & _). repeat split; try apply Hc; try exact Hh.
  discriminate.
Qed.

Lemma copy_well_formed (c : ColorSolid) :
  well_formed c -> exists c', copy None c = ret (Some c') /\ well_formed c'.
Proof.
  intros (((r & Er & Hr) & (g & Eg & Hg) & (b & Eb & Hb) & Hw)
          & (h & s & i & Eh & Es & Ei) & Ht).
  unfold copy, selects.
  destruct (_inputType c) as [[| |] |]; [| | | contradiction];
    cbn [inputType_eqb orb].
  - rewrite Er, Eg, Eb.
    destruct (ColorSolid_init_rgb_well_formed r g b None
                default_enableWhite) as (c' & E & Hc' & _);
      try assumption; [exact I |].
    rewrite E. mret. eauto.
  - rewrite Er, Eg, Eb.
    destruct (ColorSolid_init_rgb_well_formed r g b (white c)
                default_enableWhite) as (c' & E & Hc' & _);
      try assumption.
    rewrite E. mret. eauto.
  - rewrite Eh, Es, Ei.
    destruct (ColorSolid_init_hsi_well_formed h s i default_enableWhite)
      as (c' & E & Hc' & _).
    rewrite E. mret. eauto.
Qed.

Lemma last_node_returns (t : inputType) (l : list ColorSolid) :
  l <> [] -> Forall well_formed l ->
  exists c, last_node t l = ret c /\ well_formed c /\ _inputType c = Some t.
Proof.
  intros Hne Hl. unfold last_node.
  destruct (last_Some_In l Hne) as (c & Ec & Hc). rewrite Ec.
  rewrite Forall_forall in Hl.
  destruct (copy_well_formed c (Hl c Hc)) as (c' & E & Hc').
  rewrite E. mret. exists (with_inputType t c').
  split; [reflexivity |]. split; [| reflexivity].
  apply with_inputType_well_formed. exact Hc'.
Qed.

(** A rounded interpolation between two channel values is one. *)
Lemma lerp_round_channel (p : R) (x y : option R) :
  0 <= p <= 1 -> is_channel x -> is_channel y ->
  exists v, lerp_round p x y = ret v /\ channel v.
Proof.
  intros Hp (a & -> & Ha) (b & -> & Hb).
  rewrite lerp_round_inside by exact Hp.
  eexists. split; [reflexivity |].
  apply channel_IZR. apply py_round_between.
  unfold channel in *. simpl. nra.
Qed.

Lemma lerp_round_white (p : R) (x y : option R) :
  0 <= p <= 1 -> opt_channel x -> opt_channel y ->
  exists w,
    match x, y with
    | None, Some w1 =>
        v <- lerp_round p (Some 0) (Some w1) ;; ret (Some v)
    | Some w0, None =>
        v <- lerp_round p (Some w0) (Some 0) ;; ret (Some v)
    | Some w0, Some w1 =>
        v <- lerp_round p (Some w0) (Some w1) ;; ret (Some v)
    | None, None => ret None
    end = ret w
    /\ opt_channel w.
Proof.
  intros Hp Hx Hy.
  assert (H0 : is_channel (Some 0))
    by (exists 0; split; [reflexivity | unfold channel; lra]).
  assert (Hsome : forall a b, is_channel (Some a) -> is_channel (Some b) ->
            exists w, (v <- lerp_round p (Some a) (Some b) ;; ret (Some v))
                      = ret w /\ opt_channel w).
  { intros a b Ha Hb.
    destruct (lerp_round_channel p _ _ Hp Ha Hb) as (v & E & Hv).
    rewrite E. mret. exists (Some v). split; [reflexivity | exact Hv]. }
  destruct x as [a |], y as [b |].
  - apply Hsome; eexists; eauto.
  - apply Hsome; [eexists; eauto | exact H0].
  - apply Hsome; [exact H0 | eexists; eauto].
  - exists None. split; [reflexivity | exact I].
Qed.

Lemma range_from_0_In (n idx : Z) :
  In idx (range_from_0 n) -> (0 <= idx < n)%Z.
Proof.
  unfold range_from_0. intros H. apply in_map_iff in H.
  destruct H as (k & <- & Hk). apply in_seq in Hk. lia.
Qed.

Lemma range_from_1_In (n idx : Z) :
  In idx (range_from_1 n) -> (1 <= idx <= n)%Z.
Proof.
  unfold range_from_1. intros H. apply in_map_iff in H.
  destruct H as (k & <- & Hk). apply in_seq in Hk. lia.
Qed.

Lemma linearInterpRgbw_returns (l : list ColorSolid) (steps : Z) :
  l <> [] -> steps <> 0%Z -> Forall well_formed l ->
  exists out,
    linearInterpRgbw (NodeList l) steps = ret (NodeList out)
    /\ List.length out
       = ((List.length l - 1) * (1 + Z.to_nat steps) + 1)%nat
    /\ Forall well_formed out.
Proof.
  intros Hne Hsteps Hl. unfold linearInterpRgbw.
  apply Z.eqb_neq in Hsteps. rewrite Hsteps.
  set (ew := existsb enableWhite l).
  pose proof Hl as Hall. rewrite Forall_forall in Hall.
  match goal with
  | |- context [mapM ?f (pairs l)] =>
      destruct (mapM_returns f
                  (fun blk => List.length blk = (1 + Z.to_nat steps)%nat
                              /\ Forall well_formed blk)
                  (pairs l)) as (blocks & Eb & Hlen & Hblocks)
  end.
  { intros [cur next] Hin. apply pairs_In in Hin. destruct Hin as [Hc Hn].
    pose proof (Hall cur Hc) as Wc. pose proof (Hall next Hn) as Wn.
    destruct Wc as ((Rc & Gc & Bc & Whc) & _).
    destruct Wn as ((Rn & Gn & Bn & Whn) & _).
    match goal with
    | |- context [mapM ?f (range_from_0 steps)] =>
        destruct (mapM_returns f well_formed (range_from_0 steps))
          as (inner & Ei & Hli & Hinner)
    end.
    { intros idx Hidx. apply range_from_0_In in Hidx.
      assert (Hp : 0 <= (IZR idx + 1) / (IZR steps + 1) <= 1).
      { assert (H1 : 0 <= IZR idx) by (apply (IZR_le 0); lia).
        assert (H2 : IZR idx + 1 <= IZR steps).
        { rewrite <- (plus_IZR idx 1). apply IZR_le. lia. }
        assert (Hd : 0 < / (IZR steps + 1))
          by (apply Rinv_0_lt_compat; lra).
        split.
        - apply Rmult_le_pos; lra.
        - apply Rmult_le_reg_r with (IZR steps + 1); [lra |].
          unfold Rdiv. rewrite Rmult_assoc, Rinv_l by lra. lra. }
      rewrite py_div_ok.
      2:{ assert (H1 : 0 < IZR steps) by (apply (IZR_lt 0); lia). lra. }
      mret.
      destruct (lerp_round_channel _ _ _ Hp Rc Rn) as (vr & Er & Hvr).
      destruct (lerp_round_channel _ _ _ Hp Gc Gn) as (vg & Eg & Hvg).
      destruct (lerp_round_channel _ _ _ Hp Bc Bn) as (vb & Ebl & Hvb).
      destruct (lerp_round_white _ _ _ Hp Whc Whn) as (vw & Ew & Hvw).
      rewrite Er. mret. rewrite Eg. mret. rewrite Ebl. mret.
      rewrite Ew. mret.
      destruct (ColorSolid_init_rgb_well_formed vr vg vb vw ew)
        as (c & Ec & Hc' & _); try assumption.
      exists c. split; assumption. }
    rewrite Ei. mret. exists (cur :: inner). split; [reflexivity |].
    split.
    - cbn [List.length]. rewrite Hli. unfold range_from_0.
      rewrite length_map, length_seq. lia.
    - constructor; [apply Hall; exact Hc | exact Hinner]. }
  rewrite Eb. mret.
  destruct (last_node_returns rgbw l Hne Hl) as (lastColor & El & Wl & _).
  rewrite El. mret.
  eexists. split; [reflexivity |]. split.
  - rewrite length_app.
    rewrite (concat_length_uniform (1 + Z.to_nat steps)).
    + rewrite Hlen, pairs_length. reflexivity.
    + eapply Forall_impl; [| exact Hblocks]. intros blk [H _]. exact H.
  - apply Forall_app. split; [| constructor; [exact Wl | constructor]].
    apply Forall_concat.
    eapply Forall_impl; [| exact Hblocks]. intros blk [_ H]. exact H.
Qed.

Lemma linearInterpHsi_returns (l : list ColorSolid) (steps : Z) :
  l <> [] -> steps <> 0%Z -> Forall well_formed l ->
  exists out,
    linearInterpHsi (NodeList l) steps = ret (NodeList out)
    /\ List.length out
       = ((List.length l - 1) * Z.to_nat (steps + 1) + 1)%nat
    /\ Forall (fun c => well_formed c /\ _inputType c = Some hsi) out.
Proof.
  intros Hne Hsteps Hl. unfold linearInterpHsi.
  apply Z.eqb_neq in Hsteps. rewrite Hsteps.
  set (ew := existsb enableWhite l).
  pose proof Hl as Hall. rewrite Forall_forall in Hall.
  match goal with
  | |- context [mapM ?f (pairs l)] =>
      destruct (mapM_returns f
                  (fun blk =>
                     List.length blk = Z.to_nat (steps + 1)
                     /\ Forall (fun c => well_formed c
                                         /\ _inputType c = Some hsi) blk)
                  (pairs l)) as (blocks & Eb & Hlen & Hblocks)
  end.
  { intros [cur next] Hin. apply pairs_In in Hin. destruct Hin as [Hc Hn].
    destruct (Hall cur Hc) as (_ & (h0 & s0 & i0 & Eh0 & Es0 & Ei0) & _).
    destruct (Hall next Hn) as (_ & (h1 & s1 & i1 & Eh1 & Es1 & Ei1) & _).
    match goal with
    | |- context [mapM ?f (range_from_1 (steps + 1))] =>
        destruct (mapM_returns f
                    (fun c => well_formed c /\ _inputType c = Some hsi)
                    (range_from_1 (steps + 1)))
          as (inner & Ei & Hli & Hinner)
    end.
    { intros idx Hidx. apply range_from_1_In in Hidx.
      rewrite py_div_ok.
      2:{ assert (H1 : 0 < IZR (steps + 1)) by (apply (IZR_lt 0); lia).
          lra. }
      mret. rewrite Eh0, Eh1, Es0, Es1, Ei0, Ei1. unfold need.
      repeat (mret || rewrite lerp_unit).
      match goal with
      | |- context [ColorSolid_init None None None None
                      (Some ?a) (Some ?b) (Some ?c) ew] =>
          destruct (ColorSolid_init_hsi_well_formed a b c ew)
            as (col & Ec & Wc & _ & Tc & _)
      end.
      exists col. split; [exact Ec | split; assumption]. }
    rewrite Ei. exists inner. split; [reflexivity |].
    split; [| exact Hinner].
    rewrite Hli. unfold range_from_1. rewrite length_map, length_seq.
    reflexivity. }
  rewrite Eb. mret.
  destruct (last_node_returns hsi l Hne Hl) as (lastColor & El & Wl & Tl).
  rewrite El. mret.
  eexists. split; [reflexivity |]. split.
  - rewrite length_app.
    rewrite (concat_length_uniform (Z.to_nat (steps + 1))).
    + rewrite Hlen, pairs_length. reflexivity.
    + eapply Forall_impl; [| exact Hblocks]. intros blk [H _]. exact H.
  - apply Forall_app. split.
    + apply Forall_concat.
      eapply Forall_impl; [| exact Hblocks]. intros blk [_ H]. exact H.
    + constructor; [split; assumption | constructor].
Qed.

Lemma pure_red_well_formed : well_formed pure_red.
Proof.
  unfold well_formed, channels_in_range, is_channel, channel, pure_red,
    red, green, blue, white, hue, saturation, intensity.
  cbn [_red _green _blue _white _hue _saturation _intensity
       _enableWhite _inputType opt_channel].
  repeat split; try discriminate; try exact I.
  - exists 255. split; [reflexivity | lra].
  - exists 0. split; [reflexivity | lra].
  - exists 0. split; [reflexivity | lra].
  - exists 0, 1, 1. auto.
Qed.

Lemma default_colour_well_formed : well_formed default_colour.
Proof.
  unfold well_formed, channels_in_range, is_channel, channel,
    default_colour, red, green, blue, white, hue, saturation, intensity.
  cbn [_red _green _blue _white _hue _saturation _intensity
       _enableWhite _inputType opt_channel].
  repeat split; try discriminate; try lra.
  - exists 255. split; [reflexivity | lra].
  - exists 0. split; [reflexivity | lra].
  - exists 0. split; [reflexivity | lra].
  - exists 0, 1, 1. auto.
Qed.

(** In RGBW mode, on a non-empty list of well-formed colours and a
    number of steps other than 0, the interpolation returns; each pair of
    neighbours contributes its first node and one colour per step, the
    copy of the last node closes the list, and every colour returned is
    well formed. *)
Theorem linearInterpRgbw_length (l : list ColorSolid) (steps : Z) :
  l <> [] -> steps <> 0%Z -> Forall well_formed l ->
  exists out,
    linearInterpRgbw (NodeList l) steps = ret (NodeList out)
    /\ List.length out
       = ((List.length l - 1) * (1 + Z.to_nat steps) + 1)%nat
    /\ Forall well_formed out.
Proof. exact (linearInterpRgbw_returns l steps). Qed.

Lemma linearInterpRgbw_length_witness :
  exists out,
    linearInterpRgbw (NodeList [pure_red; default_colour; pure_red]) 3
    = ret (NodeList out)
    /\ List.length out = 9%nat
    /\ Forall well_formed out.
Proof.
  apply (linearInterpRgbw_length [pure_red; default_colour; pure_red] 3).
  - discriminate.
  - lia.
  - constructor; [exact pure_red_well_formed |].
    constructor; [exact default_colour_well_formed |].
    constructor; [exact pure_red_well_formed | constructor].
Defined.

(** In HSI mode, on a non-empty list of well-formed colours and a
    number of steps other than 0, the interpolation returns; each pair of
    neighbours contributes [steps + 1] colours, the copy of the last node
    closes the list, and every colour returned is well formed and in HSI
    form. *)
Theorem linearInterpHsi_length (l : list ColorSolid) (steps : Z) :
  l <> [] -> steps <> 0%Z -> Forall well_formed l ->
  exists out,
    linearInterpHsi (NodeList l) steps = ret (NodeList out)
    /\ List.length out
       = ((List.length l - 1) * Z.to_nat (steps + 1) + 1)%nat
    /\ Forall (fun c => well_formed c /\ _inputType c = Some hsi) out.
Proof. exact (linearInterpHsi_returns l steps). Qed.

Lemma linearInterpHsi_length_witness :
  exists out,
    linearInterpHsi (NodeList [pure_red; default_colour; pure_red]) 3
    = ret (NodeList out)
    /\ List.length out = 9%nat
    /\ Forall (fun c => well_formed c /\ _inputType c = Some hsi) out.
Proof.
  apply (linearInterpHsi_length [pure_red; default_colour; pure_red] 3).
  - discriminate.
  - lia.
  - constructor; [exact pure_red_well_formed |].
    constructor; [exact default_colour_well_formed |].
    constructor; [exact pure_red_well_formed | constructor].
Defined.

(** ** Decoding reads the fields back *)

Lemma parse_c7 (r1 r2 g1 g2 b1 b2 : ascii) (r g b : Z) :
  int16 (String r1 (String r2 EmptyString)) = Some r ->
  int16 (String g1 (String g2 EmptyString)) = Some g ->
  int16 (String b1 (String b2 EmptyString)) = Some b ->
  parse (String "c" (String r1 (String r2 (String g1 (String g2
           (String b1 (String b2 EmptyString)))))))
  = (c <- ColorSolid_init (Some (IZR r)) (Some (IZR g)) (Some (IZR b))
            None default_hue default_saturation default_intensity false ;;
     ret (Some c)).
Proof.
  intros Ir Ig Ib.
  set (s := String "c" (String r1 (String r2 (String g1 (String g2
              (String b1 (String b2 EmptyString))))))).
  rewrite parse_framed; [| cbn; lia | reflexivity].
  change (all_some (map int16 (descriptor_fields s)))
    with (all_some [int16 (String r1 (String r2 EmptyString));
                    int16 (String g1 (String g2 EmptyString));
                    int16 (String b1 (String b2 EmptyString))]).
  rewrite Ir, Ig, Ib. reflexivity.
Qed.

Lemma parse_c9 (r1 r2 g1 g2 b1 b2 w1 w2 : ascii) (r g b w : Z) :
  int16 (String r1 (String r2 EmptyString)) = Some r ->
  int16 (String g1 (String g2 EmptyString)) = Some g ->
  int16 (String b1 (String b2 EmptyString)) = Some b ->
  int16 (String w1 (String w2 EmptyString)) = Some w ->
  parse (String "c" (String r1 (String r2 (String g1 (String g2
           (String b1 (String b2 (String w1 (String w2
              EmptyString)))))))))
  = (c <- ColorSolid_init (Some (IZR r)) (Some (IZR g)) (Some (IZR b))
            (Some (IZR w)) default_hue default_saturation
            default_intensity default_enableWhite ;;
     ret (Some c)).
Proof.
  intros Ir Ig Ib Iw.
  set (s := String "c" (String r1 (String r2 (String g1 (String g2
              (String b1 (String b2 (String w1 (String w2
                 EmptyString))))))))).
  rewrite parse_framed; [| cbn; lia | reflexivity].
  change (all_some (map int16 (descriptor_fields s)))
    with (all_some [int16 (String r1 (String r2 EmptyString));
                    int16 (String g1 (String g2 EmptyString));
                    int16 (String b1 (String b2 EmptyString));
                    int16 (String w1 (String w2 EmptyString))]).
  rewrite Ir, Ig, Ib, Iw. reflexivity.
Qed.

(** Decoding the descriptor written from three or four values of
    0..255 gives a colour that holds exactly these channels: in RGB form
    with white disabled for three, in RGBW form with white enabled for
    four. *)
Theorem parse_reads_channels (r g b w : Z) :
  (0 <= r <= 255)%Z -> (0 <= g <= 255)%Z -> (0 <= b <= 255)%Z ->
  (0 <= w <= 255)%Z ->
  (exists c,
      parse (String "c" (format_hex 2 r ++ format_hex 2 g
                         ++ format_hex 2 b)%string)
      = ret (Some c)
      /\ red c = Some (IZR r) /\ green c = Some (IZR g)
      /\ blue c = Some (IZR b) /\ white c = None
      /\ enableWhite c = false /\ _inputType c = Some rgb)
  /\ (exists c,
      parse (String "c" (format_hex 2 r ++ format_hex 2 g
                         ++ format_hex 2 b ++ format_hex 2 w)%string)
      = ret (Some c)
      /\ red c = Some (IZR r) /\ green c = Some (IZR g)
      /\ blue c = Some (IZR b) /\ white c = Some (IZR w)
      /\ enableWhite c = true /\ _inputType c = Some rgbw).
Proof.
  intros Br Bg Bb Bw.
  destruct (format_hex_2 r Br) as (r1 & r2 & Fr & Ir).
  destruct (format_hex_2 g Bg) as (g1 & g2 & Fg & Ig).
  destruct (format_hex_2 b Bb) as (b1 & b2 & Fb & Ib).
  destruct (format_hex_2 w Bw) as (w1 & w2 & Fw & Iw).
  rewrite Fr, Fg, Fb, Fw. cbn [append]. split.
  - rewrite (parse_c7 _ _ _ _ _ _ r g b Ir Ig Ib).
    destruct (ColorSolid_init_rgb (IZR r) (IZR g) (IZR b) None
                default_hue default_saturation default_intensity)
      as (h & s & i & E); try (apply channel_IZR; assumption).
    rewrite E. mret. eexists. split; [reflexivity |].
    repeat split.
  - rewrite (parse_c9 _ _ _ _ _ _ _ _ r g b w Ir Ig Ib Iw).
    destruct (ColorSolid_init_rgbw (IZR r) (IZR g) (IZR b) (Some (IZR w))
                default_hue default_saturation default_intensity)
      as (h & s & i & E); try (apply channel_IZR; assumption).
    unfold default_enableWhite. rewrite E. mret.
    eexists. split; [reflexivity |]. repeat split.
Qed.

Lemma parse_reads_channels_witness :
  (exists c,
      parse (String "c" (format_hex 2 18 ++ format_hex 2 52
                         ++ format_hex 2 255)%string)
      = ret (Some c)
      /\ red c = Some (IZR 18) /\ green c = Some (IZR 52)
      /\ blue c = Some (IZR 255) /\ white c = None
      /\ enableWhite c = false /\ _inputType c = Some rgb)
  /\ (exists c,
      parse (String "c" (format_hex 2 18 ++ format_hex 2 52
                         ++ format_hex 2 255 ++ format_hex 2 7)%string)
      = ret (Some c)
      /\ red c = Some (IZR 18) /\ green c = Some (IZR 52)
      /\ blue c = Some (IZR 255) /\ white c = Some (IZR 7)
      /\ enableWhite c = true /\ _inputType c = Some rgbw).
Proof. apply (parse_reads_channels 18 52 255 7); lia. Defined.

Lemma parse_h (h1 h2 h3 s1 s2 s3 i1 i2 i3 : ascii) (h s i : Z)
    (ew : bool) :
  int16 (String h1 (String h2 (String h3 EmptyString))) = Some h ->
  int16 (String s1 (String s2 (String s3 EmptyString))) = Some s ->
  int16 (String i1 (String i2 (String i3 EmptyString))) = Some i ->
  Ascii.eqb (lower_ascii i3) "w" = false ->
  let body := String h1 (String h2 (String h3 (String s1 (String s2
                (String s3 (String i1 (String i2 (String i3
                   EmptyString)))))))) in
  parse (if ew then String "h" (body ++ "w")%string else String "h" body)
  = (c <- ColorSolid_init None None None None
            (Some (IZR h)) (Some (IZR s / 255)) (Some (IZR i / 255)) ew ;;
     ret (Some c)).
Proof.
  intros Ih Is Ii Wi body. destruct ew.
  - rewrite parse_framed; [| cbn; lia | reflexivity].
    change (all_some (map int16
              (descriptor_fields (String "h" (body ++ "w")%string))))
      with (all_some
              [int16 (String h1 (String h2 (String h3 EmptyString)));
               int16 (String s1 (String s2 (String s3 EmptyString)));
               int16 (String i1 (String i2 (String i3 EmptyString)))]).
    rewrite Ih, Is, Ii. cbn [all_some option_map]. unfold build.
    change (lower_startswith (String "h" (body ++ "w")%string) "c")
      with false.
    change (lower_endswith (String "h" (body ++ "w")%string) "w")
      with true.
    cbv iota. unfold index. cbn [nth_error]. mret. mret. mret.
    reflexivity.
  - assert (Elast : lower_endswith (String "h" body) "w" = false)
      by exact Wi.
    assert (Ef : well_framed (String "h" body) = true).
    { unfold well_framed.
      change (lower_startswith (String "h" body) "c") with false.
      change (lower_startswith (String "h" body) "h") with true.
      cbv iota. rewrite Elast. reflexivity. }
    rewrite parse_framed; [| cbn; lia | exact Ef].
    unfold descriptor_fields, build.
    change (lower_startswith (String "h" body) "c") with false.
    cbv iota. rewrite Elast.
    change (map int16 (fields 3 (String "h" body)))
      with [int16 (String h1 (String h2 (String h3 EmptyString)));
            int16 (String s1 (String s2 (String s3 EmptyString)));
            int16 (String i1 (String i2 (String i3 EmptyString)))].
    rewrite Ih, Is, Ii. cbn [all_some option_map].
    unfold index. cbn [nth_error]. mret. mret. mret.
    reflexivity.
Qed.

(** Decoding the descriptor written from a hue, a saturation and an
    intensity field of three hex digits gives a colour in HSI form with
    the hue as written and saturation and intensity the fields over 255;
    white is enabled exactly when the descriptor ends in [w]. *)
Theorem parse_reads_levels (h s i : Z) (ew : bool) :
  (0 <= h <= 4095)%Z -> (0 <= s <= 4095)%Z -> (0 <= i <= 4095)%Z ->
  exists c,
    parse (String "h" (format_hex 3 h ++ format_hex 3 s ++ format_hex 3 i
                       ++ (if ew then "w" else ""))%string)
    = ret (Some c)
    /\ hue c = Some (IZR h) /\ saturation c = Some (IZR s / 255)
    /\ intensity c = Some (IZR i / 255)
    /\ enableWhite c = ew /\ _inputType c = Some hsi
    /\ well_formed c.
Proof.
  intros Bh Bs Bi.
  destruct (format_hex_3 h Bh) as (h1 & h2 & h3 & Fh & Ih & _).
  destruct (format_hex_3 s Bs) as (s1 & s2 & s3 & Fs & Is & _).
  destruct (format_hex_3 i Bi) as (i1 & i2 & i3 & Fi & Ii & Wi).
  pose proof (parse_h h1 h2 h3 s1 s2 s3 i1 i2 i3 h s i ew Ih Is Ii Wi)
    as Hp. cbv zeta in Hp.
  rewrite Fh, Fs, Fi.
  destruct (ColorSolid_init_hsi_well_formed (IZR h) (IZR s / 255)
              (IZR i / 255) ew)
    as (c & Ec & Wc & Ewc & Tc & Hh & Hs & Hi).
  exists c. split.
  - destruct ew; cbn [append] in *; rewrite Hp, Ec; mret; reflexivity.
  - do 5 (split; [assumption |]). exact Wc.
Qed.

Lemma parse_reads_levels_witness :
  exists c,
    parse (String "h" (format_hex 3 300 ++ format_hex 3 255
                       ++ format_hex 3 128 ++ "w")%string)
    = ret (Some c)
    /\ hue c = Some (IZR 300) /\ saturation c = Some (IZR 255 / 255)
    /\ intensity c = Some (IZR 128 / 255)
    /\ enableWhite c = true /\ _inputType c = Some hsi
    /\ well_formed c.
Proof. apply (parse_reads_levels 300 255 128 true); lia. Defined.

(** ** ColorGradient: encoding and decoding *)

(** *** Strings *)

Lemma remove_char_lacks (c : ascii) (s : string) :
  has_char c s = false -> remove_char c s = s.
Proof.
  induction s as [| a s IH]; [reflexivity |].
  cbn [has_char remove_char]. intros H.
  apply orb_false_iff in H. destruct H as [Ha Hs].
  rewrite Ha, (IH Hs). reflexivity.
Qed.

Lemma has_char_app (c : ascii) (a b : string) :
  has_char c (a ++ b) = has_char c a || has_char c b.
Proof.
  induction a as [| x a IH]; [reflexivity |].
  cbn [append has_char]. rewrite IH, orb_assoc. reflexivity.
Qed.

Lemma split_once_found (sep : ascii) (a b : string) :
  has_char sep a = false ->
  split_once sep (a ++ String sep b) = (a, Some b).
Proof.
  induction a as [| x a IH]; cbn [append split_once has_char].
  - intros _. rewrite Ascii.eqb_refl. reflexivity.
  - intros H. apply orb_false_iff in H. destruct H as [Hx Ha].
    rewrite Hx, (IH Ha). reflexivity.
Qed.

Lemma split_once_missing (sep : ascii) (s : string) :
  has_char sep s = false -> split_once sep s = (s, None).
Proof.
  induction s as [| x s IH]; [reflexivity |].
  cbn [split_once has_char]. intros H.
  apply orb_false_iff in H. destruct H as [Hx Hs].
  rewrite Hx, (IH Hs). reflexivity.
Qed.

Lemma split_on_lacks (sep : ascii) (s : string) :
  has_char sep s = false -> split_on sep s = [s].
Proof.
  induction s as [| x s IH]; [reflexivity |].
  cbn [split_on has_char]. intros H.
  apply orb_false_iff in H. destruct H as [Hx Hs].
  rewrite Hx, (IH Hs). reflexivity.
Qed.

Lemma split_on_app (sep : ascii) (a b : string) :
  has_char sep a = false ->
  split_on sep (a ++ String sep b) = a :: split_on sep b.
Proof.
  induction a as [| x a IH]; cbn [append split_on has_char].
  - intros _. rewrite Ascii.eqb_refl. reflexivity.
  - intros H. apply orb_false_iff in H. destruct H as [Hx Ha].
    rewrite Hx, (IH Ha). reflexivity.
Qed.

(** Splitting undoes joining when no piece holds the separator. *)
Lemma split_on_concat (sep : ascii) (l : list string) :
  l <> [] -> Forall (fun p => has_char sep p = false) l ->
  split_on sep (String.concat (String sep EmptyString) l) = l.
Proof.
  induction l as [| p [| q l] IH]; intros Hne Hl; [contradiction | |].
  - cbn [String.concat]. apply split_on_lacks.
    inversion Hl; assumption.
  - inversion Hl as [| ? ? Hp Hrest]; subst.
    change (String.concat (String sep EmptyString) (p :: q :: l))
      with (p ++ String sep EmptyString
              ++ String.concat (String sep EmptyString) (q :: l))%string.
    cbn [append]. rewrite split_on_app by exact Hp.
    rewrite IH; [reflexivity | discriminate | exact Hrest].
Qed.

Lemma has_char_concat (c sep : ascii) (l : list string) :
  Ascii.eqb sep c = false ->
  Forall (fun p => has_char c p = false) l ->
  has_char c (String.concat (String sep EmptyString) l) = false.
Proof.
  intros Hsep. induction l as [| p [| q l] IH]; intros Hl; [reflexivity | |].
  - inversion Hl; assumption.
  - inversion Hl as [| ? ? Hp Hrest]; subst.
    change (String.concat (String sep EmptyString) (p :: q :: l))
      with (p ++ String sep EmptyString
              ++ String.concat (String sep EmptyString) (q :: l))%string.
    rewrite has_char_app, Hp. cbn [append has_char orb].
    rewrite Hsep. apply IH. exact Hrest.
Qed.

(** *** Decimal integers *)

Lemma dec_body_acc (d : Decimal.uint) (p : positive) :
  dec_body (Zpos p) false
    (list_ascii_of_string (DecimalString.NilEmpty.string_of_uint d))
  = Some (Zpos (Pos.of_uint_acc d p)).
Proof.
  revert p. induction d; intros p;
    cbn [DecimalString.NilEmpty.string_of_uint list_ascii_of_string
         dec_body Pos.of_uint_acc];
    try reflexivity;
    match goal with
    | |- context [Ascii.eqb ?c "_"] =>
        change (Ascii.eqb c "_") with false; cbv iota
    end;
    match goal with
    | |- context [dec_digit ?c] =>
        let v := eval vm_compute in (dec_digit c) in
        change (dec_digit c) with v; cbv iota
    end;
    rewrite <- IHd; f_equal; lia.
Qed.

Lemma dec_body_0 (d : Decimal.uint) :
  dec_body 0 false
    (list_ascii_of_string (DecimalString.NilEmpty.string_of_uint d))
  = Some (Z.of_N (Pos.of_uint d)).
Proof.
  induction d;
    cbn [DecimalString.NilEmpty.string_of_uint list_ascii_of_string
         dec_body Pos.of_uint];
    try reflexivity;
    match goal with
    | |- context [Ascii.eqb ?c "_"] =>
        change (Ascii.eqb c "_") with false; cbv iota
    end;
    match goal with
    | |- context [dec_digit ?c] =>
        let v := eval vm_compute in (dec_digit c) in
        change (dec_digit c) with v; cbv iota
    end;
    first [exact IHd | apply (dec_body_acc d)].
Qed.

Lemma uint_digits (d : Decimal.uint) :
  Forall (fun c => is_digit c = true)
    (list_ascii_of_string (DecimalString.NilEmpty.string_of_uint d)).
Proof.
  induction d;
    cbn [DecimalString.NilEmpty.string_of_uint list_ascii_of_string];
    constructor; try reflexivity; exact IHd.
Qed.

Lemma digit_not_space (c : ascii) : is_digit c = true -> is_space c = false.
Proof.
  unfold is_digit, dec_digit, is_space.
  destruct ((48 <=? nat_of_ascii c)%nat && (nat_of_ascii c <=? 57)%nat)
    eqn:E; [| discriminate].
  intros _. apply andb_true_iff in E. destruct E as [E1 E2].
  apply Nat.leb_le in E1, E2.
  apply orb_false_iff. split.
  - apply andb_false_iff. right. apply Nat.leb_gt. lia.
  - apply Nat.eqb_neq. lia.
Qed.

Lemma lstrip_head (c : ascii) (l : list ascii) :
  is_space c = false -> lstrip (c :: l) = c :: l.
Proof. intros H. cbn [lstrip]. rewrite H. reflexivity. Qed.

(** Nothing is stripped from a text that neither starts nor ends with a
    space. *)
Lemma strip_digits (c : ascii) (l : list ascii) :
  is_space c = false ->
  Forall (fun x => is_digit x = true) l ->
  strip (c :: l) = c :: l.
Proof.
  intros Hc Hl. unfold strip. rewrite lstrip_head by exact Hc.
  assert (H : lstrip (rev (c :: l)) = rev (c :: l)).
  { destruct l as [| x l'] using rev_ind.
    - cbn. rewrite Hc. reflexivity.
    - rewrite app_comm_cons, rev_app_distr. cbn [rev app].
      apply lstrip_head. apply digit_not_space.
      apply Forall_app in Hl. destruct Hl as [_ Hx].
      inversion Hx; assumption. }
  rewrite H. apply rev_involutive.
Qed.

Lemma int10_of_digits (p : positive) :
  let l := list_ascii_of_string
             (DecimalString.NilEmpty.string_of_uint (Pos.to_uint p)) in
  exists c l', l = c :: l' /\ is_digit c = true
               /\ Forall (fun x => is_digit x = true) l'
               /\ dec_number l = Some (Zpos p).
Proof.
  intros l.
  pose proof (uint_digits (Pos.to_uint p)) as Hd. fold l in Hd.
  pose proof (dec_body_0 (Pos.to_uint p)) as Hb. fold l in Hb.
  rewrite DecimalPos.Unsigned.of_to in Hb. cbn [Z.of_N] in Hb.
  destruct l as [| c l'] eqn:El; [discriminate Hb |].
  inversion Hd as [| ? ? Hc Hl']; subst.
  exists c, l'. repeat split; try assumption.
  unfold dec_number.
  assert (Hu : Ascii.eqb c "_" = false).
  { destruct (Ascii.eqb c "_") eqn:E; [| reflexivity].
    apply Ascii.eqb_eq in E. subst c. discriminate Hc. }
  rewrite Hu. exact Hb.
Qed.

(** [int(str(n))] is [n]. *)
Lemma int10_py_str (n : Z) : int10 (py_str n) = Some n.
Proof.
  destruct n as [| p | p]; [reflexivity | |].
  - destruct (int10_of_digits p) as (c & l' & El & Hc & Hl' & Hn).
    cbv zeta in El, Hn.
    unfold int10, py_str. rewrite El in *.
    rewrite strip_digits; [| apply digit_not_space; exact Hc | exact Hl'].
    assert (Hplus : Ascii.eqb c "+" = false /\ Ascii.eqb c "-" = false).
    { split; destruct (Ascii.eqb c _) eqn:E; try reflexivity;
        apply Ascii.eqb_eq in E; subst c; discriminate Hc. }
    destruct Hplus as [Hp Hm].
    destruct c as [[] [] [] [] [] [] [] []]; try discriminate Hp;
      try discriminate Hm; exact Hn.
  - destruct (int10_of_digits p) as (c & l' & El & Hc & Hl' & Hn).
    cbv zeta in El, Hn.
    unfold int10, py_str. cbn [list_ascii_of_string]. rewrite El in *.
    rewrite strip_digits; [| reflexivity | constructor; assumption].
    rewrite Hn. reflexivity.
Qed.

(** *** Descriptors hold no character of the gradient grammar *)

Lemma plain_cons (c : ascii) (s : string) :
  plain (String c EmptyString) = true -> plain s = true ->
  plain (String c s) = true.
Proof.
  unfold plain. cbn [has_char]. rewrite !orb_false_r.
  intros Hc Hs. apply negb_true_iff in Hc, Hs. apply negb_true_iff.
  repeat (apply orb_false_iff in Hc; destruct Hc as [Hc ?]).
  repeat (apply orb_false_iff in Hs; destruct Hs as [Hs ?]).
  repeat (apply orb_false_iff; split); try assumption.
Qed.

Lemma plain_app (a b : string) :
  plain a = true -> plain b = true -> plain (a ++ b) = true.
Proof.
  unfold plain. rewrite !has_char_app.
  intros Ha Hb. apply negb_true_iff in Ha, Hb. apply negb_true_iff.
  repeat (apply orb_false_iff in Ha; destruct Ha as [Ha ?]).
  repeat (apply orb_false_iff in Hb; destruct Hb as [Hb ?]).
  repeat (apply orb_false_iff; split); try assumption.
Qed.

Lemma plain_lacks (s : string) :
  plain s = true ->
  has_char "," s = false /\ has_char ";" s = false
  /\ has_char "(" s = false /\ has_char ")" s = false.
Proof.
  unfold plain. intros H. apply negb_true_iff in H.
  repeat (apply orb_false_iff in H; destruct H as [H ?]).
  repeat split; assumption.
Qed.

Lemma hex2_plain_all :
  forallb (fun n => plain (format_hex 2 n)) (map Z.of_nat (seq 0 256))
  = true.
Proof. vm_compute. reflexivity. Qed.

Lemma hex3_plain_all :
  forallb (fun n => plain (format_hex 3 n)) (map Z.of_nat (seq 0 4096))
  = true.
Proof. vm_compute. reflexivity. Qed.

Lemma format_hex_2_plain (n : Z) :
  (0 <= n <= 255)%Z -> plain (format_hex 2 n) = true.
Proof.
  intros Hn. pose proof hex2_plain_all as Hall.
  rewrite forallb_forall in Hall. apply Hall.
  apply in_map_iff. exists (Z.to_nat n). split; [lia |].
  apply in_seq. lia.
Qed.

Lemma format_hex_3_plain (n : Z) :
  (0 <= n <= 4095)%Z -> plain (format_hex 3 n) = true.
Proof.
  intros Hn. pose proof hex3_plain_all as Hall.
  rewrite forallb_forall in Hall. apply Hall.
  apply in_map_iff. exists (Z.to_nat n). split; [lia |].
  apply in_seq. lia.
Qed.

Lemma py_str_plain (n : Z) : plain (py_str n) = true.
Proof.
  assert (H : forall d, plain (DecimalString.NilEmpty.string_of_uint d)
                        = true).
  { induction d; cbn [DecimalString.NilEmpty.string_of_uint];
      [reflexivity | apply plain_cons; [reflexivity | exact IHd] ..]. }
  destruct n as [| p | p]; [reflexivity | apply H |].
  unfold py_str. apply plain_cons; [reflexivity | apply H].
Qed.

(** *** Colours of a gradient: encoding, then decoding *)

Lemma solid_round_trip_rgb (v : ColorSolid) :
  _inputType v = Some rgb ->
  is_byte (red v) -> is_byte (green v) -> is_byte (blue v) ->
  exists s v',
    toString None v = ret (Some s)
    /\ parse s = ret (Some v')
    /\ toString None v' = ret (Some s)
    /\ well_formed v' /\ plain s = true.
Proof.
  intros Ht Hr Hg Hb.
  destruct (round_field_byte _ Hr) as (r & Er & Br).
  destruct (round_field_byte _ Hg) as (g & Eg & Bg).
  destruct (round_field_byte _ Hb) as (b & Eb & Bb).
  assert (Hplain : plain (String "c" (format_hex 2 r ++ format_hex 2 g
                                        ++ format_hex 2 b)) = true).
  { apply plain_cons; [reflexivity |].
    repeat apply plain_app; apply format_hex_2_plain; assumption. }
  destruct (format_hex_2 r Br) as (r1 & r2 & Fr & Ir).
  destruct (format_hex_2 g Bg) as (g1 & g2 & Fg & Ig).
  destruct (format_hex_2 b Bb) as (b1 & b2 & Fb & Ib).
  rewrite Fr, Fg, Fb in Hplain.
  set (s := String "c" (String r1 (String r2 (String g1 (String g2
              (String b1 (String b2 EmptyString))))))).
  destruct (ColorSolid_init_rgb (IZR r) (IZR g) (IZR b) None
              default_hue default_saturation default_intensity)
    as (h & st & i & Ei); try (apply channel_IZR; assumption).
  exists s. eexists. split; [| split; [| split; [| split]]].
  - unfold toString, selects. rewrite Ht. cbn [inputType_eqb orb].
    rewrite Er. mret. rewrite Eg. mret. rewrite Eb. mret.
    rewrite Fr, Fg, Fb. reflexivity.
  - rewrite parse_framed; [| cbn; lia | reflexivity].
    change (all_some (map int16 (descriptor_fields s)))
      with (all_some [int16 (String r1 (String r2 EmptyString));
                      int16 (String g1 (String g2 EmptyString));
                      int16 (String b1 (String b2 EmptyString))]).
    rewrite Ir, Ig, Ib. cbn [all_some option_map].
    unfold build. change (lower_startswith s "c") with true. cbv iota.
    rewrite Ei. mret. reflexivity.
  - unfold toString, selects. cbn [_inputType inputType_eqb orb].
    unfold red, green, blue. cbn [_red _green _blue].
    rewrite !round_field_IZR. mret. mret. mret.
    rewrite Fr, Fg, Fb. reflexivity.
  - split; [| split].
    + unfold channels_in_range, is_channel, red, green, blue, white.
      cbn [_red _green _blue _white _enableWhite].
      split; [| split; [| split]];
        try (eexists; split; [reflexivity | apply channel_IZR; assumption]).
      exact I.
    + exists h, st, i. repeat split.
    + discriminate.
  - exact Hplain.
Qed.

Lemma solid_round_trip_rgbw (v : ColorSolid) :
  _inputType v = Some rgbw ->
  is_byte (red v) -> is_byte (green v) -> is_byte (blue v) ->
  (forall w, white v = Some w -> (0 <= py_round w <= 255)%Z) ->
  exists s v',
    toString None v = ret (Some s)
    /\ parse s = ret (Some v')
    /\ toString None v' = ret (Some s)
    /\ well_formed v' /\ plain s = true.
Proof.
  intros Ht Hr Hg Hb Hw.
  destruct (round_field_byte _ Hr) as (r & Er & Br).
  destruct (round_field_byte _ Hg) as (g & Eg & Bg).
  destruct (round_field_byte _ Hb) as (b & Eb & Bb).
  set (wv := match white v with Some w => w | None => 0 end).
  assert (Bw : (0 <= py_round wv <= 255)%Z).
  { unfold wv. destruct (white v) as [w |].
    - apply Hw. reflexivity.
    - rewrite (py_round_IZR 0). lia. }
  assert (Hplain : plain (String "c" (format_hex 2 r ++ format_hex 2 g
                                        ++ format_hex 2 b
                                        ++ format_hex 2 (py_round wv)))
                   = true).
  { apply plain_cons; [reflexivity |].
    repeat apply plain_app; apply format_hex_2_plain; assumption. }
  destruct (format_hex_2 r Br) as (r1 & r2 & Fr & Ir).
  destruct (format_hex_2 g Bg) as (g1 & g2 & Fg & Ig).
  destruct (format_hex_2 b Bb) as (b1 & b2 & Fb & Ib).
  destruct (format_hex_2 _ Bw) as (w1 & w2 & Fw & Iw).
  rewrite Fr, Fg, Fb, Fw in Hplain.
  set (s := String "c" (String r1 (String r2 (String g1 (String g2
              (String b1 (String b2 (String w1 (String w2
                 EmptyString))))))))).
  destruct (ColorSolid_init_rgbw (IZR r) (IZR g) (IZR b)
              (Some (IZR (py_round wv)))
              default_hue default_saturation default_intensity)
    as (h & st & i & Ei); try (apply channel_IZR; assumption).
  exists s. eexists. split; [| split; [| split; [| split]]].
  - unfold toString, selects. rewrite Ht. cbn [inputType_eqb orb].
    rewrite Er. mret. rewrite Eg. mret. rewrite Eb. mret.
    fold wv. rewrite Fr, Fg, Fb, Fw. reflexivity.
  - rewrite parse_framed; [| cbn; lia | reflexivity].
    change (all_some (map int16 (descriptor_fields s)))
      with (all_some [int16 (String r1 (String r2 EmptyString));
                      int16 (String g1 (String g2 EmptyString));
                      int16 (String b1 (String b2 EmptyString));
                      int16 (String w1 (String w2 EmptyString))]).
    rewrite Ir, Ig, Ib, Iw. cbn [all_some option_map].
    unfold build. change (lower_startswith s "c") with true. cbv iota.
    unfold default_enableWhite. rewrite Ei. mret. reflexivity.
  - unfold toString, selects. cbn [_inputType inputType_eqb orb].
    unfold red, green, blue, white.
    cbn [_red _green _blue _white _enableWhite].
    rewrite !round_field_IZR. mret. mret. mret.
    rewrite py_round_IZR. rewrite Fr, Fg, Fb, Fw. reflexivity.
  - split; [| split].
    + unfold channels_in_range, is_channel, red, green, blue, white.
      cbn [_red _green _blue _white _enableWhite].
      split; [| split; [| split]];
        try (eexists; split; [reflexivity | apply channel_IZR; assumption]).
      apply channel_IZR. assumption.
    + exists h, st, i. repeat split.
    + discriminate.
  - exact Hplain.
Qed.

Lemma solid_round_trip_hsi (v : ColorSolid) (h : R) :
  _inputType v = Some hsi -> hue v = Some h ->
  is_level (saturation v) -> is_level (intensity v) ->
  exists s v',
    toString None v = ret (Some s)
    /\ parse s = ret (Some v')
    /\ toString None v' = ret (Some s)
    /\ well_formed v' /\ plain s = true.
Proof.
  intros Ht Hh (sv & Es & Bs) (iv & Ei & Bi).
  pose proof (encoded_hue_range h) as Bh.
  set (H := py_round (if Req_dec_T h 360 then 360 else py_mod h 360)) in *.
  set (S := py_round (sv * 255)) in *. set (L := py_round (iv * 255)) in *.
  assert (Hbody : plain (format_hex 3 H ++ format_hex 3 S ++ format_hex 3 L)
                  = true).
  { repeat apply plain_app; apply format_hex_3_plain; lia. }
  destruct (format_hex_3 H) as (h1 & h2 & h3 & Fh & Ih & _); [lia |].
  destruct (format_hex_3 _ Bs) as (s1 & s2 & s3 & Fs & Is & _).
  destruct (format_hex_3 _ Bi) as (i1 & i2 & i3 & Fi & Ii & Wi).
  rewrite Fh, Fs, Fi in Hbody.
  set (body := String h1 (String h2 (String h3 (String s1 (String s2
                 (String s3 (String i1 (String i2 (String i3
                    EmptyString))))))))).
  change (plain body = true) in Hbody.
  destruct (ColorSolid_init_hsi_well_formed
              (IZR H) (IZR S / 255) (IZR L / 255) (_enableWhite v))
    as (c & Ec & Wc & Ewc & Tc & Hc & Sc & Lc).
  assert (Etail : toString None c
                  = ret (Some (if _enableWhite v
                               then String "h" (body ++ "w")%string
                               else String "h" body))).
  { unfold toString, selects. rewrite Tc. cbn [inputType_eqb orb].
    rewrite Hc, Sc, Lc. unfold need. mret. mret. mret.
    rewrite (encoded_hue_stable H) by lia.
    replace (IZR S / 255 * 255) with (IZR S) by field.
    replace (IZR L / 255 * 255) with (IZR L) by field.
    rewrite !py_round_IZR, Fh, Fs, Fi.
    unfold enableWhite in Ewc. rewrite Ewc.
    destruct (_enableWhite v); reflexivity. }
  assert (Eenc : toString None v
                 = ret (Some (if _enableWhite v
                              then String "h" (body ++ "w")%string
                              else String "h" body))).
  { unfold toString, selects. rewrite Ht. cbn [inputType_eqb orb].
    rewrite Hh, Es, Ei. unfold need. mret. mret. mret.
    fold H S L. rewrite Fh, Fs, Fi.
    destruct (_enableWhite v); reflexivity. }
  destruct (_enableWhite v) eqn:Ew.
  - exists (String "h" (body ++ "w")%string), c.
    split; [exact Eenc |]. split; [| split; [| split]].
    + rewrite parse_framed; [| cbn; lia | reflexivity].
      change (all_some (map int16
                (descriptor_fields (String "h" (body ++ "w")%string))))
        with (all_some
                [int16 (String h1 (String h2 (String h3 EmptyString)));
                 int16 (String s1 (String s2 (String s3 EmptyString)));
                 int16 (String i1 (String i2 (String i3 EmptyString)))]).
      rewrite Ih, Is, Ii. cbn [all_some option_map].
      unfold build.
      change (lower_startswith (String "h" (body ++ "w")%string) "c")
        with false.
      change (lower_endswith (String "h" (body ++ "w")%string) "w")
        with true.
      cbv iota. unfold index. cbn [nth_error]. mret. mret. mret.
      rewrite Ec. mret. reflexivity.
    + exact Etail.
    + exact Wc.
    + apply plain_cons; [reflexivity |].
      apply plain_app; [exact Hbody | reflexivity].
  - exists (String "h" body), c.
    split; [exact Eenc |]. split; [| split; [| split]].
    + rewrite parse_framed; [| cbn; lia | ].
      * assert (Elast : lower_endswith (String "h" body) "w" = false)
          by exact Wi.
        unfold descriptor_fields.
        change (lower_startswith (String "h" body) "c") with false.
        cbv iota. rewrite Elast.
        change (map int16 (fields 3 (String "h" body)))
          with [int16 (String h1 (String h2 (String h3 EmptyString)));
                int16 (String s1 (String s2 (String s3 EmptyString)));
                int16 (String i1 (String i2 (String i3 EmptyString)))].
        rewrite Ih, Is, Ii. cbn [all_some option_map].
        unfold build.
        change (lower_startswith (String "h" body) "c") with false.
        rewrite Elast.
        cbv iota. unfold index. cbn [nth_error]. mret. mret. mret.
        rewrite Ec. mret. reflexivity.
      * unfold well_framed.
        change (lower_startswith (String "h" body) "c") with false.
        change (lower_startswith (String "h" body) "h") with true.
        assert (Elast : lower_endswith (String "h" body) "w" = false)
          by exact Wi.
        cbv iota. rewrite Elast. reflexivity.
    + exact Etail.
    + exact Wc.
    + apply plain_cons; [reflexivity | exact Hbody].
Qed.

Lemma solid_round_trip (v : ColorSolid) :
  encodable v ->
  exists s v',
    toString None v = ret (Some s)
    /\ parse s = ret (Some v')
    /\ toString None v' = ret (Some s)
    /\ well_formed v' /\ plain s = true.
Proof.
  unfold encodable. destruct (_inputType v) as [[| |] |] eqn:Ht.
  - intros (Hr & Hg & Hb). apply solid_round_trip_rgb; assumption.
  - intros (Hr & Hg & Hb & Hw). apply solid_round_trip_rgbw; assumption.
  - intros ((h & Hh) & Hs & Hi). apply (solid_round_trip_hsi v h); assumption.
  - intros [].
Qed.

(** The colours of a list, encoded one by one and decoded again. *)
Lemma solids_round_trip (l : list ColorSolid) :
  Forall encodable l ->
  exists ss l',
    mapM (toString None) l = ret (map Some ss)
    /\ mapM parse ss = ret (map Some l')
    /\ mapM (toString None) l' = ret (map Some ss)
    /\ Forall well_formed l'
    /\ Forall (fun s => plain s = true) ss
    /\ List.length ss = List.length l
    /\ List.length l' = List.length l.
Proof.
  induction 1 as [| v l Hv _ IH].
  - exists [], []. repeat split; constructor.
  - destruct (solid_round_trip v Hv) as (s & v' & E1 & E2 & E3 & W & P).
    destruct IH as (ss & l' & F1 & F2 & F3 & FW & FP & Len1 & Len2).
    exists (s :: ss), (v' :: l'). cbn [mapM map List.length].
    rewrite E1, E2, E3. mret. mret. mret.
    rewrite F1, F2, F3. mret. mret.
    repeat split; try (constructor; assumption); congruence.
Qed.

Lemma all_some_map_Some {A} (l : list A) : all_some (map Some l) = Some l.
Proof.
  induction l as [| a l IH]; [reflexivity |].
  cbn [map all_some]. rewrite IH. reflexivity.
Qed.

Lemma has_char_remove (c d : ascii) (s : string) :
  Ascii.eqb d c = false ->
  has_char c (remove_char d s) = has_char c s.
Proof.
  intros Hd. induction s as [| a s IH]; [reflexivity |].
  cbn [remove_char has_char].
  destruct (Ascii.eqb a d) eqn:E.
  - apply Ascii.eqb_eq in E. subst a. rewrite Hd, IH. reflexivity.
  - cbn [has_char]. rewrite IH. reflexivity.
Qed.

(** What [ColorGradient.toString] writes for a list of nodes that all
    have an encoding. *)
Lemma ColorGradient_toString_of (g : ColorGradient) (l : list ColorSolid)
    (ss : list string) :
  _nodes g = NodeList l ->
  mapM (toString None) l = ret (map Some ss) ->
  ColorGradient_toString (Configured g)
  = ret (String.concat "," ss ++ ";" ++ py_str (_steps g))%string.
Proof.
  intros Hn Hs. unfold ColorGradient_toString. cbn [nodes_of steps_of].
  rewrite Hn, Hs. mret. rewrite all_some_map_Some. reflexivity.
Qed.

(** What [ColorGradient.parse] does with the pieces of a well-shaped
    text. *)
Lemma ColorGradient_parse_of (ss : list string) (n : Z) :
  ss <> [] -> Forall (fun s => plain s = true) ss ->
  ColorGradient_parse (String.concat "," ss ++ ";" ++ py_str n)%string
  = (colors <- mapM parse ss ;;
     ColorGradient_of_list colors n interp_hsi).
Proof.
  intros Hne Hss. unfold ColorGradient_parse.
  assert (Hl : forall c, In c [","; ";"; "("; ")"]%char ->
               Forall (fun p => has_char c p = false) ss).
  { intros c Hc. eapply Forall_impl; [| exact Hss].
    intros s Hs. cbv beta in Hs. apply plain_lacks in Hs.
    destruct Hs as (H1 & H2 & H3 & H4).
    cbn [In] in Hc.
    destruct Hc as [<- | [<- | [<- | [<- | []]]]]; assumption. }
  destruct (plain_lacks _ (py_str_plain n)) as (_ & _ & N3 & N4).
  assert (Hc : forall c, In c [";"; "("; ")"]%char ->
               has_char c (String.concat "," ss) = false).
  { intros c Hc. apply has_char_concat.
    - cbn [In] in Hc. destruct Hc as [<- | [<- | [<- | []]]]; reflexivity.
    - apply Hl. cbn [In] in *. tauto. }
  rewrite !remove_char_lacks.
  - change (String.concat "," ss ++ ";" ++ py_str n)%string
      with (String.concat "," ss ++ String ";" (py_str n))%string.
    rewrite split_once_found by (apply Hc; cbn; tauto).
    rewrite split_on_concat; [| exact Hne | apply Hl; cbn; tauto].
    unfold py_int10. rewrite int10_py_str.
    destruct (mapM parse ss) as [log [colors | e]]; [| reflexivity].
    unfold bind at 2. 
    destruct (ColorGradient_of_list colors n interp_hsi) as [log' r] eqn:E.
    unfold bind, ret. cbn. rewrite E. reflexivity.
  - rewrite has_char_app, (Hc "("%char) by (cbn; tauto).
    cbn [append has_char orb]. exact N3.
  - rewrite remove_char_lacks.
    + rewrite has_char_app, (Hc ")"%char) by (cbn; tauto).
      cbn [append has_char orb]. exact N4.
    + rewrite has_char_app, (Hc "("%char) by (cbn; tauto).
      cbn [append has_char orb]. exact N3.
Qed.

(** ** Gradients as text *)

(** A gradient whose nodes are a non-empty list of encodable colours is
    written as text that [ColorGradient.parse] reads back; the gradient
    read has the same number of nodes, the same steps and the same
    text, so it is equal to the original under [__eq__], although its
    interpolation mode is always [hsi]. *)
Theorem ColorGradient_toString_parse (l : list ColorSolid) (steps : Z)
    (mode : interpMode) (grad : nodes) :
  l <> [] -> Forall encodable l ->
  exists s g' l',
    ColorGradient_toString
      (Configured (mkColorGradient (NodeList l) steps mode grad)) = ret s
    /\ ColorGradient_parse s = ret (Configured g')
    /\ _nodes g' = NodeList l' /\ List.length l' = List.length l
    /\ _steps g' = steps /\ _interpMode g' = interp_hsi
    /\ ColorGradient_toString (Configured g') = ret s
    /\ ColorGradient_eq (Configured g')
         (Configured (mkColorGradient (NodeList l) steps mode grad))
       = ret true.
Proof.
  intros Hne Hl.
  destruct (solids_round_trip l Hl)
    as (ss & l' & E1 & E2 & E3 & W & P & Len1 & Len2).
  assert (Hss : ss <> []).
  { intros ->. destruct l; [contradiction | discriminate Len1]. }
  assert (Hl' : l' <> []).
  { intros ->. destruct l; [contradiction | discriminate Len2]. }
  set (s := (String.concat "," ss ++ ";" ++ py_str steps)%string).
  assert (Hgen : exists out,
             generate interp_hsi (NodeList l') steps = ret out).
  { cbn [generate]. destruct (Z.eq_dec steps 0) as [-> | Hs].
    - exists (NodeList l'). reflexivity.
    - destruct (linearInterpHsi_returns l' steps Hl' Hs W)
        as (out & Eout & _).
      exists (NodeList out). exact Eout. }
  destruct Hgen as (out & Eout).
  assert (Es : ColorGradient_toString
                 (Configured (mkColorGradient (NodeList l) steps mode grad))
               = ret s).
  { exact (ColorGradient_toString_of
             (mkColorGradient (NodeList l) steps mode grad) l ss
             eq_refl E1). }
  assert (Es' : ColorGradient_toString
                  (Configured
                     (mkColorGradient (NodeList l') steps interp_hsi out))
                = ret s).
  { exact (ColorGradient_toString_of
             (mkColorGradient (NodeList l') steps interp_hsi out) l' ss
             eq_refl E3). }
  exists s, (mkColorGradient (NodeList l') steps interp_hsi out), l'.
  split; [exact Es |]. split; [| repeat split; try assumption].
  - unfold s. rewrite ColorGradient_parse_of by assumption.
    rewrite E2. mret. unfold ColorGradient_of_list.
    rewrite all_some_map_Some, Eout. mret. reflexivity.
  - unfold ColorGradient_eq. rewrite Es', Es. mret. mret.
    rewrite String.eqb_refl. reflexivity.
Qed.

Lemma ColorGradient_toString_parse_witness :
  exists s g' l',
    ColorGradient_toString
      (Configured
         (mkColorGradient (NodeList [pure_red; default_colour]) 3
            interp_rgbw NoNodes)) = ret s
    /\ ColorGradient_parse s = ret (Configured g')
    /\ _nodes g' = NodeList l' /\ List.length l' = 2%nat
    /\ _steps g' = 3%Z /\ _interpMode g' = interp_hsi
    /\ ColorGradient_toString (Configured g') = ret s
    /\ ColorGradient_eq (Configured g')
         (Configured
            (mkColorGradient (NodeList [pure_red; default_colour]) 3
               interp_rgbw NoNodes))
       = ret true.
Proof.
  apply (ColorGradient_toString_parse [pure_red; default_colour] 3
           interp_rgbw NoNodes); [discriminate |].
  constructor; [| constructor; [| constructor]].
  - cbn. repeat split; eexists; (split; [reflexivity |]);
      rewrite py_round_IZR; lia.
  - cbn. split; [exists 0; reflexivity |].
    split; exists 1; (split; [reflexivity |]);
      replace (1 * 255) with 255 by ring; rewrite py_round_IZR; lia.
Defined.

(** A text without [;], apart from parentheses, is not a gradient:
    [ColorGradient.parse] raises [ValueError] when it unpacks the two halves. *)
Theorem ColorGradient_parse_without_steps (s : string) :
  has_char ";" s = false -> ColorGradient_parse s = raise ValueError.
Proof.
  intros H. unfold ColorGradient_parse.
  rewrite split_once_missing; [reflexivity |].
  rewrite !has_char_remove by reflexivity. exact H.
Qed.

Lemma ColorGradient_parse_without_steps_witness :
  ColorGradient_parse "(cff0000,c00ff00)" = raise ValueError.
Proof. apply ColorGradient_parse_without_steps. reflexivity. Defined.

(** A gradient over the empty list is written as [;] and its steps, and
    no text that starts with [;] is read: the empty colour in front
    makes [ColorSolid.parse] raise before the steps are looked at. *)
Theorem ColorGradient_of_no_colour_is_not_read_back (steps : Z)
    (mode : interpMode) (grad : nodes) (t : string) :
  ColorGradient_toString
    (Configured (mkColorGradient (NodeList []) steps mode grad))
  = ret (";" ++ py_str steps)%string
  /\ ColorGradient_parse (";" ++ t)%string
     = raise (Exception "Invalid input, needs to be an input string").
Proof.
  split; [reflexivity |].
  unfold ColorGradient_parse. cbn [append remove_char].
  change (Ascii.eqb ";" "(") with false.
  change (Ascii.eqb ";" ")") with false. cbv iota.
  cbn [remove_char]. change (Ascii.eqb ";" ")") with false. cbv iota.
  cbn [split_once]. rewrite Ascii.eqb_refl. cbn [split_on mapM].
  rewrite parse_short by (cbn; lia). reflexivity.
Qed.

(** A colour that [ColorSolid.parse] does not recognise does not make
    [ColorGradient.parse] fail: both print a line, and the gradient
    returned has no nodes, keeps the steps and is written as the empty
    text. *)
Theorem ColorGradient_parse_unknown_colour (t : string) (n : Z) :
  (1 < String.length t)%nat -> well_framed t = false -> plain t = true ->
  exists msg,
    ColorGradient_parse (t ++ ";" ++ py_str n)%string
    = ([msg; "Invalid nodes input, needs to be of class ColorSolid"],
       Ok (Unconfigured n interp_hsi))
    /\ ColorGradient_toString (Unconfigured n interp_hsi) = ret "".
Proof.
  intros Hlen Hf Hp.
  destruct (parse_unframed t Hlen Hf) as (msg & Et).
  exists msg. split; [| reflexivity].
  change (t ++ ";" ++ py_str n)%string
    with (String.concat "," [t] ++ ";" ++ py_str n)%string.
  rewrite ColorGradient_parse_of;
    [| discriminate | constructor; [exact Hp | constructor]].
  cbn [mapM]. rewrite Et. reflexivity.
Qed.

Lemma ColorGradient_parse_unknown_colour_witness :
  exists msg,
    ColorGradient_parse "x123456;4"
    = ([msg; "Invalid nodes input, needs to be of class ColorSolid"],
       Ok (Unconfigured 4 interp_hsi))
    /\ ColorGradient_toString (Unconfigured 4 interp_hsi) = ret "".
Proof.
  apply (ColorGradient_parse_unknown_colour "x123456" 4);
    [cbn; lia | reflexivity | reflexivity].
Defined.
